(** * Rusneb-Downloader: the catalogue crawl scheduler

    A shallow embedding of [src/parsers/catalog_parser.py]
    (class [CatalogParser]) and the properties of its frontier, its page
    cursor, its retry handling and its worker loop.

    Python integers are unbounded, so they are [Z].  A Python [set] is a
    [gset]; a [deque] or [list] is a [list] (the left end of the deque is
    the head).  The workers are [asyncio] coroutines: between two [await]s a
    coroutine runs alone, so every worker advances by atomic steps, and a
    run of the parser is an interleaving of such steps. *)

From stdpp Require Import gmap strings list sorting.
From stdpp Require Import pretty.

Local Open Scope Z_scope.
Set Warnings "-clear-no-such-hyp".

(** ** Data model *)

Module ParseRequest.
(** [ParseRequest]: the query and the search/catalogue flag. *)
Record t := mk { query : string; is_search : bool }.
End ParseRequest.

(** What [_process_page] stores in [task.last_error]. *)
Inductive error :=
| HttpError (status_code : Z)   (* Exception(f"HTTP error {status}") *)
| ReadErrorSeen                 (* Exception("Read error") *)
| TimeoutSeen                   (* Exception("Timeout") *)
| Unexpected.                   (* the caught exception itself *)

Module PageTask.
(** Modelled from the spec: the class [PageTask] (src/models/page_task.py
    is not part of the sources at hand).  Its fields are those
    [catalog_parser.py] reads and writes. *)
Record t := mk {
  request : ParseRequest.t;
  worker_id : Z;
  page_number : Z;
  attempt_count : Z;
  last_error : option error;
  items : list string;
  processed : bool;
  no_more_pages : bool
}.

(** Modelled from the spec: [PageTask(request=, worker_id=, page_number=)]
    with every other field at its default (no attempt made, no error,
    no item, both flags down). *)
Definition new (request : ParseRequest.t) (worker_id page_number : Z) : t :=
  mk request worker_id page_number 0 None [] false false.

Definition set_worker_id (w : Z) (k : t) : t :=
  mk (request k) w (page_number k) (attempt_count k) (last_error k)
     (items k) (processed k) (no_more_pages k).
Definition set_processed (k : t) : t :=
  mk (request k) (worker_id k) (page_number k) (attempt_count k)
     (last_error k) (items k) true (no_more_pages k).
Definition set_no_more_pages (k : t) : t :=
  mk (request k) (worker_id k) (page_number k) (attempt_count k)
     (last_error k) (items k) (processed k) true.
Definition set_items (l : list string) (k : t) : t :=
  mk (request k) (worker_id k) (page_number k) (attempt_count k)
     (last_error k) l (processed k) (no_more_pages k).
(** [task.attempt_count += 1; task.last_error = e] *)
Definition failed (e : error) (k : t) : t :=
  mk (request k) (worker_id k) (page_number k) (attempt_count k + 1)
     (Some e) (items k) (processed k) (no_more_pages k).
End PageTask.

Module PageData.
(** Modelled from the spec: the class [PageData] (src/models/page_data.py
    is not part of the sources at hand), the frontier shared by the
    workers.  [pending_tasks] is a deque ([popleft], [append]),
    [processed_pages] a set ([add]), [download_queue] a sequence
    ([extend]), [downloaded] a set of which only membership is used. *)
Record t := mk {
  pending_tasks : list PageTask.t;
  processed_pages : gset Z;
  download_queue : list string;
  downloaded : gset string;
  max_page_found : Z;
  no_more_pages : bool;
  has_error : bool
}.

(** Modelled from the spec: the frontier as it is created for a run. *)
Definition fresh : t := mk [] ∅ [] ∅ 0 false false.

Definition set_pending_tasks (q : list PageTask.t) (d : t) : t :=
  mk q (processed_pages d) (download_queue d) (downloaded d)
     (max_page_found d) (no_more_pages d) (has_error d).
Definition set_no_more_pages (d : t) : t :=
  mk (pending_tasks d) (processed_pages d) (download_queue d) (downloaded d)
     (max_page_found d) true (has_error d).
(** [data.pending_tasks.append(task)] *)
Definition append_pending (k : PageTask.t) (d : t) : t :=
  set_pending_tasks (pending_tasks d ++ [k]) d.
End PageData.

(** The outcome of [await client.get(url)], with the item identifiers that
    [_parse_search_page] or [_parse_catalog_page] extracts from the body
    (the HTML extraction itself is BeautifulSoup's and stays outside). *)
Inductive fetch_outcome :=
| Response (status_code : Z) (items : list string)
| ReadError                        (* httpx.ReadError *)
| TimeoutException                 (* httpx.TimeoutException *)
| OtherException (truthy : bool).  (* any other Exception e; [truthy] is bool(e) *)

(** The constructor arguments of [CatalogParser] that the scheduler reads. *)
Record Config := {
  request : ParseRequest.t;
  num_workers : Z;
  chunk_size : Z;
  max_retries : Z
}.

(** ** [_get_next_tasks] *)

(** The first loop: [while len(tasks) < count and data.pending_tasks]. *)
Fixpoint take_pending (worker_id count : Z)
    (tasks pending : list PageTask.t) : list PageTask.t * list PageTask.t :=
  match pending with
  | [] => (tasks, [])
  | task :: pending' =>
      if bool_decide (Z.of_nat (length tasks) < count)
      then take_pending worker_id count
             (tasks ++ [PageTask.set_worker_id worker_id task]) pending'
      else (tasks, pending)
  end.

(** [range(start_page, end_page)] *)
Definition range (start stop : Z) : list Z := seqZ start (stop - start).

(** The pages reserved from the cursor: [start_page .. end_page - 1]. *)
Definition reserved (next_page n : Z) : list Z :=
  range (next_page + 1) (next_page + 1 + n).

(** The body of [async with self.lock]: the fresh tasks and the new cursor. *)
Definition allocate_new (req : ParseRequest.t) (worker_id : Z)
    (processed_pages : gset Z) (next_page n : Z) : list PageTask.t * Z :=
  let start_page := next_page + 1 in
  let end_page := start_page + n in
  (PageTask.new req worker_id <$>
     filter (λ page, page ∉ processed_pages) (range start_page end_page),
   end_page - 1).

Definition _get_next_tasks (req : ParseRequest.t) (worker_id count : Z)
    (data : PageData.t) (next_page : Z)
  : list PageTask.t * PageData.t * Z :=
  let '(tasks, pending) :=
    take_pending worker_id count [] (PageData.pending_tasks data) in
  let data := PageData.set_pending_tasks pending data in
  if bool_decide (Z.of_nat (length tasks) < count)
     && negb (PageData.no_more_pages data)
  then
    let '(new, next_page) :=
      allocate_new req worker_id (PageData.processed_pages data) next_page
        (count - Z.of_nat (length tasks)) in
    (tasks ++ new, data, next_page)
  else (tasks, data, next_page).

(** ** [_process_page] *)

(** The retry handling shared by the four failure branches:
    [task.attempt_count += 1], [task.last_error = ...] and the task goes back
    to [pending_tasks] when [task.attempt_count < self.max_retries]. *)
Definition retry (max_retries : Z) (e : error)
    (data : PageData.t) (task : PageTask.t) : PageData.t * PageTask.t :=
  let task := PageTask.failed e task in
  if bool_decide (PageTask.attempt_count task < max_retries)
  then (PageData.append_pending task data, task)
  else (data, task).

(** Lines 253-265: the new items join [download_queue], the page joins
    [processed_pages]. *)
Definition record_result (data : PageData.t) (task : PageTask.t)
    (items : list string) : PageData.t * PageTask.t :=
  let new_items :=
    filter (λ item, (item ∉ PageData.download_queue data)
                    ∧ (item ∉ PageData.downloaded data)) items in
  (PageData.mk (PageData.pending_tasks data)
     ({[PageTask.page_number task]} ∪ PageData.processed_pages data)
     (PageData.download_queue data ++ new_items)
     (PageData.downloaded data)
     (Z.max (PageData.max_page_found data) (PageTask.page_number task))
     (PageData.no_more_pages data)
     (PageData.has_error data),
   PageTask.set_processed (PageTask.set_items new_items task)).

(** Lines 242-251: the page has no item. *)
Definition mark_exhausted (data : PageData.t) (task : PageTask.t)
  : PageData.t * PageTask.t :=
  (if bool_decide (PageTask.page_number task > PageData.max_page_found data)
   then PageData.set_no_more_pages data else data,
   PageTask.set_no_more_pages task).

(** [_process_page] from the return of [client.get] on (lines 192-265). *)
Definition process_response (max_retries : Z) (data : PageData.t)
    (task : PageTask.t) (r : fetch_outcome) : PageData.t * PageTask.t :=
  match r with
  | Response status_code items =>
      if bool_decide (status_code ≠ 200)
      then retry max_retries (HttpError status_code) data task
      else match items with
           | [] => mark_exhausted data task
           | _ => record_result data task items
           end
  | ReadError => retry max_retries ReadErrorSeen data task
  | TimeoutException => retry max_retries TimeoutSeen data task
  | OtherException truthy =>
      if truthy then retry max_retries Unexpected data task
      else (data, task)              (* [if not e: ... return] *)
  end.

(** The whole of [_process_page], when nothing else runs while the page is
    fetched.  [r] is what [client.get] answers; it is not consulted when
    the page is already processed. *)
Definition _process_page (max_retries : Z) (data : PageData.t)
    (task : PageTask.t) (r : fetch_outcome) : PageData.t * PageTask.t :=
  if bool_decide (PageTask.page_number task ∈ PageData.processed_pages data)
  then (data, PageTask.set_processed task)
  else process_response max_retries data task r.

(** ** The worker loop and the run *)

(** Where a worker coroutine is suspended.  A worker that waits for the
    lock of the frontier is a worker that is not resumed yet, so that each
    critical section is one step.  A test of the stop event is made in the
    step of the critical section that follows it (lines 110 and 144, lines
    124 and 177), though the worker can wait for the lock in between; this
    differs from one step only when the event is set meanwhile, and
    [step_late] is the step of a worker to which that happens. *)
Inductive worker_state :=
| FetchingTasks
    (* at [while not self.stop_event.is_set()], about to call
       [_get_next_tasks] *)
| IdleBackoff
    (* [tasks] was empty: about to look at the frontier (lines 113-121) *)
| Processing (tasks : list PageTask.t)
    (* at the head of [for task in tasks] with these tasks left *)
| AwaitingResponse (task : PageTask.t) (rest : list PageTask.t)
    (* inside [_process_page], suspended on [client.get] *)
| Done.
    (* the loop is left and the client released *)

(** The parser with its workers: the mutable attributes of [self] and the
    state of each coroutine started by [run]. *)
Record state := {
  page_data : PageData.t;
  next_page : Z;
  stop_event : bool;
  workers : list worker_state
}.

(** Lines 127-129 after [_process_page] returned: [break] when the task
    says so, else sleep and go on with the tasks left. *)
Definition after_task (task : PageTask.t) (rest : list PageTask.t)
  : worker_state :=
  if PageTask.no_more_pages task then FetchingTasks else Processing rest.

Definition is_done (ws : worker_state) : bool :=
  match ws with Done => true | _ => false end.

Section Worker.
Context (cfg : Config) (client_get : PageTask.t → fetch_outcome).

(** One atomic step of the worker [worker_id]. *)
Definition worker_step (worker_id : Z) (ws : worker_state)
    (data : PageData.t) (next_page : Z) (stop : bool)
  : worker_state * PageData.t * Z :=
  match ws with
  | FetchingTasks =>
      if stop then (Done, data, next_page)
      else
        let '(tasks, data, next_page) :=
          _get_next_tasks (request cfg) worker_id (chunk_size cfg)
            data next_page in
        match tasks with
        | [] => (IdleBackoff, data, next_page)
        | _ => (Processing tasks, data, next_page)
        end
  | IdleBackoff =>
      if PageData.no_more_pages data
         && bool_decide (PageData.pending_tasks data = [])
      then (Done, data, next_page)
      else (FetchingTasks, data, next_page)   (* sleep(0.5); continue *)
  | Processing [] => (FetchingTasks, data, next_page)
  | Processing (task :: rest) =>
      if stop then (FetchingTasks, data, next_page)   (* break *)
      else if bool_decide
                (PageTask.page_number task ∈ PageData.processed_pages data)
      then (after_task (PageTask.set_processed task) rest, data, next_page)
      else (AwaitingResponse task rest, data, next_page)
  | AwaitingResponse task rest =>
      let '(data, task) :=
        process_response (max_retries cfg) data task (client_get task) in
      (after_task task rest, data, next_page)
  | Done => (Done, data, next_page)
  end.

(** The scheduler resumes worker [w]. *)
Definition step (w : nat) (s : state) : state :=
  match workers s !! w with
  | None => s
  | Some ws =>
      let '(ws, data, np) :=
        worker_step (Z.of_nat w) ws (page_data s) (next_page s)
          (stop_event s) in
      {| page_data := data; next_page := np; stop_event := stop_event s;
         workers := <[w := ws]> (workers s) |}
  end.

(** A schedule is the list of the workers resumed, in order. *)
Fixpoint run_workers (sched : list nat) (s : state) : state :=
  match sched with
  | [] => s
  | w :: sched => run_workers sched (step w s)
  end.

(** [run] starts [num_workers] workers on the frontier it was given. *)
Definition init (data : PageData.t) : state :=
  {| page_data := data; next_page := 0; stop_event := false;
     workers := replicate (Z.to_nat (num_workers cfg)) FetchingTasks |}.

(** [asyncio.wait(workers, return_when=ALL_COMPLETED)] has returned. *)
Definition all_done (s : state) : bool := forallb is_done (workers s).

(** Worker [w] can still move. *)
Definition live (w : nat) (s : state) : bool :=
  match workers s !! w with
  | Some Done | None => false
  | Some _ => true
  end.

(** The [finally] block of [run] once every worker has completed: the
    stop event is set and the number of processed pages is logged. *)
Definition finish (s : state) : state * nat :=
  ({| page_data := page_data s; next_page := next_page s;
      stop_event := true; workers := workers s |},
   size (PageData.processed_pages (page_data s))).

(** *** What a step does, as seen from outside *)

(** The page for which the step of [w] calls [client.get]. *)
Definition fetched (w : nat) (s : state) : option Z :=
  match workers s !! w with
  | Some (Processing (task :: _)) =>
      if stop_event s then None
      else if bool_decide (PageTask.page_number task
                             ∈ PageData.processed_pages (page_data s))
      then None else Some (PageTask.page_number task)
  | _ => None
  end.

(** The page on which the step of [w] calls [processed_pages.add]. *)
Definition added (w : nat) (s : state) : option Z :=
  match workers s !! w with
  | Some (AwaitingResponse task _) =>
      match client_get task with
      | Response status_code (_ :: _) =>
          if bool_decide (status_code ≠ 200) then None
          else Some (PageTask.page_number task)
      | _ => None
      end
  | _ => None
  end.

(** The pages that the step of [w] turns into fresh tasks. *)
Definition allocated (w : nat) (s : state) : list Z :=
  match workers s !! w with
  | Some FetchingTasks =>
      if stop_event s then []
      else
        let '(tasks, pending) :=
          take_pending (Z.of_nat w) (chunk_size cfg) []
            (PageData.pending_tasks (page_data s)) in
        if bool_decide (Z.of_nat (length tasks) < chunk_size cfg)
           && negb (PageData.no_more_pages (page_data s))
        then PageTask.page_number <$>
               (allocate_new (request cfg) (Z.of_nat w)
                  (PageData.processed_pages (page_data s)) (next_page s)
                  (chunk_size cfg - Z.of_nat (length tasks))).1
        else []
  | _ => []
  end.

(** The pages added to [processed_pages] along a schedule, in order. *)
Fixpoint additions (sched : list nat) (s : state) : list Z :=
  match sched with
  | [] => []
  | w :: sched => option_list (added w s) ++ additions sched (step w s)
  end.

(** The pages fetched along a schedule, in order. *)
Fixpoint fetches (sched : list nat) (s : state) : list Z :=
  match sched with
  | [] => []
  | w :: sched => option_list (fetched w s) ++ fetches sched (step w s)
  end.
End Worker.

(** ** Vocabulary of the statements *)

(** The outcomes that [_process_page] treats as a failed attempt. *)
Definition is_failure (r : fetch_outcome) : Prop :=
  match r with
  | Response status_code _ => status_code ≠ 200
  | _ => True
  end.

(** The failed attempts that reach the retry handling: all but an
    exception whose truth value is false (that one returns at once). *)
Definition is_retried_failure (r : fetch_outcome) : Prop :=
  match r with
  | Response status_code _ => status_code ≠ 200
  | OtherException truthy => truthy = true
  | _ => True
  end.

(** The error recorded for a failed attempt. *)
Definition error_of (r : fetch_outcome) : error :=
  match r with
  | Response status_code _ => HttpError status_code
  | ReadError => ReadErrorSeen
  | TimeoutException => TimeoutSeen
  | OtherException _ => Unexpected
  end.


(** The tasks a worker holds: those left in its chunk and the one it is
    fetching. *)
Definition worker_tasks (ws : worker_state) : list PageTask.t :=
  match ws with
  | Processing tasks => tasks
  | AwaitingResponse task rest => task :: rest
  | _ => []
  end.

(** The tasks alive in a state: the pending ones and those held by the
    workers. *)
Definition live_tasks (s : state) : list PageTask.t :=
  PageData.pending_tasks (page_data s) ++ (workers s ≫= worker_tasks).

Definition live_pages (s : state) : list Z :=
  PageTask.page_number <$> live_tasks s.

(** The invariant of every run on a frontier without pending task: no page
    is alive twice, every page alive was reserved from the cursor, and a
    page being fetched is not processed yet. *)
Record one_task_per_page (s : state) : Prop := {
  cursor_nonneg : 0 ≤ next_page s;
  live_NoDup : NoDup (live_pages s);
  live_reserved : ∀ p, p ∈ live_pages s → 1 ≤ p ≤ next_page s;
  awaiting_fresh : ∀ w task rest,
    workers s !! w = Some (AwaitingResponse task rest) →
    PageTask.page_number task ∉ PageData.processed_pages (page_data s)
}.

(** The moves of [worker_step], case by case. *)
Inductive worker_move (cfg : Config) (client_get : PageTask.t → fetch_outcome)
    (w : Z) (data : PageData.t) (np : Z) (stop : bool)
  : worker_state → worker_state → PageData.t → Z → Prop :=
| move_stopped :
    stop = true →
    worker_move cfg client_get w data np stop FetchingTasks Done data np
| move_take (n : nat) (k : Z) taken fresh tasks :
    stop = false →
    taken = PageTask.set_worker_id w <$> take n (PageData.pending_tasks data) →
    fresh = PageTask.new (request cfg) w <$>
              filter (λ page, page ∉ PageData.processed_pages data)
                (reserved np k) →
    tasks = taken ++ fresh →
    0 ≤ k →
    k = 0 ∨ (k = chunk_size cfg - Z.of_nat (length taken)
             ∧ drop n (PageData.pending_tasks data) = []
             ∧ PageData.no_more_pages data = false) →
    (k = 0 → Z.of_nat (length taken) < chunk_size cfg →
       drop n (PageData.pending_tasks data) = []
       ∧ PageData.no_more_pages data = true) →
    worker_move cfg client_get w data np stop FetchingTasks
      (match tasks with [] => IdleBackoff | _ => Processing tasks end)
      (PageData.set_pending_tasks (drop n (PageData.pending_tasks data)) data)
      (np + k)
| move_exit :
    PageData.no_more_pages data = true →
    PageData.pending_tasks data = [] →
    worker_move cfg client_get w data np stop IdleBackoff Done data np
| move_sleep :
    PageData.no_more_pages data = false ∨ PageData.pending_tasks data ≠ [] →
    worker_move cfg client_get w data np stop IdleBackoff FetchingTasks data np
| move_chunk_end :
    worker_move cfg client_get w data np stop (Processing []) FetchingTasks
      data np
| move_break task rest :
    stop = true →
    worker_move cfg client_get w data np stop (Processing (task :: rest))
      FetchingTasks data np
| move_skip task rest :
    stop = false →
    PageTask.page_number task ∈ PageData.processed_pages data →
    worker_move cfg client_get w data np stop (Processing (task :: rest))
      (after_task (PageTask.set_processed task) rest) data np
| move_fetch task rest :
    stop = false →
    PageTask.page_number task ∉ PageData.processed_pages data →
    worker_move cfg client_get w data np stop (Processing (task :: rest))
      (AwaitingResponse task rest) data np
| move_failed task rest task' data' :
    is_failure (client_get task) →
    process_response (max_retries cfg) data task (client_get task)
    = (data', task') →
    data' = data ∨ data' = PageData.append_pending task' data →
    PageTask.page_number task' = PageTask.page_number task →
    PageTask.no_more_pages task' = PageTask.no_more_pages task →
    worker_move cfg client_get w data np stop (AwaitingResponse task rest)
      (after_task task' rest) data' np
| move_empty task rest :
    client_get task = Response 200 [] →
    worker_move cfg client_get w data np stop (AwaitingResponse task rest)
      FetchingTasks (mark_exhausted data task).1 np
| move_record task rest item items :
    client_get task = Response 200 (item :: items) →
    worker_move cfg client_get w data np stop (AwaitingResponse task rest)
      (after_task task rest) (record_result data task (item :: items)).1 np
| move_done :
    worker_move cfg client_get w data np stop Done Done data np.

(** *** Sources that always answer *)

(** A source whose every fetch succeeds: page [p] is answered with status
    200 and the items [items_of p]. *)
Definition source (items_of : Z → list string) (task : PageTask.t)
  : fetch_outcome :=
  Response 200 (items_of (PageTask.page_number task)).

(** A schedule that only resumes workers that can move. *)
Fixpoint busy cfg client_get (sched : list nat) (s : state) : bool :=
  match sched with
  | [] => true
  | w :: sched =>
      live w s && busy cfg client_get sched (step cfg client_get w s)
  end.

(** The run under a scheduler [pick], which names the worker to resume
    from the state it sees, until every worker has completed. *)
Fixpoint run_with cfg client_get (pick : state → nat) (fuel : nat)
    (s : state) : state :=
  match fuel with
  | O => s
  | S fuel =>
      if all_done s then s
      else run_with cfg client_get pick fuel (step cfg client_get (pick s) s)
  end.

(** The scheduler that resumes the first worker not yet done. *)
Fixpoint first_not_done (l : list worker_state) : nat :=
  match l with
  | [] => 0%nat
  | ws :: l => if is_done ws then S (first_not_done l) else 0%nat
  end.

Definition first_live (s : state) : nat := first_not_done (workers s).

(** The invariant of a run on a source that always answers, with no item
    beyond page [K]. *)
Record finite_inv (items_of : Z → list string) (K : Z) (s : state) : Prop := {
  fi_live : one_task_per_page s;
  fi_stop : stop_event s = false;
  fi_pending : PageData.pending_tasks (page_data s) = [];
  fi_processed : ∀ p,
    p ∈ PageData.processed_pages (page_data s) →
    1 ≤ p ≤ next_page s ∧ items_of p ≠ []
    ∧ p ≤ PageData.max_page_found (page_data s);
  fi_max_page : 0 ≤ PageData.max_page_found (page_data s) ≤ K;
  fi_idle : ∀ w,
    workers s !! w = Some IdleBackoff →
    PageData.no_more_pages (page_data s) = true;
  fi_done : ∀ w,
    workers s !! w = Some Done →
    PageData.no_more_pages (page_data s) = true
}.

(** The steps a worker still has to make once [no_more_pages] is up. *)
Definition cost (ws : worker_state) : Z :=
  match ws with
  | Done => 0
  | IdleBackoff => 1
  | FetchingTasks => 2
  | Processing tasks => 2 * Z.of_nat (length tasks) + 3
  | AwaitingResponse _ rest => 2 * Z.of_nat (length rest) + 4
  end.

(** A worker whose next fetch is beyond [K]: that fetch raises
    [no_more_pages]. *)
Definition armed (K : Z) (ws : worker_state) : bool :=
  match ws with
  | Processing (task :: _) | AwaitingResponse task _ =>
      bool_decide (K < PageTask.page_number task)
  | _ => false
  end.

(** The price of one more chunk. *)
Definition weight (cfg : Config) : Z := 2 * chunk_size cfg + 2.

Definition worker_potential cfg (K : Z) (flag : bool) (ws : worker_state) : Z :=
  cost ws + if flag || armed K ws then 0 else weight cfg.

Definition sum_potential cfg (K : Z) (flag : bool) (l : list worker_state) : Z :=
  foldr (λ ws acc, worker_potential cfg K flag ws + acc) 0 l.

(** A bound on the steps left in the run. *)
Definition potential cfg (K : Z) (s : state) : Z :=
  let flag := PageData.no_more_pages (page_data s) in
  sum_potential cfg K flag (workers s)
  + if flag then 0 else weight cfg * Z.max 0 (K - next_page s).

(** The bound at the start of the run. *)
Definition step_bound cfg (K : Z) : Z :=
  Z.of_nat (Z.to_nat (num_workers cfg)) * (2 + weight cfg) + weight cfg * K.

(** The further invariant when the pages [1..K] all have items. *)
Record contiguous_inv (items_of : Z → list string) (K : Z) (s : state)
  : Prop := {
  ci_cover : ∀ p,
    1 ≤ p ≤ K → p ≤ next_page s →
    p ∈ PageData.processed_pages (page_data s)
    ∨ ∃ w ws, workers s !! w = Some ws
              ∧ p ∈ PageTask.page_number <$> worker_tasks ws;
  ci_sorted : ∀ w ws,
    workers s !! w = Some ws →
    StronglySorted Z.lt (PageTask.page_number <$> worker_tasks ws);
  ci_flags : ∀ w ws task,
    workers s !! w = Some ws → task ∈ worker_tasks ws →
    PageTask.no_more_pages task = false;
  ci_cursor : PageData.no_more_pages (page_data s) = true → K < next_page s
}.

(** The download queue on a source that always answers and never repeats
    an item within a page: no repetition, and the items are those of the
    processed pages. *)
Record queue_inv (items_of : Z → list string) (s : state) : Prop := {
  qi_downloaded : PageData.downloaded (page_data s) = ∅;
  qi_NoDup : NoDup (PageData.download_queue (page_data s));
  qi_items : ∀ item,
    item ∈ PageData.download_queue (page_data s)
    ↔ ∃ p, p ∈ PageData.processed_pages (page_data s) ∧ item ∈ items_of p
}.

(** The source of the scenario: pages 1 and 2 with items, nothing after. *)
Definition scenario_items (p : Z) : list string :=
  if bool_decide (p = 1) then ["a"; "b"]
  else if bool_decide (p = 2) then ["b"; "c"]
  else [].

(** *** Tasks in circulation *)

(** What is true of every task alive in a run: it has failed
    [attempt_count] times (below [max_retries] once it has failed), carries
    an error exactly when it has failed, has both flags down and no item,
    and bears the request of the parser. *)
Record task_ok (cfg : Config) (task : PageTask.t) : Prop := {
  ok_attempts : 0 ≤ PageTask.attempt_count task;
  ok_budget : PageTask.attempt_count task = 0
              ∨ PageTask.attempt_count task < max_retries cfg;
  ok_error : PageTask.attempt_count task = 0
             ↔ PageTask.last_error task = None;
  ok_no_more_pages : PageTask.no_more_pages task = false;
  ok_processed : PageTask.processed task = false;
  ok_items : PageTask.items task = [];
  ok_request : PageTask.request task = request cfg
}.

Definition tasks_inv (cfg : Config) (s : state) : Prop :=
  Forall (task_ok cfg) (live_tasks s)
  ∧ Forall (λ task, 1 ≤ PageTask.attempt_count task)
      (PageData.pending_tasks (page_data s)).

(** *** The stop event *)

(** How far a worker is from leaving its loop once the stop event is set,
    in moves of its own. *)
Definition stop_rank (ws : worker_state) : nat :=
  match ws with
  | Done => 0
  | FetchingTasks => 1
  | IdleBackoff | Processing _ => 2
  | AwaitingResponse _ _ => 3
  end.

Definition set_stop_event (stop : bool) (s : state) : state :=
  {| page_data := page_data s; next_page := next_page s; stop_event := stop;
     workers := workers s |}.

(** The step of a worker that is late: it tested the stop event before the
    event was set (line 110 or line 124) and has waited since for the lock
    of the frontier (line 144 or line 177), which another worker holds
    while it sleeps (lines 113-120).  It does what it was about to do when
    the event was down. *)
Definition step_late cfg (client_get : PageTask.t → fetch_outcome)
    (w : nat) (s : state) : state :=
  set_stop_event (stop_event s)
    (step cfg client_get w (set_stop_event false s)).

(** The same with two more moves for a late worker at a test of the
    event. *)
Definition late_rank (ws : worker_state) : nat :=
  match ws with
  | FetchingTasks => 3
  | Processing (_ :: _) => 4
  | _ => stop_rank ws
  end.

(** A run from the moment the stop event is set.  [late] holds the workers
    that are past their test of the event at that moment; the first step
    of each of them is late, and no other step is, since every later test
    finds the event set. *)
Fixpoint run_stopping cfg (client_get : PageTask.t → fetch_outcome)
    (late : gset nat) (sched : list nat) (s : state) : state :=
  match sched with
  | [] => s
  | w :: sched =>
      if decide (w ∈ late)
      then run_stopping cfg client_get (late ∖ {[w]}) sched
             (step_late cfg client_get w s)
      else run_stopping cfg client_get late sched (step cfg client_get w s)
  end.

(** The pages fetched along such a run, in order. *)
Fixpoint fetches_stopping cfg (client_get : PageTask.t → fetch_outcome)
    (late : gset nat) (sched : list nat) (s : state) : list Z :=
  match sched with
  | [] => []
  | w :: sched =>
      if decide (w ∈ late)
      then option_list (fetched w (set_stop_event false s))
           ++ fetches_stopping cfg client_get (late ∖ {[w]}) sched
                (step_late cfg client_get w s)
      else option_list (fetched w s)
           ++ fetches_stopping cfg client_get late sched
                (step cfg client_get w s)
  end.

(** *** The fetches a page has left *)

(** The tasks a worker holds, each with whether it is being fetched. *)
Definition flights (ws : worker_state) : list (PageTask.t * bool) :=
  match ws with
  | Processing tasks => (λ task, (task, false)) <$> tasks
  | AwaitingResponse task rest =>
      (task, true) :: ((λ task, (task, false)) <$> rest)
  | _ => []
  end.

Definition all_flights (s : state) : list (PageTask.t * bool) :=
  ((λ task, (task, false)) <$> PageData.pending_tasks (page_data s))
  ++ (workers s ≫= flights).

(** The limit on the fetches of one page. *)
Definition fetch_limit (cfg : Config) : Z := Z.max 1 (max_retries cfg).

(** The fetches that a task of page [p] can still start: the limit less
    its failed attempts, less the fetch in progress. *)
Definition fetches_left (cfg : Config) (p : Z) (f : PageTask.t * bool) : Z :=
  if bool_decide (PageTask.page_number f.1 = p)
  then fetch_limit cfg - PageTask.attempt_count f.1 - (if f.2 then 1 else 0)
  else 0.

Definition sumZ {A} (f : A → Z) (l : list A) : Z :=
  foldr (λ x acc, f x + acc) 0 l.

(** The fetches that page [p] has left in a state: all of them while the
    page is beyond the cursor, then those of the tasks that bear it. *)
Definition fetch_budget (cfg : Config) (p : Z) (s : state) : Z :=
  (if bool_decide (next_page s < p) then fetch_limit cfg else 0)
  + sumZ (fetches_left cfg p) (all_flights s).

(** ** The orchestrator *)

(** [data.has_error = True] *)
Definition set_has_error (d : PageData.t) : PageData.t :=
  PageData.mk (PageData.pending_tasks d) (PageData.processed_pages d)
    (PageData.download_queue d) (PageData.downloaded d)
    (PageData.max_page_found d) (PageData.no_more_pages d) true.

(** How [await asyncio.wait(workers, return_when=ALL_COMPLETED)] ends in
    [run]: it returns when every worker is done, it raises
    [asyncio.CancelledError] when [run] is cancelled while it waits, and it
    raises [ValueError] at once when [workers] is empty. *)
Inductive wait_outcome := AllCompleted | WaitCancelled | WaitRaised.

(** The [except] clauses and the [finally] block of [run], entered in
    state [s].  When the wait has returned, [pending] is the empty set it
    returned; when it has raised, [pending] is still [set(workers)] and
    every worker not yet done is cancelled, which ends it where it is. *)
Definition run_finally (outcome : wait_outcome) (s : state) : state * nat :=
  let data :=
    match outcome with
    | AllCompleted => page_data s
    | WaitCancelled | WaitRaised => set_has_error (page_data s)
    end in
  let workers :=
    match outcome with
    | AllCompleted => workers s
    | WaitCancelled | WaitRaised => (λ _, Done) <$> workers s
    end in
  ({| page_data := data; next_page := next_page s; stop_event := true;
      workers := workers |},
   size (PageData.processed_pages data)).

(** [run], for the schedule [sched] that the event loop follows while
    [run] waits, cancelled at the end of it or not: the final state and the
    number of processed pages logged.  [None]: the wait has not returned
    yet at the end of [sched]. *)
Definition run cfg (client_get : PageTask.t → fetch_outcome)
    (sched : list nat) (cancelled : bool) (data : PageData.t)
  : option (state * nat) :=
  let s0 := init cfg data in
  if bool_decide (workers s0 = []) then Some (run_finally WaitRaised s0)
  else
    let s := run_workers cfg client_get sched s0 in
    if cancelled then Some (run_finally WaitCancelled s)
    else if all_done s then Some (run_finally AllCompleted s)
    else None.

(** The schedule that a scheduler [pick] makes of a run: the workers it
    resumes, in order, until every worker is done or [fuel] steps are
    made. *)
Fixpoint schedule_of cfg (client_get : PageTask.t → fetch_outcome)
    (pick : state → nat) (fuel : nat) (s : state) : list nat :=
  match fuel with
  | O => []
  | S fuel =>
      if all_done s then []
      else pick s
           :: schedule_of cfg client_get pick fuel
                (step cfg client_get (pick s) s)
  end.

(** ** The address of a page *)

(** The address that [_process_page] fetches for a task: the search
    address or the catalogue address of the request, with the page number
    in decimal. *)
Definition url (task : PageTask.t) : string :=
  let request := PageTask.request task in
  if ParseRequest.is_search request
  then "https://rusneb.ru/search/?q=" +:+ ParseRequest.query request
       +:+ "&PAGEN_1=" +:+ pretty (PageTask.page_number task)
  else "https://rusneb.ru/catalog/" +:+ ParseRequest.query request
       +:+ "/?volumes=page-" +:+ pretty (PageTask.page_number task).

(** ** The items of a page *)

(** [sep in s] *)
Fixpoint contains (sep s : string) : bool :=
  String.prefix sep s
  || match s with
     | EmptyString => false
     | String _ s' => contains sep s'
     end.

(** [s.split(sep)] for a non-empty [sep]: the pieces of [s] between the
    occurrences of [sep], each found from the end of the one before;
    [skip] counts the characters left of the occurrence being passed. *)
Fixpoint split_from (sep : string) (skip : nat) (s : string) : list string :=
  match s with
  | EmptyString => [""]
  | String c s' =>
      match skip with
      | S skip => split_from sep skip s'
      | O =>
          if String.prefix sep s
          then "" :: split_from sep (String.length sep - 1) s'
          else match split_from sep 0 s' with
               | piece :: pieces => String c piece :: pieces
               | [] => [String c ""]
               end
      end
  end.

Definition split (sep s : string) : list string := split_from sep 0 s.

(** What a parser reads of a card selected on the page: the link that
    [select_one] finds in it, if any, with its [href] attribute, if it has
    one. *)
Definition card : Type := option (option string).

(** [link.get("href", "")] *)
Definition get_href (link : option string) : string := default "" link.

(** The loop of [_parse_catalog_page] over the cards selected on the
    page, in document order.  [None]: an index is out of range. *)
Fixpoint _parse_catalog_page (cards : list card) : option (list string) :=
  match cards with
  | [] => Some []
  | None :: cards => _parse_catalog_page cards
  | Some link :: cards =>
      let href := get_href link in
      if bool_decide (href ≠ "") && contains "/catalog/" href
      then
        href ← split "/catalog/" href !! 1%nat;
        items ← _parse_catalog_page cards;
        Some (href :: items)
      else _parse_catalog_page cards
  end.

(** The loop of [_parse_search_page], likewise. *)
Fixpoint _parse_search_page (cards : list card) : option (list string) :=
  match cards with
  | [] => Some []
  | None :: cards => _parse_search_page cards
  | Some link :: cards =>
      let href := get_href link in
      if bool_decide (href ≠ "") && contains "/catalog/" href
      then
        href ← split "/catalog/" href !! 1%nat;
        href ← split "/" href !! 0%nat;
        items ← _parse_search_page cards;
        Some (href :: items)
      else _parse_search_page cards
  end.

(** The reference for both parsers: the [href]s they keep, in document
    order, which are those of the cards with a link whose [href] is not
    empty and holds ["/catalog/"]. *)
Definition kept_hrefs (cards : list card) : list string :=
  filter (λ href, href ≠ "" ∧ contains "/catalog/" href = true)
    (get_href <$> omap id cards).

(** *** One worker *)

(** The reference for a crawl by one worker: the queue once the pages
    [1..n] have been recorded one after the other on a fresh frontier,
    each page adding its items that are not queued yet. *)
Fixpoint sequential_queue (items_of : Z → list string) (n : nat)
  : list string :=
  match n with
  | O => []
  | S n =>
      let queue := sequential_queue items_of n in
      queue ++ filter (λ item, item ∉ queue) (items_of (Z.of_nat (S n)))
  end.

(** What the only worker holds when the pages [1..m] are recorded and the
    cursor is at [np]: the pages [m+1..np], in order. *)
Definition solo_holds (m np : Z) (flag : bool) (ws : worker_state) : Prop :=
  match ws with
  | FetchingTasks => flag = false → m = np
  | IdleBackoff | Done => flag = true
  | Processing _ | AwaitingResponse _ _ =>
      flag = false
      ∧ PageTask.page_number <$> worker_tasks ws = seqZ (m + 1) (np - m)
      ∧ Forall (λ task, PageTask.no_more_pages task = false) (worker_tasks ws)
  end.

(** The invariant of a run with one worker on a source that always
    answers and whose first page without item is [e]. *)
Record solo_inv (items_of : Z → list string) (e : Z) (s : state) : Prop := {
  solo_stop : stop_event s = false;
  solo_pending : PageData.pending_tasks (page_data s) = [];
  solo_downloaded : PageData.downloaded (page_data s) = ∅;
  solo_mark : 0 ≤ PageData.max_page_found (page_data s) < e;
  solo_cursor : PageData.max_page_found (page_data s) ≤ next_page s;
  solo_processed :
    PageData.processed_pages (page_data s)
    = list_to_set (seqZ 1 (PageData.max_page_found (page_data s)));
  solo_queue :
    PageData.download_queue (page_data s)
    = sequential_queue items_of
        (Z.to_nat (PageData.max_page_found (page_data s)));
  solo_flag :
    PageData.no_more_pages (page_data s) = true →
    PageData.max_page_found (page_data s) = e - 1;
  solo_worker : ∃ ws,
    workers s = [ws]
    ∧ solo_holds (PageData.max_page_found (page_data s)) (next_page s)
        (PageData.no_more_pages (page_data s)) ws
}.

(** The source cut after page [e]. *)
Definition cut_after (e : Z) (items_of : Z → list string) (p : Z)
  : list string :=
  if bool_decide (p ≤ e) then items_of p else [].

(** * Properties *)

(** ** The retry handling *)

Lemma retry_spec (max_retries : Z) (e : error) (data : PageData.t)
    (task : PageTask.t) :
  retry max_retries e data task =
    (if bool_decide (PageTask.attempt_count task + 1 < max_retries)
     then PageData.append_pending (PageTask.failed e task) data else data,
     PageTask.failed e task).
Proof. unfold retry; simpl. by case_bool_decide. Qed.

Lemma process_response_retried (max_retries : Z) (data : PageData.t)
    (task : PageTask.t) (r : fetch_outcome) :
  is_retried_failure r →
  process_response max_retries data task r
  = retry max_retries (error_of r) data task.
Proof.
  destruct r as [status_code items| | |[]]; simpl; try done.
  intros Hstatus. by rewrite bool_decide_eq_true_2.
Qed.

Lemma process_response_failure (max_retries : Z) (data : PageData.t)
    (task : PageTask.t) (r : fetch_outcome) :
  is_failure r →
  process_response max_retries data task r
  = retry max_retries (error_of r) data task
  ∨ process_response max_retries data task r = (data, task).
Proof.
  intros Hfail. destruct r as [status_code items| | |[]];
    try (left; by apply process_response_retried); by right.
Qed.

(** C10: a failed attempt (read error, timeout, status other than 200,
    unexpected exception) leaves the frontier as it was, or as it was with
    the failed task appended to [pending_tasks]; [processed_pages],
    [download_queue], [downloaded], [max_page_found] and [no_more_pages]
    keep their values. *)
Theorem failed_attempt_frame (max_retries : Z) (data : PageData.t)
    (task : PageTask.t) (r : fetch_outcome) :
  is_failure r →
  let out := process_response max_retries data task r in
  (out.1 = data ∨ out.1 = PageData.append_pending out.2 data)
  ∧ PageData.processed_pages out.1 = PageData.processed_pages data
  ∧ PageData.download_queue out.1 = PageData.download_queue data
  ∧ PageData.downloaded out.1 = PageData.downloaded data
  ∧ PageData.max_page_found out.1 = PageData.max_page_found data
  ∧ PageData.no_more_pages out.1 = PageData.no_more_pages data.
Proof.
  intros Hfail out. subst out.
  destruct (process_response_failure max_retries data task r Hfail)
    as [-> | ->]; [|by auto 10].
  rewrite retry_spec. case_bool_decide; simpl; auto 10.
Qed.

Lemma failed_attempt_frame_witness :
  let task := PageTask.new (ParseRequest.mk "q" false) 0 4 in
  let out := process_response 3 PageData.fresh task TimeoutException in
  is_failure TimeoutException
  ∧ (out.1 = PageData.fresh ∨ out.1 = PageData.append_pending out.2 PageData.fresh)
  ∧ PageData.processed_pages out.1 = ∅
  ∧ PageData.download_queue out.1 = []
  ∧ PageData.downloaded out.1 = ∅
  ∧ PageData.max_page_found out.1 = 0
  ∧ PageData.no_more_pages out.1 = false.
Proof.
  intros task out. split; [exact I|].
  exact (failed_attempt_frame 3 PageData.fresh task TimeoutException I).
Defined.

(** The same for the step of a worker that receives a failed answer: only
    [pending_tasks] can change, and the cursor stays. *)
Lemma step_failed_attempt cfg client_get (w : nat) (s : state)
    (task : PageTask.t) (rest : list PageTask.t) :
  workers s !! w = Some (AwaitingResponse task rest) →
  is_failure (client_get task) →
  let s' := step cfg client_get w s in
  (page_data s' = page_data s
   ∨ ∃ task', page_data s' = PageData.append_pending task' (page_data s)
              ∧ PageTask.page_number task' = PageTask.page_number task)
  ∧ next_page s' = next_page s.
Proof.
  intros Hw Hfail. unfold step. rewrite Hw. simpl.
  destruct (process_response_failure (max_retries cfg) (page_data s) task
              _ Hfail) as [-> | ->]; [|by auto].
  rewrite retry_spec. case_bool_decide; simpl; eauto.
Qed.

(** ** Status codes *)

(** C7, as the code has it: the answer is a success when its status is
    exactly 200, and then the page is recorded (items) or the end of the
    catalogue is examined (no item); with any other status, the other 2xx
    included, the attempt is counted as failed with an HTTP error and the
    task goes through the retry handling. *)
Theorem status_200_only (max_retries : Z) (data : PageData.t)
    (task : PageTask.t) (status_code : Z) (items : list string) :
  let out := process_response max_retries data task
               (Response status_code items) in
  (status_code = 200 → items ≠ [] →
     out = record_result data task items
     ∧ PageTask.page_number task ∈ PageData.processed_pages out.1
     ∧ PageTask.processed out.2 = true
     ∧ PageTask.attempt_count out.2 = PageTask.attempt_count task)
  ∧ (status_code = 200 → items = [] →
     out = mark_exhausted data task
     ∧ PageTask.attempt_count out.2 = PageTask.attempt_count task)
  ∧ (status_code ≠ 200 →
     out = retry max_retries (HttpError status_code) data task
     ∧ PageTask.attempt_count out.2 = PageTask.attempt_count task + 1
     ∧ PageTask.last_error out.2 = Some (HttpError status_code)
     ∧ PageData.processed_pages out.1 = PageData.processed_pages data
     ∧ PageData.download_queue out.1 = PageData.download_queue data).
Proof.
  simpl. split; [|split].
  - intros -> Hitems. rewrite bool_decide_eq_false_2 by naive_solver.
    destruct items as [|item items]; [done|]. simpl.
    split_and!; [done| set_solver |done|done].
  - intros -> ->. by rewrite bool_decide_eq_false_2 by naive_solver.
  - intros Hstatus. rewrite bool_decide_eq_true_2 by done.
    rewrite retry_spec. case_bool_decide; simpl; auto.
Qed.

(** A 204 answer that carries an item is not recorded: the attempt counts
    as failed and the task is queued again. *)
Lemma status_2xx_not_success :
  let task := PageTask.new (ParseRequest.mk "q" false) 0 1 in
  let out := process_response 3 PageData.fresh task (Response 204 ["x"]) in
  200 ≤ 204 < 300
  ∧ PageData.processed_pages out.1 = ∅
  ∧ PageData.download_queue out.1 = []
  ∧ PageTask.processed out.2 = false
  ∧ PageTask.last_error out.2 = Some (HttpError 204)
  ∧ PageData.pending_tasks out.1 = [out.2].
Proof. simpl. split_and!; (lia || reflexivity). Qed.

(** ** The end of the catalogue *)

(** C9: a page answered with status 200 and no item is dropped: it does not
    enter [processed_pages], the task does not go back to [pending_tasks],
    and the task's own [no_more_pages] is raised whatever
    [max_page_found] is, so that the worker leaves its [for] loop with the
    rest of the chunk unprocessed; the frontier's flag is raised only
    beyond [max_page_found]. *)
Theorem empty_page_dropped cfg client_get (w : nat) (s : state)
    (task : PageTask.t) (rest : list PageTask.t) :
  workers s !! w = Some (AwaitingResponse task rest) →
  client_get task = Response 200 [] →
  let out := process_response (max_retries cfg) (page_data s) task
               (Response 200 []) in
  let s' := step cfg client_get w s in
  PageTask.no_more_pages out.2 = true
  ∧ PageTask.processed out.2 = PageTask.processed task
  ∧ page_data s' = out.1
  ∧ PageData.processed_pages (page_data s')
    = PageData.processed_pages (page_data s)
  ∧ PageData.pending_tasks (page_data s')
    = PageData.pending_tasks (page_data s)
  ∧ PageData.download_queue (page_data s')
    = PageData.download_queue (page_data s)
  ∧ PageData.max_page_found (page_data s')
    = PageData.max_page_found (page_data s)
  ∧ PageData.no_more_pages (page_data s')
    = PageData.no_more_pages (page_data s)
      || bool_decide (PageTask.page_number task
                      > PageData.max_page_found (page_data s))
  ∧ workers s' = <[w := FetchingTasks]> (workers s)
  ∧ next_page s' = next_page s.
Proof.
  intros Hw Hget. unfold step. rewrite Hw. simpl. rewrite Hget. simpl.
  case_bool_decide; simpl; split_and!; try done; by rewrite ?orb_true_r, ?orb_false_r.
Qed.

Lemma empty_page_dropped_witness :
  let cfg := {| request := ParseRequest.mk "q" false; num_workers := 1;
                chunk_size := 3; max_retries := 3 |} in
  let client_get := λ _ : PageTask.t, Response 200 [] in
  let task := PageTask.new (request cfg) 0 2 in
  let rest := [PageTask.new (request cfg) 0 3] in
  let data := PageData.mk [] {[1; 5]} ["a"] ∅ 5 false false in
  let s := {| page_data := data; next_page := 5; stop_event := false;
              workers := [AwaitingResponse task rest] |} in
  let s' := step cfg client_get 0 s in
  PageData.processed_pages (page_data s') = {[1; 5]}
  ∧ PageData.pending_tasks (page_data s') = []
  ∧ PageData.no_more_pages (page_data s') = false
  ∧ workers s' = [FetchingTasks].
Proof.
  intros cfg client_get task rest data s s'.
  destruct (empty_page_dropped cfg client_get 0 s task rest eq_refl eq_refl)
    as (_ & _ & _ & Hproc & Hpend & _ & _ & Hflag & Hws & _).
  split_and!; [exact Hproc | exact Hpend | exact Hflag | exact Hws].
Defined.

Lemma status_200_only_witness :
  let task := PageTask.new (ParseRequest.mk "q" false) 0 1 in
  let out := process_response 3 PageData.fresh task (Response 200 ["x"]) in
  out = record_result PageData.fresh task ["x"]
  ∧ 1 ∈ PageData.processed_pages out.1
  ∧ PageTask.processed out.2 = true
  ∧ PageTask.attempt_count out.2 = 0.
Proof.
  intros task out.
  apply (status_200_only 3 PageData.fresh task 200 ["x"]); [reflexivity|done].
Defined.

(** ** [_get_next_tasks] and the cursor *)

Lemma take_pending_spec (w count : Z) (tasks pending : list PageTask.t) :
  ∃ n : nat,
    take_pending w count tasks pending
    = (tasks ++ (PageTask.set_worker_id w <$> take n pending), drop n pending)
    ∧ (Z.of_nat (length tasks + length (take n pending)) < count →
       drop n pending = []).
Proof.
  revert tasks. induction pending as [|task pending IH]; intros tasks; simpl.
  - exists 0%nat. by rewrite app_nil_r.
  - case_bool_decide as Hlen.
    + destruct (IH (tasks ++ [PageTask.set_worker_id w task])) as (n & -> & Hn).
      exists (S n). simpl. rewrite <- app_assoc. split; [done|].
      intros Hlt. apply Hn. rewrite length_app. simpl. lia.
    + exists 0%nat. simpl. rewrite app_nil_r. split; [done|]. lia.
Qed.

Lemma elem_of_range (start stop p : Z) :
  p ∈ range start stop ↔ start ≤ p < stop.
Proof. unfold range. rewrite elem_of_seqZ. lia. Qed.

Lemma elem_of_reserved (next_page n p : Z) :
  p ∈ reserved next_page n ↔ next_page < p ≤ next_page + n.
Proof. unfold reserved. rewrite elem_of_range. lia. Qed.

Lemma reserved_0 (next_page : Z) : reserved next_page 0 = [].
Proof.
  unfold reserved, range.
  by replace (next_page + 1 + 0 - (next_page + 1)) with 0 by lia.
Qed.

Lemma allocate_new_spec req (w : Z) (processed : gset Z) (next_page n : Z) :
  allocate_new req w processed next_page n
  = (PageTask.new req w <$>
       filter (λ page, page ∉ processed) (reserved next_page n),
     next_page + n).
Proof. unfold allocate_new, reserved. f_equal. lia. Qed.

Lemma allocate_new_pages req (w : Z) (processed : gset Z) (next_page n : Z) :
  PageTask.page_number <$> (allocate_new req w processed next_page n).1
  = filter (λ page, page ∉ processed) (reserved next_page n).
Proof.
  rewrite allocate_new_spec. simpl. rewrite <- list_fmap_compose.
  by rewrite list_fmap_id.
Qed.

(** What [_get_next_tasks] returns: the first [n] pending tasks, relabelled,
    then either nothing more, or the fresh tasks of the [k] pages reserved
    from the cursor, in which case nothing is left pending. *)
Lemma get_next_tasks_spec req (w count : Z) (data : PageData.t) (np : Z) :
  ∃ (n : nat) (k : Z),
    let taken := PageTask.set_worker_id w <$>
                   take n (PageData.pending_tasks data) in
    let left := drop n (PageData.pending_tasks data) in
    _get_next_tasks req w count data np
    = (taken ++ (PageTask.new req w <$>
                   filter (λ page, page ∉ PageData.processed_pages data)
                     (reserved np k)),
       PageData.set_pending_tasks left data, np + k)
    ∧ 0 ≤ k
    ∧ (k = 0 ∨ (k = count - Z.of_nat (length taken) ∧ left = []
                ∧ PageData.no_more_pages data = false))
    ∧ (k = 0 → Z.of_nat (length taken) < count →
       left = [] ∧ PageData.no_more_pages data = true).
Proof.
  unfold _get_next_tasks.
  destruct (take_pending_spec w count [] (PageData.pending_tasks data))
    as (n & -> & Hleft).
  exists n. simpl in *. rewrite length_fmap.
  destruct (bool_decide _) eqn:Hlen; simpl.
  - apply bool_decide_eq_true_1 in Hlen.
    destruct (PageData.no_more_pages data) eqn:Hflag; simpl.
    + exists 0. rewrite reserved_0. simpl. rewrite app_nil_r, Z.add_0_r.
      split_and!; [done|lia|by left|]. intros _ _. split; [|done].
      apply Hleft. lia.
    + exists (count - Z.of_nat (length (take n (PageData.pending_tasks data)))).
      split_and!; [unfold reserved; repeat f_equal; lia|lia| |lia].
      right. split_and!; [done| |done]. apply Hleft. lia.
  - apply bool_decide_eq_false_1 in Hlen. exists 0.
    rewrite reserved_0. simpl. rewrite app_nil_r, Z.add_0_r.
    split_and!; [done|lia|by left|lia].
Qed.

(** The cases of [process_response]. *)
Lemma process_response_cases (max_retries : Z) (data : PageData.t)
    (task : PageTask.t) (r : fetch_outcome) :
  let out := process_response max_retries data task r in
  (is_failure r
   ∧ (out = (data, task)
      ∨ ∃ e, out = (data, PageTask.failed e task)
             ∨ out = (PageData.append_pending (PageTask.failed e task) data,
                      PageTask.failed e task)))
  ∨ (r = Response 200 [] ∧ out = mark_exhausted data task)
  ∨ (∃ item items, r = Response 200 (item :: items)
                   ∧ out = record_result data task (item :: items)).
Proof.
  simpl. destruct r as [status_code items| | |[]]; simpl;
    rewrite ?retry_spec; try (left; split; [done|]);
    try (case_bool_decide; by eauto).
  - case_bool_decide as Hstatus.
    + left. split; [done|]. case_bool_decide; eauto.
    + subst status_code. right.
      destruct items; [by left|right; eauto].
  - by left.
Qed.

(** ** Steps of the run *)

Section Steps.
Context (cfg : Config) (client_get : PageTask.t → fetch_outcome).

Lemma run_workers_app (sched1 sched2 : list nat) (s : state) :
  run_workers cfg client_get (sched1 ++ sched2) s
  = run_workers cfg client_get sched2 (run_workers cfg client_get sched1 s).
Proof. revert s. induction sched1; intros s; simpl; auto. Qed.

Lemma step_stop_event (w : nat) (s : state) :
  stop_event (step cfg client_get w s) = stop_event s.
Proof.
  unfold step. destruct (workers s !! w); [|done].
  by destruct (worker_step _ _ _ _ _ _ _) as [[??]?].
Qed.

Lemma step_workers_length (w : nat) (s : state) :
  length (workers (step cfg client_get w s)) = length (workers s).
Proof.
  unfold step. destruct (workers s !! w); [|done].
  destruct (worker_step _ _ _ _ _ _ _) as [[??]?]. simpl.
  by rewrite length_insert.
Qed.

Lemma worker_step_move (w : Z) (ws : worker_state) (data : PageData.t)
    (np : Z) (stop : bool) :
  ∃ ws' data' np',
    worker_step cfg client_get w ws data np stop = (ws', data', np')
    ∧ worker_move cfg client_get w data np stop ws ws' data' np'.
Proof.
  destruct ws as [| |[|task rest]|task rest|]; simpl.
  - destruct stop eqn:Hstop; [by eauto 10 using worker_move|].
    destruct (get_next_tasks_spec (request cfg) w (chunk_size cfg) data np)
      as (n & k & -> & Hk & Halloc & Hfull).
    eexists _, _, _. split; [|by eapply (move_take _ _ _ _ _ _ n k)].
    by destruct (_ ++ _).
  - destruct (PageData.no_more_pages data) eqn:Hflag; simpl.
    + case_bool_decide; eauto 10 using worker_move.
    + eauto 10 using worker_move.
  - eauto 10 using worker_move.
  - destruct stop eqn:Hstop; [by eauto 10 using worker_move|].
    case_bool_decide; eauto 10 using worker_move.
  - destruct (process_response_cases (max_retries cfg) data task
                (client_get task))
      as [[Hfail Hout]|[[Hget Hout]|(item & items & Hget & Hout)]];
      simpl in Hout.
    + destruct Hout as [Hout|[e [Hout|Hout]]]; rewrite Hout;
        eexists _, _, _; (split; [done|]);
        eapply move_failed; rewrite ?Hout; eauto.
    + rewrite Hout. eexists _, _, _. split; [done|].
      by apply (move_empty cfg client_get w data np stop task rest).
    + rewrite Hout. eexists _, _, _. split; [done|].
      by apply (move_record cfg client_get w data np stop task rest item items).
  - eauto 10 using worker_move.
Qed.

(** A step either finds no worker, or is a move of the worker. *)
Lemma step_move (w : nat) (s : state) :
  (workers s !! w = None ∧ step cfg client_get w s = s)
  ∨ ∃ ws ws' data' np',
      workers s !! w = Some ws
      ∧ worker_move cfg client_get (Z.of_nat w) (page_data s) (next_page s)
          (stop_event s) ws ws' data' np'
      ∧ step cfg client_get w s
        = {| page_data := data'; next_page := np';
             stop_event := stop_event s;
             workers := <[w := ws']> (workers s) |}.
Proof.
  unfold step. destruct (workers s !! w) as [ws|] eqn:Hw; [right|by left].
  destruct (worker_step_move (Z.of_nat w) ws (page_data s) (next_page s)
              (stop_event s)) as (ws' & data' & np' & -> & Hmove).
  eauto 10.
Qed.

(** *** What never goes back *)

Lemma step_no_more_pages (w : nat) (s : state) :
  PageData.no_more_pages (page_data (step cfg client_get w s)) = true
  ↔ PageData.no_more_pages (page_data s) = true
    ∨ ∃ task rest,
        workers s !! w = Some (AwaitingResponse task rest)
        ∧ client_get task = Response 200 []
        ∧ PageTask.page_number task > PageData.max_page_found (page_data s).
Proof.
  destruct (step_move w s)
    as [[Hw ->]|(ws & ws' & data' & np' & Hw & Hmove & ->)]; simpl.
  { split; [auto|]. intros [?|(?&?&?&_)]; [done|congruence]. }
  destruct Hmove as [| | | | | | | |task rest task' data' Hfail _ Hdata| | |];
    simpl; try (split; [auto|]; intros [?|(?&?&?&_)]; [done|congruence]).
  - split.
    + intros Hflag. left. by destruct Hdata as [->| ->].
    + intros [Hflag|(?&?&?&Hget&_)].
      * by destruct Hdata as [->| ->].
      * simplify_eq. by rewrite Hget in Hfail.
  - case_bool_decide as Hpage; simpl.
    + split; [|done]. intros _. right. eauto.
    + split; [auto|]. intros [?|(?&?&?&_&?)]; [done|]. simplify_eq. lia.
  - split; [auto|]. intros [?|(?&?&?&Hget&_)]; [done|]. simplify_eq.
    congruence.
Qed.

Lemma run_no_more_pages (sched : list nat) (s : state) :
  PageData.no_more_pages (page_data s) = true →
  PageData.no_more_pages (page_data (run_workers cfg client_get sched s))
  = true.
Proof.
  revert s. induction sched as [|w sched IH]; intros s Hflag; simpl; [done|].
  apply IH, step_no_more_pages. by left.
Qed.

Lemma step_next_page (w : nat) (s : state) :
  next_page s ≤ next_page (step cfg client_get w s).
Proof.
  destruct (step_move w s)
    as [[Hw ->]|(ws & ws' & data' & np' & Hw & Hmove & ->)]; simpl; [done|].
  destruct Hmove; simpl; lia.
Qed.

Lemma run_next_page (sched : list nat) (s : state) :
  next_page s ≤ next_page (run_workers cfg client_get sched s).
Proof.
  revert s. induction sched as [|w sched IH]; intros s; simpl; [done|].
  etrans; [apply (step_next_page w)|apply IH].
Qed.

Lemma step_processed_pages (w : nat) (s : state) :
  PageData.processed_pages (page_data s)
  ⊆ PageData.processed_pages (page_data (step cfg client_get w s)).
Proof.
  destruct (step_move w s)
    as [[Hw ->]|(ws & ws' & data' & np' & Hw & Hmove & ->)]; simpl; [done|].
  destruct Hmove as [| | | | | | | |task rest task' data' Hfail _ Hdata| | |];
    simpl; try done.
  - by destruct Hdata as [->| ->].
  - by case_bool_decide.
  - set_solver.
Qed.

Lemma step_max_page_found (w : nat) (s : state) :
  PageData.max_page_found (page_data s)
  ≤ PageData.max_page_found (page_data (step cfg client_get w s)).
Proof.
  destruct (step_move w s)
    as [[Hw ->]|(ws & ws' & data' & np' & Hw & Hmove & ->)]; simpl; [done|].
  destruct Hmove as [| | | | | | | |task rest task' data' Hfail _ Hdata| | |];
    simpl; try done.
  - by destruct Hdata as [->| ->].
  - by case_bool_decide.
  - lia.
Qed.
End Steps.

(** C5: the frontier's [no_more_pages] is raised exactly by a page that is
    answered with status 200 and no item while its number is above
    [max_page_found], in [_process_page] and in every step of a run, and
    once raised it stays raised along every schedule. *)
Theorem no_more_pages_exactly cfg client_get :
  (∀ data task r,
     PageData.no_more_pages
       (_process_page (max_retries cfg) data task r).1 = true
     ↔ PageData.no_more_pages data = true
       ∨ ((PageTask.page_number task ∉ PageData.processed_pages data)
          ∧ r = Response 200 []
          ∧ (PageTask.page_number task > PageData.max_page_found data)))
  ∧ (∀ w s,
       PageData.no_more_pages (page_data (step cfg client_get w s)) = true
       ↔ PageData.no_more_pages (page_data s) = true
         ∨ ∃ task rest,
             workers s !! w = Some (AwaitingResponse task rest)
             ∧ client_get task = Response 200 []
             ∧ (PageTask.page_number task
                > PageData.max_page_found (page_data s)))
  ∧ (∀ sched s,
       PageData.no_more_pages (page_data s) = true →
       PageData.no_more_pages
         (page_data (run_workers cfg client_get sched s)) = true).
Proof.
  split_and!; [|apply step_no_more_pages|intros; by apply run_no_more_pages].
  intros data task r. unfold _process_page. case_bool_decide as Hin; simpl.
  { split; [auto|]. by intros [?|[? _]]. }
  destruct (process_response_cases (max_retries cfg) data task r)
    as [[Hfail Hout]|[[-> Hout]|(item & items & -> & Hout)]];
    cbv zeta in Hout.
  - assert (PageData.no_more_pages
              (process_response (max_retries cfg) data task r).1
            = PageData.no_more_pages data) as ->.
    { by destruct Hout as [->|[e [->| ->]]]. }
    split; [auto|]. intros [?|(_ & -> & _)]; done.
  - rewrite Hout. simpl. case_bool_decide; simpl.
    + split; [|done]. intros _. right. eauto.
    + split; [auto|]. intros [?|(_&_&?)]; [done|lia].
  - rewrite Hout. simpl. split; [auto|].
    intros [?|(_ & ? & _)]; done.
Qed.

Lemma no_more_pages_exactly_witness :
  let cfg := {| request := ParseRequest.mk "q" false; num_workers := 1;
                chunk_size := 1; max_retries := 3 |} in
  let client_get := λ _ : PageTask.t, Response 200 [] in
  let s := {| page_data := PageData.mk [] {[1]} ["a"] ∅ 1 true false;
              next_page := 2; stop_event := false;
              workers := [IdleBackoff] |} in
  PageData.no_more_pages (page_data s) = true
  ∧ PageData.no_more_pages
      (page_data (run_workers cfg client_get [0; 0; 0]%nat s)) = true.
Proof.
  intros cfg client_get s. split; [reflexivity|].
  apply (no_more_pages_exactly cfg client_get). reflexivity.
Defined.

(** ** The cursor *)

Section Cursor.
Context (cfg : Config) (client_get : PageTask.t → fetch_outcome).

Lemma pages_of_new req (w : Z) (pages : list Z) :
  PageTask.page_number <$> (PageTask.new req w <$> pages) = pages.
Proof. induction pages as [|page pages IH]; [done|]. by rewrite !fmap_cons, IH. Qed.

Lemma chunk_tasks (tasks : list PageTask.t) :
  worker_tasks (match tasks with [] => IdleBackoff | _ => Processing tasks end)
  = tasks.
Proof. by destruct tasks. Qed.

Lemma step_fetching (w : nat) (s : state) :
  workers s !! w = Some FetchingTasks → stop_event s = false →
  step cfg client_get w s
  = let out := _get_next_tasks (request cfg) (Z.of_nat w) (chunk_size cfg)
                 (page_data s) (next_page s) in
    {| page_data := out.1.2; next_page := out.2; stop_event := false;
       workers := <[w := match out.1.1 with
                         | [] => IdleBackoff
                         | _ => Processing out.1.1
                         end]> (workers s) |}.
Proof.
  intros Hw Hstop. unfold step. rewrite Hw, Hstop. simpl.
  destruct (_get_next_tasks _ _ _ _ _) as [[tasks data] np].
  by destruct tasks.
Qed.

Lemma step_not_fetching (w : nat) (s : state) :
  workers s !! w ≠ Some FetchingTasks ∨ stop_event s = true →
  allocated cfg w s = []
  ∧ next_page (step cfg client_get w s) = next_page s.
Proof.
  intros Hws. unfold allocated, step.
  destruct (workers s !! w) as [[| |[|task rest]|task rest|]|];
    simpl; try done.
  - destruct (stop_event s); [done|]. by destruct Hws.
  - by destruct (_ && _).
  - destruct (stop_event s); [done|]. by case_bool_decide.
  - by destruct (process_response _ _ _ _).
Qed.

(** The step of a worker at the head of its loop, with what it allocates:
    [k] pages are reserved, the cursor moves by [k], and the worker's
    chunk is made of the pending tasks taken and of the fresh tasks. *)
Lemma allocated_spec (w : nat) (s : state) :
  ∃ k : Z,
    0 ≤ k
    ∧ allocated cfg w s
      = filter (λ page, page ∉ PageData.processed_pages (page_data s))
          (reserved (next_page s) k)
    ∧ next_page (step cfg client_get w s) = next_page s + k
    ∧ (workers s !! w = Some FetchingTasks → stop_event s = false →
       ∃ (n : nat) ws',
         workers (step cfg client_get w s) !! w = Some ws'
         ∧ worker_tasks ws'
           = (PageTask.set_worker_id (Z.of_nat w) <$>
                take n (PageData.pending_tasks (page_data s)))
             ++ (PageTask.new (request cfg) (Z.of_nat w) <$>
                   allocated cfg w s)).
Proof.
  assert (workers s !! w ≠ Some FetchingTasks ∨ stop_event s = true
          ∨ (workers s !! w = Some FetchingTasks ∧ stop_event s = false))
    as [Hw|[Hstop|[Hw Hstop]]].
  { destruct (workers s !! w) as [[| | | |]|]; destruct (stop_event s); auto. }
  { exists 0. rewrite reserved_0.
    destruct (step_not_fetching w s) as [-> ->]; [by left|].
    split_and!; [done|done|lia|done]. }
  { exists 0. rewrite reserved_0.
    destruct (step_not_fetching w s) as [-> ->]; [by right|].
    split_and!; [done|done|lia|congruence]. }
  pose proof (lookup_lt_Some _ _ _ Hw) as Hlt.
  rewrite step_fetching by done. cbv zeta.
  unfold allocated, _get_next_tasks. rewrite Hw, Hstop.
  destruct (take_pending_spec (Z.of_nat w) (chunk_size cfg) []
              (PageData.pending_tasks (page_data s))) as (n & -> & _).
  cbn [app PageData.set_pending_tasks PageData.no_more_pages
       PageData.processed_pages].
  destruct (_ && _) eqn:Hguard.
  - apply andb_true_iff in Hguard as [Hlen%bool_decide_eq_true_1 _].
    rewrite allocate_new_spec. cbn [fst snd workers next_page].
    rewrite pages_of_new. eexists. split_and!; [|done|done|].
    + lia.
    + intros _ _. exists n. rewrite list_lookup_insert_eq by done.
      eexists. split; [done|]. by rewrite chunk_tasks.
  - exists 0. rewrite reserved_0. cbn [fst snd workers next_page].
    split_and!; [done|done|lia|].
    intros _ _. exists n. rewrite list_lookup_insert_eq by done.
    eexists. split; [done|]. by rewrite chunk_tasks, app_nil_r.
Qed.

Lemma allocated_range (w : nat) (s : state) (p : Z) :
  p ∈ allocated cfg w s →
  next_page s < p ≤ next_page (step cfg client_get w s)
  ∧ p ∉ PageData.processed_pages (page_data s).
Proof.
  destruct (allocated_spec w s) as (k & _ & -> & -> & _).
  rewrite list_elem_of_filter, elem_of_reserved. tauto.
Qed.
End Cursor.

(** ** The retry budget *)








(** The same count in the worker loop: one worker, chunks of one page, page
    1 always fails with a read error and page 2 is empty.  Page 1 is fetched
    three times with [max_retries = 3] and once with [max_retries = 0], and
    never enters [processed_pages]. *)
Lemma worker_loop_retries :
  let client_get := λ task : PageTask.t,
    if bool_decide (PageTask.page_number task = 1) then ReadError
    else Response 200 [] in
  let cfg3 := {| request := ParseRequest.mk "q" false; num_workers := 1;
                 chunk_size := 1; max_retries := 3 |} in
  let cfg0 := {| request := ParseRequest.mk "q" false; num_workers := 1;
                 chunk_size := 1; max_retries := 0 |} in
  let sched := replicate 24 0%nat in
  fetches cfg3 client_get sched (init cfg3 PageData.fresh) = [1; 1; 1; 2]
  ∧ fetches cfg0 client_get sched (init cfg0 PageData.fresh) = [1; 2]
  ∧ all_done (run_workers cfg3 client_get sched (init cfg3 PageData.fresh))
    = true
  ∧ all_done (run_workers cfg0 client_get sched (init cfg0 PageData.fresh))
    = true
  ∧ page_data (run_workers cfg3 client_get sched (init cfg3 PageData.fresh))
    = PageData.mk [] ∅ [] ∅ 0 true false
  ∧ page_data (run_workers cfg0 client_get sched (init cfg0 PageData.fresh))
    = PageData.mk [] ∅ [] ∅ 0 true false.
Proof. vm_compute. split_and!; reflexivity. Qed.

(** ** One task per page *)

Lemma list_delete_insert_same {A} (l : list A) (i : nat) (x : A) :
  delete i (<[i:=x]> l) = delete i l.
Proof.
  revert i. induction l as [|y l IH]; intros [|i]; simpl; try done.
  by rewrite IH.
Qed.

Lemma NoDup_submseteq_inv {A} (l k : list A) : l ⊆+ k → NoDup k → NoDup l.
Proof.
  intros [k' ->]%submseteq_Permutation Hk. by apply NoDup_app in Hk as [? _].
Qed.

(** The tasks of the other workers do not move when worker [w] does. *)
Lemma worker_tasks_split (l : list worker_state) (w : nat) (ws : worker_state) :
  l !! w = Some ws →
  ∃ others,
    l ≫= worker_tasks ≡ₚ worker_tasks ws ++ others
    ∧ (∀ ws', <[w:=ws']> l ≫= worker_tasks ≡ₚ worker_tasks ws' ++ others)
    ∧ (∀ w' ws' task, w' ≠ w → l !! w' = Some ws' →
         task ∈ worker_tasks ws' → task ∈ others).
Proof.
  intros Hw. exists (delete w l ≫= worker_tasks). split_and!.
  - by rewrite (delete_Permutation l w ws) at 1.
  - intros ws'.
    rewrite (delete_Permutation (<[w:=ws']> l) w ws').
    + by rewrite bind_cons, list_delete_insert_same.
    + apply list_lookup_insert_eq. by eapply lookup_lt_Some.
  - intros w' ws' task Hne Hw' Htask. apply list_elem_of_bind.
    exists ws'. split; [done|]. apply list_elem_of_lookup.
    destruct (decide (w' < w)%nat).
    + exists w'. by rewrite list_lookup_delete_lt.
    + exists (Nat.pred w'). rewrite list_lookup_delete_ge by lia.
      by replace (S (Nat.pred w')) with w' by lia.
Qed.

Lemma after_task_tasks (task : PageTask.t) (rest : list PageTask.t) :
  worker_tasks (after_task task rest) ⊆+ rest.
Proof.
  unfold after_task. destruct (PageTask.no_more_pages task); simpl; [|done].
  apply submseteq_nil_l.
Qed.

Lemma after_task_not_awaiting (task task' : PageTask.t)
    (rest rest' : list PageTask.t) :
  after_task task rest ≠ AwaitingResponse task' rest'.
Proof. unfold after_task. by destruct (PageTask.no_more_pages task). Qed.

Section OneTaskPerPage.
Context (cfg : Config) (client_get : PageTask.t → fetch_outcome).

Lemma init_one_task_per_page (data : PageData.t) :
  PageData.pending_tasks data = [] →
  one_task_per_page (init cfg data).
Proof.
  intros Hpending.
  assert (live_pages (init cfg data) = []) as Hlive.
  { unfold live_pages, live_tasks, init. simpl. rewrite Hpending. simpl.
    induction (Z.to_nat (num_workers cfg)); simpl; done. }
  split.
  - done.
  - rewrite Hlive. constructor.
  - rewrite Hlive. intros p Hp. by apply elem_of_nil in Hp.
  - intros w task rest Hw. simpl in Hw.
    apply lookup_replicate in Hw as [? _]. done.
Qed.

(** A move that creates no task and keeps the cursor. *)
Lemma shrink_one_task_per_page (s : state) (w : nat) (ws ws' : worker_state)
    (data' : PageData.t) :
  one_task_per_page s →
  workers s !! w = Some ws →
  (PageTask.page_number <$>
     (PageData.pending_tasks data' ++ worker_tasks ws'))
  ⊆+ (PageTask.page_number <$>
        (PageData.pending_tasks (page_data s) ++ worker_tasks ws)) →
  PageData.processed_pages data' = PageData.processed_pages (page_data s)
  ∨ (∃ task rest, ws = AwaitingResponse task rest
       ∧ PageData.processed_pages data'
         = {[PageTask.page_number task]}
           ∪ PageData.processed_pages (page_data s)) →
  (∀ task rest, ws' = AwaitingResponse task rest →
     PageTask.page_number task ∉ PageData.processed_pages data') →
  one_task_per_page
    {| page_data := data'; next_page := next_page s;
       stop_event := stop_event s; workers := <[w:=ws']> (workers s) |}.
Proof.
  intros [Hnp Hnodup Hres Hfresh] Hw Hsub Hproc Hnew.
  destruct (worker_tasks_split (workers s) w ws Hw)
    as (others & Hold & Hnew_tasks & Hothers).
  assert (live_pages s
          ≡ₚ (PageTask.page_number <$>
                (PageData.pending_tasks (page_data s) ++ worker_tasks ws))
             ++ (PageTask.page_number <$> others)) as Hlive.
  { unfold live_pages, live_tasks. rewrite Hold.
    by rewrite !fmap_app, (assoc (++)). }
  assert (live_pages
            {| page_data := data'; next_page := next_page s;
               stop_event := stop_event s;
               workers := <[w:=ws']> (workers s) |}
          ⊆+ live_pages s) as Hlive'.
  { rewrite Hlive. unfold live_pages, live_tasks. simpl.
    rewrite Hnew_tasks. rewrite (assoc (++)), (fmap_app _ (_ ++ _)).
    by apply submseteq_skips_r. }
  split; simpl.
  - done.
  - by eapply NoDup_submseteq_inv.
  - intros p Hp. apply Hres. by eapply elem_of_submseteq.
  - intros w' task rest Hw'.
    destruct (decide (w' = w)) as [->|Hne].
    { rewrite list_lookup_insert_eq in Hw' by (by eapply lookup_lt_Some).
      injection Hw' as Hws'. by eapply Hnew. }
    rewrite list_lookup_insert_ne in Hw' by done.
    destruct Hproc as [->|(task0 & rest0 & -> & ->)]; [by eapply Hfresh|].
    apply not_elem_of_union. split; [|by eapply Hfresh].
    rewrite elem_of_singleton. intros Heq.
    rewrite Hlive in Hnodup. apply NoDup_app in Hnodup as (_ & Hdisj & _).
    apply (Hdisj (PageTask.page_number task0)).
    + rewrite fmap_app, elem_of_app. right. simpl. left.
    + rewrite <- Heq. apply list_elem_of_fmap_2.
      eapply (Hothers w'); [done|done|]. simpl. left.
Qed.

Lemma pages_of_taken (w : Z) (tasks : list PageTask.t) :
  PageTask.page_number <$> (PageTask.set_worker_id w <$> tasks)
  = PageTask.page_number <$> tasks.
Proof. by rewrite <- list_fmap_compose. Qed.

(** The move that takes pending tasks and reserves [k] pages. *)
Lemma take_one_task_per_page (s : state) (w : nat) (n : nat) (k : Z)
    (tasks : list PageTask.t) :
  one_task_per_page s →
  workers s !! w = Some FetchingTasks →
  0 ≤ k →
  tasks = (PageTask.set_worker_id (Z.of_nat w) <$>
             take n (PageData.pending_tasks (page_data s)))
          ++ (PageTask.new (request cfg) (Z.of_nat w) <$>
                filter (λ page,
                          page ∉ PageData.processed_pages (page_data s))
                  (reserved (next_page s) k)) →
  one_task_per_page
    {| page_data :=
         PageData.set_pending_tasks
           (drop n (PageData.pending_tasks (page_data s))) (page_data s);
       next_page := next_page s + k; stop_event := stop_event s;
       workers := <[w:=match tasks with
                       | [] => IdleBackoff
                       | _ => Processing tasks
                       end]> (workers s) |}.
Proof.
  intros [Hnp Hnodup Hres Hfresh] Hw Hk ->.
  destruct (worker_tasks_split (workers s) w _ Hw)
    as (others & Hold & Hnew_tasks & Hothers).
  set (fresh := filter _ (reserved (next_page s) k)).
  match goal with |- one_task_per_page ?s1 => set (s' := s1) end.
  assert (live_pages s' ≡ₚ fresh ++ live_pages s) as Hlive.
  { unfold live_pages, live_tasks. subst s'. simpl.
    rewrite Hnew_tasks, Hold, chunk_tasks. simpl.
    rewrite !fmap_app, pages_of_taken, pages_of_new.
    rewrite <- (take_drop n (PageData.pending_tasks (page_data s))) at 3.
    rewrite fmap_app.
    set (a := PageTask.page_number <$> take n _).
    set (b := PageTask.page_number <$> drop n _).
    set (c := PageTask.page_number <$> others).
    solve_Permutation. }
  assert (∀ p, p ∈ fresh → next_page s < p ≤ next_page s + k) as Hrange.
  { intros p [_ Hp]%list_elem_of_filter. by apply elem_of_reserved. }
  split.
  - simpl. lia.
  - rewrite Hlive. apply NoDup_app. split_and!; [|  |done].
    + apply NoDup_filter, NoDup_seqZ.
    + intros p Hp Hp'. apply Hrange in Hp. apply Hres in Hp'. lia.
  - intros p. rewrite Hlive, elem_of_app. simpl.
    intros [Hp%Hrange|Hp%Hres]; lia.
  - intros w' task rest. simpl.
    destruct (decide (w' = w)) as [->|Hne].
    + rewrite list_lookup_insert_eq by (by eapply lookup_lt_Some).
      match goal with
      | |- Some (match ?l with _ => _ end) = _ → _ => by destruct l
      end.
    + rewrite list_lookup_insert_ne by done. apply Hfresh.
Qed.

Lemma step_one_task_per_page (w : nat) (s : state) :
  one_task_per_page s → one_task_per_page (step cfg client_get w s).
Proof.
  intros Hinv.
  destruct (step_move cfg client_get w s)
    as [[Hw ->]|(ws & ws' & data' & np' & Hw & Hmove & ->)]; [done|].
  assert (∀ task rest,
            PageData.pending_tasks (page_data s)
              ++ worker_tasks (after_task task rest)
            ⊆+ PageData.pending_tasks (page_data s) ++ rest) as Hafter.
  { intros. apply submseteq_skips_l, after_task_tasks. }
  destruct Hmove
    as [|n k taken fresh tasks Hstop -> -> -> Hk _ _| | | |task rest|
        task rest|task rest|task rest task' data' Hfail _ Hdata Hpage _|
        task rest|task rest item items|].
  - eapply shrink_one_task_per_page; [done|done|done|by left|done].
  - by eapply take_one_task_per_page.
  - eapply shrink_one_task_per_page; [done|done|done|by left|done].
  - eapply shrink_one_task_per_page; [done|done|done|by left|done].
  - eapply shrink_one_task_per_page; [done|done|done|by left|done].
  - eapply shrink_one_task_per_page; [done|done| |by left|done].
    apply fmap_submseteq, submseteq_skips_l, submseteq_nil_l.
  - eapply shrink_one_task_per_page; [done|done| |by left|].
    + apply fmap_submseteq. etrans; [apply Hafter|].
      by apply submseteq_skips_l, submseteq_cons.
    + intros ?? []%after_task_not_awaiting.
  - eapply shrink_one_task_per_page; [done|done|done|by left|].
    by intros ?? [= <- <-].
  - eapply shrink_one_task_per_page; [done|done| | |].
    + destruct Hdata as [->| ->]; simpl.
      * apply fmap_submseteq. etrans; [apply Hafter|].
        by apply submseteq_skips_l, submseteq_cons.
      * rewrite <- (assoc (++)), !fmap_app. apply submseteq_skips_l. simpl.
        rewrite Hpage. apply submseteq_skip, fmap_submseteq, after_task_tasks.
    + left. by destruct Hdata as [->| ->].
    + intros ?? []%after_task_not_awaiting.
  - assert ((mark_exhausted (page_data s) task).1 = page_data s
            ∨ (mark_exhausted (page_data s) task).1
              = PageData.set_no_more_pages (page_data s)) as Hdata.
    { unfold mark_exhausted. simpl. case_bool_decide; auto. }
    eapply shrink_one_task_per_page; [done|done| | |done].
    + apply fmap_submseteq.
      destruct Hdata as [->| ->]; simpl;
        apply submseteq_skips_l, submseteq_nil_l.
    + left. by destruct Hdata as [->| ->].
  - eapply shrink_one_task_per_page; [done|done| | |].
    + apply fmap_submseteq. simpl. etrans; [apply Hafter|].
      by apply submseteq_skips_l, submseteq_cons.
    + right. eauto.
    + intros ?? []%after_task_not_awaiting.
  - eapply shrink_one_task_per_page; [done|done|done|by left|done].
Qed.

Lemma run_one_task_per_page (sched : list nat) (s : state) :
  one_task_per_page s →
  one_task_per_page (run_workers cfg client_get sched s).
Proof.
  revert s. induction sched as [|w sched IH]; intros s Hinv; simpl; [done|].
  by apply IH, step_one_task_per_page.
Qed.
End OneTaskPerPage.

(** ** Pages are processed once *)

Section ProcessedOnce.
Context (cfg : Config) (client_get : PageTask.t → fetch_outcome).

Lemma process_page_processed (data : PageData.t) (task : PageTask.t)
    (r : fetch_outcome) :
  PageTask.page_number task ∈ PageData.processed_pages data →
  _process_page (max_retries cfg) data task r
  = (data, PageTask.set_processed task).
Proof. intros Hin. unfold _process_page. by rewrite bool_decide_eq_true_2. Qed.

(** What the step of [w] adds to [processed_pages]. *)
Lemma added_spec (w : nat) (s : state) :
  match added client_get w s with
  | Some p =>
      (∃ task rest, workers s !! w = Some (AwaitingResponse task rest)
                    ∧ PageTask.page_number task = p)
      ∧ PageData.processed_pages (page_data (step cfg client_get w s))
        = {[p]} ∪ PageData.processed_pages (page_data s)
  | None =>
      PageData.processed_pages (page_data (step cfg client_get w s))
      = PageData.processed_pages (page_data s)
  end.
Proof.
  unfold added.
  destruct (step_move cfg client_get w s)
    as [[-> ->]|(ws & ws' & data' & np' & -> & Hmove & ->)]; [done|].
  destruct Hmove
    as [| | | | | | | |task rest task' data' Hfail _ Hdata _ _|
        task rest Hget|task rest item items Hget|]; simpl; try done.
  - assert (PageData.processed_pages data'
            = PageData.processed_pages (page_data s)) as ->.
    { by destruct Hdata as [->| ->]. }
    destruct (client_get task) as [status_code [|item items]| | |];
      try done. simpl in Hfail. by rewrite bool_decide_eq_true_2.
  - rewrite Hget. by case_bool_decide.
  - rewrite Hget. rewrite bool_decide_eq_false_2 by naive_solver. eauto.
Qed.

Lemma additions_fresh (sched : list nat) (s : state) :
  one_task_per_page s →
  NoDup (additions cfg client_get sched s)
  ∧ (∀ p, p ∈ additions cfg client_get sched s →
       p ∉ PageData.processed_pages (page_data s))
  ∧ PageData.processed_pages (page_data (run_workers cfg client_get sched s))
    = list_to_set (additions cfg client_get sched s)
      ∪ PageData.processed_pages (page_data s).
Proof.
  revert s. induction sched as [|w sched IH]; intros s Hinv; simpl.
  { split_and!; [constructor|set_solver|set_solver]. }
  destruct (IH (step cfg client_get w s)) as (Hnodup & Hfresh & Hrun).
  { by apply step_one_task_per_page. }
  rewrite Hrun. pose proof (added_spec w s) as Hadded.
  destruct (added client_get w s) as [p|]; simpl.
  - destruct Hadded as [(task & rest & Hw & <-) Hstep].
    rewrite Hstep in Hfresh, Hrun |- *.
    pose proof (awaiting_fresh s Hinv w task rest Hw).
    split_and!; [|set_solver|set_solver].
    apply NoDup_cons. split; [|done]. intros Hin%Hfresh. set_solver.
  - rewrite Hadded in Hfresh |- *. done.
Qed.
End ProcessedOnce.

(** C3: a task whose page is already in [processed_pages] is marked
    processed and nothing else happens: the frontier is untouched, in
    [_process_page] and in the step of the worker; processing again a page
    that was just recorded is therefore a no-op.  Along every schedule of a
    run started without pending task, [processed_pages.add] is called at
    most once per page, for a page that is not in the set, and the set at
    the end is the initial one with the pages added. *)
Theorem processed_once cfg client_get :
  (∀ data task r,
     PageTask.page_number task ∈ PageData.processed_pages data →
     _process_page (max_retries cfg) data task r
     = (data, PageTask.set_processed task))
  ∧ (∀ data task item items r,
       let out := _process_page (max_retries cfg) data task
                    (Response 200 (item :: items)) in
       PageTask.page_number task ∈ PageData.processed_pages out.1
       ∧ PageTask.processed out.2 = true
       ∧ _process_page (max_retries cfg) out.1 out.2 r
         = (out.1, PageTask.set_processed out.2))
  ∧ (∀ w s task rest,
       workers s !! w = Some (Processing (task :: rest)) →
       stop_event s = false →
       PageTask.page_number task
         ∈ PageData.processed_pages (page_data s) →
       step cfg client_get w s
       = {| page_data := page_data s; next_page := next_page s;
            stop_event := stop_event s;
            workers := <[w:=after_task (PageTask.set_processed task) rest]>
                         (workers s) |})
  ∧ (∀ data sched,
       PageData.pending_tasks data = [] →
       let s := init cfg data in
       NoDup (additions cfg client_get sched s)
       ∧ (∀ p, p ∈ additions cfg client_get sched s →
            p ∉ PageData.processed_pages data)
       ∧ PageData.processed_pages
           (page_data (run_workers cfg client_get sched s))
         = list_to_set (additions cfg client_get sched s)
           ∪ PageData.processed_pages data).
Proof.
  split_and!.
  - intros. by apply process_page_processed.
  - intros data task item items r out.
    assert (PageTask.page_number out.2 = PageTask.page_number task
            ∧ PageTask.page_number task ∈ PageData.processed_pages out.1
            ∧ PageTask.processed out.2 = true) as (Hpage & Hin & Hproc).
    { subst out. unfold _process_page. case_bool_decide as Hin; [done|].
      simpl. split_and!; [done|set_solver|done]. }
    split_and!; [done|done|]. apply process_page_processed. by rewrite Hpage.
  - intros w s task rest Hw Hstop Hin. unfold step. rewrite Hw. simpl.
    rewrite Hstop. by rewrite bool_decide_eq_true_2.
  - intros data sched Hpending s.
    by apply additions_fresh, init_one_task_per_page.
Qed.

Lemma processed_once_witness :
  let cfg := {| request := ParseRequest.mk "q" false; num_workers := 2;
                chunk_size := 2; max_retries := 3 |} in
  let data := PageData.mk [] {[1]} ["a"] ∅ 1 false false in
  let task := PageTask.new (request cfg) 0 1 in
  _process_page 3 data task ReadError = (data, PageTask.set_processed task)
  ∧ NoDup (additions cfg (λ _, Response 200 ["b"]) [0; 1; 0; 0; 1; 1]%nat
             (init cfg data)).
Proof.
  intros cfg data task.
  destruct (processed_once cfg (λ _, Response 200 ["b"]))
    as (Hnoop & _ & _ & Hrun).
  split.
  - apply (Hnoop data task ReadError). set_solver.
  - apply (Hrun data [0; 1; 0; 0; 1; 1]%nat eq_refl).
Defined.

(** ** The download queue *)

(** Recording a page whose item list has no repetition keeps
    [download_queue] without repetition and apart from [downloaded]. *)
Lemma record_result_NoDup (data : PageData.t) (task : PageTask.t)
    (items : list string) :
  NoDup items →
  NoDup (PageData.download_queue data) →
  let out := record_result data task items in
  NoDup (PageData.download_queue out.1)
  ∧ (∀ item, item ∈ PageData.download_queue out.1 ↔
       item ∈ PageData.download_queue data
       ∨ (item ∈ items ∧ item ∉ PageData.downloaded data)).
Proof.
  intros Hitems Hqueue. simpl. split.
  - apply NoDup_app. split_and!; [done| |by apply NoDup_filter].
    intros item Hin [[Hout _] _]%list_elem_of_filter. done.
  - intros item. rewrite elem_of_app, list_elem_of_filter.
    destruct (decide (item ∈ PageData.download_queue data)); tauto.
Qed.

(** C2 on the code: a page whose extracted list names the same item twice
    puts it twice into [download_queue]; the items are compared with the
    queue as it was before the page, not with each other. *)
Theorem repeated_item_queued_twice :
  let task := PageTask.new (ParseRequest.mk "q" false) 0 1 in
  let out := _process_page 3 PageData.fresh task
               (Response 200 ["a"; "a"]) in
  PageData.download_queue out.1 = ["a"; "a"]
  ∧ ¬ NoDup (PageData.download_queue out.1)
  ∧ PageData.processed_pages out.1 = {[1]}.
Proof.
  simpl. split_and!; [reflexivity| |reflexivity].
  intros Hnodup. vm_compute in Hnodup.
  apply NoDup_cons in Hnodup as [Hnotin _]. apply Hnotin. left.
Qed.

(** ** Sources that always answer *)

Section FiniteSource.
Context (cfg : Config) (items_of : Z → list string) (K : Z).
Hypothesis chunk_positive : 0 < chunk_size cfg.
Hypothesis K_nonneg : 0 ≤ K.
Hypothesis exhausted : ∀ p, K < p → items_of p = [].

Lemma init_finite_inv : finite_inv items_of K (init cfg PageData.fresh).
Proof.
  split; simpl; try done.
  - by apply init_one_task_per_page.
  - intros w [? _]%lookup_replicate. done.
  - intros w [? _]%lookup_replicate. done.
Qed.

(** The invariant after a move of worker [w] into [ws']. *)
Lemma update_finite_inv (s s' : state) (w : nat) (ws' : worker_state) :
  finite_inv items_of K s →
  one_task_per_page s' →
  stop_event s' = false →
  workers s' = <[w:=ws']> (workers s) →
  PageData.pending_tasks (page_data s') = [] →
  (∀ p, p ∈ PageData.processed_pages (page_data s') →
        1 ≤ p ≤ next_page s' ∧ items_of p ≠ []
        ∧ p ≤ PageData.max_page_found (page_data s')) →
  0 ≤ PageData.max_page_found (page_data s') ≤ K →
  (PageData.no_more_pages (page_data s) = true →
   PageData.no_more_pages (page_data s') = true) →
  (ws' = IdleBackoff ∨ ws' = Done →
   PageData.no_more_pages (page_data s') = true) →
  finite_inv items_of K s'.
Proof.
  intros Hinv Hlive Hstop Hws Hpending Hproc Hmax Hmono Hnew.
  split; try done.
  - intros w' Hw'. rewrite Hws in Hw'.
    apply list_lookup_insert_Some in Hw' as [(_ & -> & _)|[_ Hw']]; [auto|].
    eapply Hmono, fi_idle; eauto.
  - intros w' Hw'. rewrite Hws in Hw'.
    apply list_lookup_insert_Some in Hw' as [(_ & -> & _)|[_ Hw']]; [auto|].
    eapply Hmono, fi_done; eauto.
Qed.

Lemma source_not_failure (task : PageTask.t) :
  ¬ is_failure (source items_of task).
Proof. unfold source. simpl. auto. Qed.

Lemma after_task_not_idle (task : PageTask.t) (rest : list PageTask.t) :
  ¬ (after_task task rest = IdleBackoff ∨ after_task task rest = Done).
Proof. unfold after_task. destruct (PageTask.no_more_pages task); naive_solver. Qed.

Lemma step_finite_inv (w : nat) (s : state) :
  finite_inv items_of K s →
  finite_inv items_of K (step cfg (source items_of) w s).
Proof.
  intros Hinv.
  pose proof (step_one_task_per_page cfg (source items_of) w s
                (fi_live _ _ _ Hinv)) as Hlive'.
  destruct Hinv as [Hlive Hstop Hpending Hproc Hmax Hidle Hdone].
  assert (finite_inv items_of K s) as Hinv by (by split).
  destruct (step_move cfg (source items_of) w s)
    as [[Hw ->]|(ws & ws' & data' & np' & Hw & Hmove & Hstep)]; [done|].
  rewrite Hstep in Hlive' |- *.
  destruct Hmove
    as [Hstop'|n k taken fresh tasks _ -> -> -> Hk Halloc Hfull|Hflag _| |
        |task rest Hstop'|task rest _ Hin|task rest _ Hin|
        task rest task' data' Hfail|task rest Hget|
        task rest item items Hget|];
    try congruence;
    try (by (eapply update_finite_inv; eauto;
             try (by intros []%after_task_not_idle);
             intros [?|?]; done)).
  - (* tasks taken and pages reserved *)
    rewrite Hpending in *. rewrite take_nil, drop_nil in *. simpl in *.
    eapply update_finite_inv; eauto; simpl.
    + intros p [Hp [Hitems Hle]]%Hproc. split_and!; try done; lia.
    + intros Hnew.
      destruct Halloc as [->|(-> & _ & Hflag)].
      { apply Hfull; [done|lia]. }
      exfalso.
      assert (next_page s + 1
              ∈ filter (λ page, page ∉ PageData.processed_pages (page_data s))
                  (reserved (next_page s) (chunk_size cfg - Z.of_nat 0))) as Hfirst.
      { apply list_elem_of_filter. split.
        - intros [Hp _]%Hproc. lia.
        - apply elem_of_reserved. lia. }
      destruct (filter _ _) as [|p fresh]; [by apply elem_of_nil in Hfirst|].
      destruct Hnew as [Hnew|Hnew]; discriminate Hnew.
  - (* an empty page *)
    eapply update_finite_inv; eauto; simpl;
      unfold mark_exhausted; simpl; case_bool_decide; simpl; try done.
    all: intros [?|?]; done.
  - (* a page with items *)
    assert (PageTask.page_number task ≤ K) as HpK.
    { destruct (decide (K < PageTask.page_number task)) as [Hlt|]; [|lia].
      apply exhausted in Hlt. unfold source in Hget. congruence. }
    assert (1 ≤ PageTask.page_number task ≤ next_page s) as Hrange.
    { apply (live_reserved s Hlive). unfold live_pages, live_tasks.
      rewrite fmap_app, elem_of_app. right.
      apply list_elem_of_fmap_2, list_elem_of_bind.
      exists (AwaitingResponse task rest). split; [simpl; left|].
      by eapply list_elem_of_lookup_2. }
    eapply update_finite_inv; eauto; simpl.
    + intros p [->%elem_of_singleton|[Hp [Hitems Hle]]%Hproc]%elem_of_union.
      * split_and!; [lia|lia| |lia]. unfold source in Hget. congruence.
      * split_and!; [lia|lia|done|lia].
    + lia.
    + by intros []%after_task_not_idle.
Qed.

Lemma run_finite_inv (sched : list nat) (s : state) :
  finite_inv items_of K s →
  finite_inv items_of K (run_workers cfg (source items_of) sched s).
Proof.
  revert s. induction sched as [|w sched IH]; intros s Hinv; simpl; [done|].
  by apply IH, step_finite_inv.
Qed.

(** *** The run ends *)

Lemma weight_positive : 0 < weight cfg.
Proof. unfold weight. lia. Qed.

Lemma cost_nonneg (ws : worker_state) : 0 ≤ cost ws.
Proof. destruct ws; simpl; lia. Qed.

Lemma worker_potential_bounds (flag : bool) (ws : worker_state) :
  cost ws ≤ worker_potential cfg K flag ws ≤ cost ws + weight cfg.
Proof.
  pose proof weight_positive. unfold worker_potential.
  destruct (flag || armed K ws); lia.
Qed.

Lemma worker_potential_mono (flag flag' : bool) (ws : worker_state) :
  (flag = true → flag' = true) →
  worker_potential cfg K flag' ws ≤ worker_potential cfg K flag ws.
Proof.
  pose proof weight_positive. unfold worker_potential.
  destruct flag, flag', (armed K ws); simpl; intros Hmono;
    try lia; by specialize (Hmono eq_refl).
Qed.

Lemma sum_potential_nonneg (flag : bool) (l : list worker_state) :
  0 ≤ sum_potential cfg K flag l.
Proof.
  induction l as [|ws l IH]; simpl; [done|].
  pose proof (worker_potential_bounds flag ws).
  pose proof (cost_nonneg ws). lia.
Qed.

Lemma sum_potential_mono (flag flag' : bool) (l : list worker_state) :
  (flag = true → flag' = true) →
  sum_potential cfg K flag' l ≤ sum_potential cfg K flag l.
Proof.
  intros Hmono. induction l as [|ws l IH]; simpl; [done|].
  pose proof (worker_potential_mono flag flag' ws Hmono). lia.
Qed.

Lemma sum_potential_insert (flag flag' : bool) (l : list worker_state)
    (w : nat) (ws ws' : worker_state) :
  (flag = true → flag' = true) →
  l !! w = Some ws →
  sum_potential cfg K flag' (<[w:=ws']> l) + worker_potential cfg K flag ws
  ≤ sum_potential cfg K flag l + worker_potential cfg K flag' ws'.
Proof.
  intros Hmono. revert w. induction l as [|ws0 l IH]; intros [|w] Hw;
    simplify_eq/=.
  - pose proof (sum_potential_mono flag flag' l Hmono). lia.
  - pose proof (worker_potential_mono flag flag' ws0 Hmono).
    specialize (IH w Hw). lia.
Qed.

Lemma potential_nonneg (s : state) : 0 ≤ potential cfg K s.
Proof.
  unfold potential. pose proof weight_positive.
  pose proof (sum_potential_nonneg
                (PageData.no_more_pages (page_data s)) (workers s)).
  destruct (PageData.no_more_pages (page_data s)); nia.
Qed.

(** The potential after a move of worker [w] from [ws] into [ws']. *)
Lemma update_potential (s s' : state) (w : nat) (ws ws' : worker_state) :
  workers s !! w = Some ws →
  workers s' = <[w:=ws']> (workers s) →
  (PageData.no_more_pages (page_data s) = true →
   PageData.no_more_pages (page_data s') = true) →
  (let flag := PageData.no_more_pages (page_data s) in
   let flag' := PageData.no_more_pages (page_data s') in
   worker_potential cfg K flag' ws'
   + (if flag' then 0 else weight cfg * Z.max 0 (K - next_page s')) + 1
   ≤ worker_potential cfg K flag ws
     + (if flag then 0 else weight cfg * Z.max 0 (K - next_page s))) →
  potential cfg K s' + 1 ≤ potential cfg K s.
Proof.
  intros Hw Hws Hmono Hle. unfold potential. rewrite Hws.
  pose proof (sum_potential_insert _ _ _ w ws ws' Hmono Hw). simpl in Hle.
  lia.
Qed.

Lemma cost_after_task (task : PageTask.t) (rest : list PageTask.t) :
  cost (after_task task rest) ≤ 2 * Z.of_nat (length rest) + 3.
Proof. unfold after_task. destruct (PageTask.no_more_pages task); simpl; lia. Qed.

Lemma step_potential (w : nat) (s : state) :
  finite_inv items_of K s →
  live w s = true →
  potential cfg K (step cfg (source items_of) w s) + 1 ≤ potential cfg K s.
Proof.
  intros [Hlive Hstop Hpending Hproc Hmax Hidle Hdone] Hlivew.
  pose proof weight_positive as Hweight.
  destruct (step_move cfg (source items_of) w s)
    as [[Hw ->]|(ws & ws' & data' & np' & Hw & Hmove & ->)].
  { unfold live in Hlivew. by rewrite Hw in Hlivew. }
  assert (∀ task, items_of (PageTask.page_number task) ≠ [] →
                  bool_decide (K < PageTask.page_number task) = false)
    as Hunarmed.
  { intros task Hitems. apply bool_decide_eq_false_2.
    intros Hlt%exhausted. done. }
  destruct Hmove
    as [Hstop'|n k taken fresh tasks _ -> -> -> Hk Halloc Hfull|Hflag _|
        Hsleep| |task rest Hstop'|task rest _ Hin|task rest _ Hin|
        task rest task' data' Hfail|task rest Hget|
        task rest item items Hget|];
    try congruence.
  - (* tasks taken and pages reserved *)
    rewrite Hpending in *. rewrite take_nil, drop_nil in *. simpl in *.
    destruct Halloc as [->|(-> & _ & Hflag)].
    { destruct Hfull as [_ Hflag]; [done|lia|]. rewrite reserved_0.
      eapply update_potential; eauto; simpl. rewrite Hflag.
      unfold worker_potential. simpl. lia. }
    eapply update_potential; eauto; simpl. rewrite Hflag. simpl.
    assert (∃ pages,
              filter (λ page, page ∉ PageData.processed_pages (page_data s))
                (reserved (next_page s) (chunk_size cfg - Z.of_nat 0))
              = (next_page s + 1) :: pages
              ∧ Z.of_nat (length pages) < chunk_size cfg)
      as (pages & -> & Hlen).
    { unfold reserved, range. rewrite seqZ_cons by lia.
      rewrite filter_cons_True by (intros [Hp _]%Hproc; lia).
      eexists. split; [done|].
      eapply Z.le_lt_trans; [apply inj_le, length_filter|].
      rewrite length_seqZ. lia. }
    rewrite fmap_cons. unfold worker_potential, cost, armed.
    rewrite length_cons, length_fmap.
    cbn [PageTask.page_number PageTask.new orb].
    set (X := Z.max 0 (K - (next_page s + (chunk_size cfg - Z.of_nat 0)))).
    set (Y := Z.max 0 (K - next_page s)).
    case_bool_decide.
    + assert (X = 0 ∧ Y = 0) as [-> ->] by lia. unfold weight. lia.
    + assert (X + 1 ≤ Y) by lia. unfold weight in *. nia.
  - (* the worker leaves *)
    eapply update_potential; eauto; simpl. rewrite Hflag.
    unfold worker_potential. simpl. lia.
  - (* no sleep: the flag is up and nothing is pending *)
    destruct Hsleep as [Hflag|?]; [|done].
    rewrite (Hidle w Hw) in Hflag. done.
  - eapply update_potential; eauto; simpl.
    unfold worker_potential. simpl. lia.
  - (* a page already processed *)
    apply Hproc in Hin as (_ & Hitems & _).
    eapply update_potential; eauto; simpl.
    pose proof (worker_potential_bounds
                  (PageData.no_more_pages (page_data s))
                  (after_task (PageTask.set_processed task) rest)).
    pose proof (cost_after_task (PageTask.set_processed task) rest).
    unfold worker_potential in *. simpl. rewrite (Hunarmed task Hitems).
    destruct (PageData.no_more_pages (page_data s)); simpl in *; lia.
  - (* the fetch starts *)
    eapply update_potential; eauto; simpl.
    unfold worker_potential. simpl.
    destruct (_ || _); lia.
  - (* an empty page *)
    eapply update_potential; eauto; unfold mark_exhausted; simpl.
    { case_bool_decide; simpl; done. }
    unfold worker_potential. simpl.
    destruct (PageData.no_more_pages (page_data s)) eqn:Hflag; simpl.
    { case_bool_decide; simpl; rewrite ?Hflag; simpl; lia. }
    destruct (decide (K < PageTask.page_number task)) as [Harmed|Harmed].
    + rewrite (bool_decide_eq_true_2 (K < _)) by done.
      rewrite (bool_decide_eq_true_2 (_ > _)) by lia. simpl. nia.
    + rewrite (bool_decide_eq_false_2 (K < _)) by done.
      case_bool_decide; simpl; rewrite ?Hflag; simpl; nia.
  - (* a page with items *)
    eapply update_potential; eauto; simpl.
    pose proof (worker_potential_bounds
                  (PageData.no_more_pages (page_data s))
                  (after_task task rest)).
    pose proof (cost_after_task task rest).
    unfold worker_potential in *. simpl. rewrite Hunarmed.
    2:{ unfold source in Hget. congruence. }
    destruct (PageData.no_more_pages (page_data s)); simpl in *; lia.
  - unfold live in Hlivew. by rewrite Hw in Hlivew.
Qed.

Lemma busy_potential (sched : list nat) (s : state) :
  finite_inv items_of K s →
  busy cfg (source items_of) sched s = true →
  Z.of_nat (length sched)
  + potential cfg K (run_workers cfg (source items_of) sched s)
  ≤ potential cfg K s.
Proof.
  revert s. induction sched as [|w sched IH]; intros s Hinv Hbusy; simpl.
  { lia. }
  simpl in Hbusy. apply andb_true_iff in Hbusy as [Hlive Hbusy].
  pose proof (step_potential w s Hinv Hlive).
  specialize (IH _ (step_finite_inv w s Hinv) Hbusy). lia.
Qed.

Lemma potential_init :
  potential cfg K (init cfg PageData.fresh) = step_bound cfg K.
Proof.
  unfold potential, step_bound, init. simpl.
  rewrite Z.max_r, Z.sub_0_r by lia. f_equal.
  induction (Z.to_nat (num_workers cfg)) as [|n IH]; simpl; [done|].
  rewrite IH. unfold worker_potential. simpl. lia.
Qed.

Lemma run_with_finite_inv (pick : state → nat) (fuel : nat) (s : state) :
  finite_inv items_of K s →
  finite_inv items_of K (run_with cfg (source items_of) pick fuel s).
Proof.
  revert s. induction fuel as [|fuel IH]; intros s Hinv; simpl; [done|].
  destruct (all_done s); [done|]. by apply IH, step_finite_inv.
Qed.

Lemma run_with_done (pick : state → nat) (fuel : nat) (s : state) :
  (∀ s, all_done s = false → live (pick s) s = true) →
  finite_inv items_of K s →
  potential cfg K s ≤ Z.of_nat fuel →
  all_done (run_with cfg (source items_of) pick fuel s) = true.
Proof.
  intros Hpick. revert s.
  induction fuel as [|fuel IH]; intros s Hinv Hfuel; simpl.
  - destruct (all_done s) eqn:Hdone; [done|].
    pose proof (step_potential _ s Hinv (Hpick s Hdone)).
    pose proof (potential_nonneg (step cfg (source items_of) (pick s) s)).
    lia.
  - destruct (all_done s) eqn:Hdone; [done|].
    apply IH; [by apply step_finite_inv|].
    pose proof (step_potential _ s Hinv (Hpick s Hdone)). lia.
Qed.

(** When every worker is done the flag is up and nothing is pending. *)
Lemma all_done_exhausted (s : state) :
  finite_inv items_of K s →
  all_done s = true →
  workers s ≠ [] →
  PageData.no_more_pages (page_data s) = true
  ∧ PageData.pending_tasks (page_data s) = [].
Proof.
  intros Hinv Hdone Hworkers. split; [|by apply (fi_pending _ _ _ Hinv)].
  destruct (workers s) as [|ws l] eqn:Hws; [done|].
  unfold all_done in Hdone. rewrite Hws in Hdone. simpl in Hdone.
  apply andb_true_iff in Hdone as [Hdone _].
  apply (fi_done _ _ _ Hinv 0%nat). rewrite Hws. simpl.
  by destruct ws.
Qed.
End FiniteSource.

Lemma first_live_live (s : state) :
  all_done s = false → live (first_live s) s = true.
Proof.
  unfold all_done, live, first_live.
  induction (workers s) as [|ws l IH]; simpl; [done|].
  destruct ws; simpl; auto.
Qed.

Lemma step_workers_nonempty cfg client_get (w : nat) (s : state) :
  workers s ≠ [] → workers (step cfg client_get w s) ≠ [].
Proof.
  intros Hne Hnil. apply Hne, nil_length_inv.
  by rewrite <- (step_workers_length cfg client_get w s), Hnil.
Qed.

Lemma run_workers_nonempty cfg client_get (sched : list nat) (s : state) :
  workers s ≠ [] → workers (run_workers cfg client_get sched s) ≠ [].
Proof.
  revert s. induction sched as [|w sched IH]; intros s Hne; simpl; [done|].
  by apply IH, step_workers_nonempty.
Qed.

Lemma run_with_nonempty cfg client_get pick (fuel : nat) (s : state) :
  workers s ≠ [] → workers (run_with cfg client_get pick fuel s) ≠ [].
Proof.
  revert s. induction fuel as [|fuel IH]; intros s Hne; simpl; [done|].
  destruct (all_done s); [done|]. by apply IH, step_workers_nonempty.
Qed.

Lemma init_workers_nonempty cfg (data : PageData.t) :
  0 < num_workers cfg → workers (init cfg data) ≠ [].
Proof.
  intros Hn. simpl. destruct (Z.to_nat (num_workers cfg)) eqn:Hw; [lia|done].
Qed.

(** C6: on a source whose every fetch succeeds and that has no item beyond
    page [K], with a positive chunk size, the run from a fresh frontier
    ends: no schedule that only resumes workers able to move is longer than
    [step_bound], and under every scheduler that resumes such a worker
    while one exists, all workers are done within [step_bound] steps; they
    have then left their loop with [no_more_pages] up and nothing
    pending. *)
Theorem finite_source_terminates cfg (items_of : Z → list string) (K : Z) :
  0 < chunk_size cfg →
  0 ≤ K →
  (∀ p, K < p → items_of p = []) →
  let s0 := init cfg PageData.fresh in
  (∀ sched,
     busy cfg (source items_of) sched s0 = true →
     Z.of_nat (length sched) ≤ step_bound cfg K)
  ∧ (∀ (pick : state → nat) (fuel : nat),
       (∀ s, all_done s = false → live (pick s) s = true) →
       step_bound cfg K ≤ Z.of_nat fuel →
       let s := run_with cfg (source items_of) pick fuel s0 in
       all_done s = true
       ∧ PageData.pending_tasks (page_data s) = []
       ∧ (0 < num_workers cfg →
          PageData.no_more_pages (page_data s) = true))
  ∧ (∀ sched,
       let s := run_workers cfg (source items_of) sched s0 in
       all_done s = true →
       PageData.pending_tasks (page_data s) = []
       ∧ (0 < num_workers cfg →
          PageData.no_more_pages (page_data s) = true)).
Proof.
  intros Hchunk HK Hexhausted s0.
  pose proof (init_finite_inv cfg items_of K HK) as Hinit.
  split_and!.
  - intros sched Hbusy.
    pose proof (busy_potential cfg items_of K Hchunk Hexhausted sched s0
                  Hinit Hbusy) as Hle.
    pose proof (potential_nonneg cfg K Hchunk
                  (run_workers cfg (source items_of) sched s0)).
    rewrite <- (potential_init cfg K HK). subst s0. lia.
  - intros pick fuel Hpick Hfuel s.
    pose proof (run_with_finite_inv cfg items_of K Hchunk Hexhausted pick fuel
                  s0 Hinit) as Hinv.
    assert (all_done s = true) as Hdone.
    { apply (run_with_done cfg items_of K Hchunk Hexhausted); [done|done|].
      subst s0. by rewrite (potential_init cfg K HK). }
    split_and!; [done|by apply (fi_pending _ _ _ Hinv)|].
    intros Hworkers.
    apply (all_done_exhausted items_of K s Hinv Hdone).
    by apply run_with_nonempty, init_workers_nonempty.
  - intros sched s Hdone.
    pose proof (run_finite_inv cfg items_of K Hchunk Hexhausted sched s0 Hinit)
      as Hinv.
    split; [by apply (fi_pending _ _ _ Hinv)|]. intros Hworkers.
    apply (all_done_exhausted items_of K s Hinv Hdone).
    by apply run_workers_nonempty, init_workers_nonempty.
Qed.

Lemma scenario_exhausted (p : Z) : 2 < p → scenario_items p = [].
Proof.
  intros Hp. unfold scenario_items. by rewrite !bool_decide_eq_false_2 by lia.
Qed.

Lemma finite_source_terminates_witness :
  let cfg := {| request := ParseRequest.mk "q" false; num_workers := 2;
                chunk_size := 2; max_retries := 3 |} in
  let s := run_with cfg (source scenario_items) first_live 40
             (init cfg PageData.fresh) in
  all_done s = true
  ∧ PageData.pending_tasks (page_data s) = []
  ∧ PageData.no_more_pages (page_data s) = true.
Proof.
  intros cfg s.
  destruct (finite_source_terminates cfg scenario_items 2)
    as (_ & Hrun & _); [done|done|exact scenario_exhausted|].
  destruct (Hrun first_live 40%nat first_live_live) as (Hdone & Hpend & Hflag).
  { unfold step_bound, weight. simpl. lia. }
  split_and!; [exact Hdone|exact Hpend|by apply Hflag].
Defined.

(** ** Sources whose pages with items come first *)

Lemma StronglySorted_sublist {A} (R : relation A) (l1 l2 : list A) :
  l1 `sublist_of` l2 → StronglySorted R l2 → StronglySorted R l1.
Proof.
  induction 1 as [|x l1 l2 Hsub IH|x l1 l2 Hsub IH];
    intros Hsorted; [done| |].
  - apply StronglySorted_inv in Hsorted as [Hsorted Hall].
    constructor; [by apply IH|]. rewrite Forall_forall in Hall |- *.
    intros y Hy. apply Hall. by eapply elem_of_sublist.
  - apply StronglySorted_inv in Hsorted as [Hsorted _]. by apply IH.
Qed.

Lemma StronglySorted_seqZ (m n : Z) : StronglySorted Z.lt (seqZ m n).
Proof.
  remember (Z.to_nat n) as k eqn:Hk. revert m n Hk.
  induction k as [|k IH]; intros m n Hk.
  - rewrite seqZ_nil by lia. constructor.
  - rewrite seqZ_cons by lia. constructor; [apply IH; lia|].
    apply Forall_forall. intros p Hp%elem_of_seqZ. lia.
Qed.

Section Contiguous.
Context (cfg : Config) (items_of : Z → list string) (K : Z).
Hypothesis chunk_positive : 0 < chunk_size cfg.
Hypothesis K_nonneg : 0 ≤ K.
Hypothesis exhausted : ∀ p, K < p → items_of p = [].
Hypothesis populated : ∀ p, 1 ≤ p ≤ K → items_of p ≠ [].

Lemma init_contiguous_inv :
  contiguous_inv items_of K (init cfg PageData.fresh).
Proof.
  split; simpl; try done.
  - intros p Hp Hp'. lia.
  - intros w ws [-> _]%lookup_replicate. constructor.
  - intros w ws task [-> _]%lookup_replicate Htask.
    by apply elem_of_nil in Htask.
Qed.

(** The invariant after a move of worker [w] from [ws] into [ws']. *)
Lemma update_contiguous_inv (s s' : state) (w : nat)
    (ws ws' : worker_state) :
  contiguous_inv items_of K s →
  workers s !! w = Some ws →
  workers s' = <[w:=ws']> (workers s) →
  next_page s ≤ next_page s' →
  PageData.processed_pages (page_data s)
  ⊆ PageData.processed_pages (page_data s') →
  (∀ p, 1 ≤ p ≤ K →
        p ∈ PageTask.page_number <$> worker_tasks ws
        ∨ next_page s < p ≤ next_page s' →
        p ∈ PageData.processed_pages (page_data s')
        ∨ p ∈ PageTask.page_number <$> worker_tasks ws') →
  StronglySorted Z.lt (PageTask.page_number <$> worker_tasks ws') →
  (∀ task, task ∈ worker_tasks ws' → PageTask.no_more_pages task = false) →
  (PageData.no_more_pages (page_data s') = true → K < next_page s') →
  contiguous_inv items_of K s'.
Proof.
  intros [Hcover Hsorted Hflags Hcursor] Hw Hws Hnp Hproc Hlocal Hsorted'
    Hflags' Hcursor'.
  assert (w < length (workers s))%nat as Hlt by (by eapply lookup_lt_Some).
  split; [|  | |done].
  - intros p Hp Hp'. rewrite Hws.
    destruct (decide (p ≤ next_page s)) as [Hold|Hnew].
    + destruct (Hcover p Hp Hold) as [Hin|(w' & ws0 & Hw' & Hin)].
      { left. set_solver. }
      destruct (decide (w' = w)) as [->|Hne].
      * assert (ws0 = ws) as -> by congruence.
        destruct (Hlocal p Hp) as [?|?]; [by left|by left|].
        right. exists w, ws'. by rewrite list_lookup_insert_eq.
      * right. exists w', ws0. by rewrite list_lookup_insert_ne.
    + destruct (Hlocal p Hp) as [?|?]; [right; lia|by left|].
      right. exists w, ws'. by rewrite list_lookup_insert_eq.
  - intros w' ws0. rewrite Hws.
    intros [(_ & <- & _)|[_ Hw']]%list_lookup_insert_Some; eauto.
  - intros w' ws0 task. rewrite Hws.
    intros [(_ & <- & _)|[_ Hw']]%list_lookup_insert_Some; eauto.
Qed.

(** A move of a worker that holds no task and takes none. *)
Lemma idle_contiguous_inv (s : state) (w : nat) (ws ws' : worker_state) :
  contiguous_inv items_of K s →
  workers s !! w = Some ws →
  worker_tasks ws = [] →
  worker_tasks ws' = [] →
  contiguous_inv items_of K
    {| page_data := page_data s; next_page := next_page s;
       stop_event := stop_event s; workers := <[w:=ws']> (workers s) |}.
Proof.
  intros Hinv Hw Hws Hws'.
  eapply update_contiguous_inv; eauto; simpl; rewrite ?Hws, ?Hws'.
  - lia.
  - intros p _ [[]%elem_of_nil|?]; lia.
  - constructor.
  - by intros task []%elem_of_nil.
  - by apply (ci_cursor _ _ _ Hinv).
Qed.

Lemma step_contiguous_inv (w : nat) (s : state) :
  finite_inv items_of K s →
  contiguous_inv items_of K s →
  contiguous_inv items_of K (step cfg (source items_of) w s).
Proof.
  intros [Hlive Hstop Hpending Hproc Hmax Hidle Hdone] Hinv.
  destruct (step_move cfg (source items_of) w s)
    as [[Hw ->]|(ws & ws' & data' & np' & Hw & Hmove & ->)]; [done|].
  pose proof (ci_sorted _ _ _ Hinv w ws Hw) as Hsorted.
  pose proof (ci_flags _ _ _ Hinv w ws) as Hflags.
  specialize (Hflags) with (1 := Hw).
  assert (∀ task, task ∈ worker_tasks ws →
                  1 ≤ PageTask.page_number task ≤ next_page s) as Hrange.
  { intros task Htask. apply (live_reserved s Hlive).
    unfold live_pages, live_tasks. rewrite fmap_app, elem_of_app. right.
    apply list_elem_of_fmap_2, list_elem_of_bind.
    exists ws. split; [done|]. by eapply list_elem_of_lookup_2. }
  destruct Hmove
    as [Hstop'|n k taken fresh tasks _ -> -> -> Hk Halloc Hfull|Hflag _| |
        |task rest Hstop'|task rest _ Hin|task rest _ Hin|
        task rest task' data' Hfail|task rest Hget|
        task rest item items Hget|];
    try congruence;
    try (by eapply idle_contiguous_inv).
  - (* tasks taken and pages reserved *)
    rewrite Hpending in *. rewrite take_nil, drop_nil in *. simpl in *.
    eapply update_contiguous_inv; [exact Hinv|exact Hw|reflexivity|..]; simpl;
      rewrite ?chunk_tasks, ?pages_of_new.
    + lia.
    + done.
    + intros p Hp [[]%elem_of_nil|Hnew]. right.
      apply list_elem_of_filter. split; [|by apply elem_of_reserved].
      intros [Hp' _]%Hproc. lia.
    + eapply StronglySorted_sublist.
      * apply sublist_filter.
      * apply StronglySorted_seqZ.
    + by intros task (p & -> & _)%list_elem_of_fmap.
    + intros Hflag%(ci_cursor _ _ _ Hinv). lia.
  - (* a page already processed *)
    assert (after_task (PageTask.set_processed task) rest = Processing rest)
      as ->.
    { unfold after_task. simpl. rewrite Hflags; [done|simpl; left]. }
    apply StronglySorted_inv in Hsorted as [Hsorted _].
    eapply update_contiguous_inv; [exact Hinv|exact Hw|reflexivity|..]; simpl.
    + lia.
    + done.
    + intros p _ [[->|Hp]%elem_of_cons|?]; [by left|by right|lia].
    + done.
    + intros task' Htask'. apply Hflags. by right.
    + by apply (ci_cursor _ _ _ Hinv).
  - (* the fetch starts *)
    eapply update_contiguous_inv; [exact Hinv|exact Hw|reflexivity|..]; simpl.
    + lia.
    + done.
    + intros p _ [?|?]; [by right|lia].
    + done.
    + done.
    + by apply (ci_cursor _ _ _ Hinv).
  - (* an empty page: it is beyond [K], and so is the rest of the chunk *)
    assert (K < PageTask.page_number task) as Hbeyond.
    { destruct (decide (K < PageTask.page_number task)) as [|Hle]; [done|].
      exfalso. apply (populated (PageTask.page_number task)).
      - split; [|lia]. apply Hrange. simpl. left.
      - unfold source in Hget. congruence. }
    apply StronglySorted_inv in Hsorted as [_ Hrest].
    eapply update_contiguous_inv; [exact Hinv|exact Hw|reflexivity|..]; simpl.
    + lia.
    + unfold mark_exhausted. simpl. by case_bool_decide.
    + intros p Hp [[->|Hin]%elem_of_cons|?]; [lia| |lia].
      rewrite Forall_forall in Hrest. apply Hrest in Hin. lia.
    + constructor.
    + by intros task' []%elem_of_nil.
    + intros _. specialize (Hrange task (list_elem_of_here _ _)). lia.
  - (* a page with items *)
    assert (after_task task rest = Processing rest) as ->.
    { unfold after_task. rewrite Hflags; [done|simpl; left]. }
    apply StronglySorted_inv in Hsorted as [Hsorted _].
    eapply update_contiguous_inv; [exact Hinv|exact Hw|reflexivity|..]; simpl.
    + lia.
    + set_solver.
    + intros p _ [[->|Hp]%elem_of_cons|?]; [left; set_solver|by right|lia].
    + done.
    + intros task' Htask'. apply Hflags. by right.
    + by apply (ci_cursor _ _ _ Hinv).
Qed.
End Contiguous.

Section Queue.
Context (cfg : Config) (items_of : Z → list string).
Hypothesis items_NoDup : ∀ p, NoDup (items_of p).

Lemma init_queue_inv : queue_inv items_of (init cfg PageData.fresh).
Proof.
  split; simpl; [done|constructor|].
  intros item. split; [by intros []%elem_of_nil|].
  intros (p & []%elem_of_empty & _).
Qed.

Lemma step_queue_inv (w : nat) (s : state) :
  queue_inv items_of s →
  queue_inv items_of (step cfg (source items_of) w s).
Proof.
  intros Hinv.
  destruct (step_move cfg (source items_of) w s)
    as [[Hw ->]|(ws & ws' & data' & np' & Hw & Hmove & ->)]; [done|].
  destruct Hinv as [Hdownloaded Hnodup Hitems].
  destruct Hmove
    as [| | | | | | | |task rest task' data' Hfail|task rest Hget|
        task rest item items Hget|];
    try (by split).
  - split; simpl; unfold mark_exhausted; simpl; by case_bool_decide.
  - assert (item :: items = items_of (PageTask.page_number task)) as Heq.
    { unfold source in Hget. congruence. }
    destruct (record_result_NoDup (page_data s) task (item :: items))
      as [Hnodup' Hitems']; [by rewrite Heq|done|].
    split; [done|done|]. intros x. cbn [page_data]. rewrite Hitems'.
    simpl. rewrite Hitems, Hdownloaded, Heq. split.
    + intros [(p & Hp & Hx)|[Hx _]].
      * exists p. split; [set_solver|done].
      * exists (PageTask.page_number task). split; [set_solver|done].
    + intros (p & [->%elem_of_singleton|Hp]%elem_of_union & Hx).
      * right. split; [done|set_solver].
      * left. eauto.
Qed.
End Queue.

Lemma all_done_lookup (s : state) (w : nat) (ws : worker_state) :
  all_done s = true → workers s !! w = Some ws → ws = Done.
Proof.
  unfold all_done. intros Hdone Hw. rewrite forallb_forall in Hdone.
  assert (is_done ws = true) as Hws.
  { apply Hdone, list_elem_of_In. by eapply list_elem_of_lookup_2. }
  by destruct ws.
Qed.

Section ContiguousEnd.
Context (cfg : Config) (items_of : Z → list string) (K : Z).
Hypothesis chunk_positive : 0 < chunk_size cfg.
Hypothesis workers_positive : 0 < num_workers cfg.
Hypothesis K_nonneg : 0 ≤ K.
Hypothesis exhausted : ∀ p, K < p → items_of p = [].
Hypothesis populated : ∀ p, 1 ≤ p ≤ K → items_of p ≠ [].
Hypothesis items_NoDup : ∀ p, NoDup (items_of p).

Lemma run_contiguous_inv (sched : list nat) (s : state) :
  finite_inv items_of K s ∧ contiguous_inv items_of K s
  ∧ queue_inv items_of s →
  let s' := run_workers cfg (source items_of) sched s in
  finite_inv items_of K s' ∧ contiguous_inv items_of K s'
  ∧ queue_inv items_of s'.
Proof.
  revert s. induction sched as [|w sched IH]; intros s Hinv; simpl; [done|].
  destruct Hinv as (Hfin & Hcont & Hqueue). apply IH. split_and!.
  - by apply step_finite_inv.
  - by apply step_contiguous_inv.
  - by apply step_queue_inv.
Qed.

(** The end of a run on a source whose pages [1..K] have items and whose
    other pages have none. *)
Lemma contiguous_end_state (sched : list nat) :
  let s := run_workers cfg (source items_of) sched
             (init cfg PageData.fresh) in
  all_done s = true →
  (∀ p, p ∈ PageData.processed_pages (page_data s) ↔ 1 ≤ p ≤ K)
  ∧ NoDup (PageData.download_queue (page_data s))
  ∧ (∀ item, item ∈ PageData.download_queue (page_data s)
             ↔ ∃ p, 1 ≤ p ≤ K ∧ item ∈ items_of p)
  ∧ PageData.no_more_pages (page_data s) = true
  ∧ PageData.pending_tasks (page_data s) = []
  ∧ PageData.max_page_found (page_data s) = K.
Proof.
  intros s Hdone.
  destruct (run_contiguous_inv sched (init cfg PageData.fresh))
    as (Hfin & Hcont & Hqueue).
  { split_and!; [by apply init_finite_inv|by apply init_contiguous_inv|
                 by apply init_queue_inv]. }
  fold s in Hfin, Hcont, Hqueue.
  destruct (all_done_exhausted items_of K s Hfin Hdone) as [Hflag Hpending].
  { by apply run_workers_nonempty, init_workers_nonempty. }
  pose proof (ci_cursor _ _ _ Hcont Hflag) as Hcursor.
  assert (∀ p, p ∈ PageData.processed_pages (page_data s) ↔ 1 ≤ p ≤ K)
    as Hprocessed.
  { intros p. split.
    - intros (Hp & Hitems & _)%(fi_processed _ _ _ Hfin).
      destruct (decide (K < p)) as [Hlt%exhausted|]; [done|lia].
    - intros Hp.
      destruct (ci_cover _ _ _ Hcont p Hp) as [?|(w & ws & Hw & Hin)];
        [lia|done|].
      apply (all_done_lookup s w ws Hdone) in Hw as ->.
      by apply elem_of_nil in Hin. }
  split_and!; [done|by apply (qi_NoDup _ _ Hqueue)| |done|done|].
  - intros item. rewrite (qi_items _ _ Hqueue).
    by setoid_rewrite Hprocessed.
  - pose proof (fi_max_page _ _ _ Hfin) as Hmax.
    destruct (decide (K = 0)) as [->|HK]; [lia|].
    assert (K ∈ PageData.processed_pages (page_data s)) as HKin.
    { apply Hprocessed. lia. }
    apply (fi_processed _ _ _ Hfin) in HKin as (_ & _ & Hle). lia.
Qed.
End ContiguousEnd.

Lemma scenario_populated (p : Z) : 1 ≤ p ≤ 2 → scenario_items p ≠ [].
Proof.
  intros Hp. unfold scenario_items. repeat case_bool_decide; try done. lia.
Qed.

Lemma scenario_NoDup (p : Z) : NoDup (scenario_items p).
Proof.
  unfold scenario_items.
  repeat case_bool_decide; repeat constructor; set_solver.
Qed.

(** C1, as the code has it: on the source with items [a, b] on page 1,
    [b, c] on page 2 and none on the later pages, every run from a fresh
    frontier that completes, whatever the number of workers, the chunk size
    and the schedule, ends with [processed_pages = {1, 2}] (the empty page
    3 is not recorded), a [download_queue] that holds a, b and c once each,
    [no_more_pages] up, nothing pending, [max_page_found = 2], and two
    processed pages reported. *)
Theorem scenario_end_state cfg (sched : list nat) :
  0 < chunk_size cfg →
  0 < num_workers cfg →
  let s := run_workers cfg (source scenario_items) sched
             (init cfg PageData.fresh) in
  all_done s = true →
  PageData.processed_pages (page_data s) = {[1; 2]}
  ∧ PageData.download_queue (page_data s) ≡ₚ ["a"; "b"; "c"]
  ∧ PageData.no_more_pages (page_data s) = true
  ∧ PageData.pending_tasks (page_data s) = []
  ∧ PageData.max_page_found (page_data s) = 2
  ∧ (finish s).2 = 2%nat.
Proof.
  intros Hchunk Hworkers s Hdone.
  destruct (contiguous_end_state cfg scenario_items 2 Hchunk Hworkers
              ltac:(done) scenario_exhausted scenario_populated
              scenario_NoDup sched Hdone)
    as (Hprocessed & Hnodup & Hitems & Hflag & Hpending & Hmax).
  fold s in Hprocessed, Hnodup, Hitems, Hflag, Hpending, Hmax.
  assert (PageData.processed_pages (page_data s) = {[1; 2]}) as Hpages.
  { apply set_eq. intros p. rewrite Hprocessed. set_unfold. lia. }
  split_and!; [done|  |done|done|done|].
  2:{ unfold finish. cbn [snd]. rewrite Hpages. reflexivity. }
  - apply NoDup_Permutation; [done| |].
    { repeat constructor; set_solver. }
    intros item. rewrite Hitems. split.
    + intros (p & Hp & Hin).
      assert (p = 1 ∨ p = 2) as [-> | ->] by lia;
        vm_compute in Hin; set_solver.
    + intros Hin.
      assert (item = "a" ∨ item = "b" ∨ item = "c") as [->|[->| ->]]
        by set_solver.
      * exists 1. split; [lia|]. vm_compute. set_solver.
      * exists 1. split; [lia|]. vm_compute. set_solver.
      * exists 2. split; [lia|]. vm_compute. set_solver.
Qed.

Lemma scenario_end_state_witness :
  let cfg := {| request := ParseRequest.mk "q" false; num_workers := 2;
                chunk_size := 2; max_retries := 3 |} in
  let sched := [0; 1; 0; 1; 0; 1; 1; 1; 0; 0; 0; 0; 0; 1; 1]%nat in
  let s := run_workers cfg (source scenario_items) sched
             (init cfg PageData.fresh) in
  all_done s = true
  ∧ PageData.processed_pages (page_data s) = {[1; 2]}
  ∧ PageData.download_queue (page_data s) ≡ₚ ["a"; "b"; "c"]
  ∧ PageData.no_more_pages (page_data s) = true
  ∧ PageData.pending_tasks (page_data s) = []
  ∧ PageData.max_page_found (page_data s) = 2
  ∧ (finish s).2 = 2%nat.
Proof.
  intros cfg sched s.
  assert (all_done s = true) as Hdone by (vm_compute; reflexivity).
  split; [exact Hdone|].
  apply (scenario_end_state cfg sched); [reflexivity|reflexivity|exact Hdone].
Defined.

(** The scenario run by one worker with chunks of one page: the run
    completes, page 3 was fetched and found empty, and it is not in
    [processed_pages]. *)
Lemma scenario_page_3_not_processed :
  let cfg := {| request := ParseRequest.mk "q" false; num_workers := 1;
                chunk_size := 1; max_retries := 3 |} in
  let s := run_workers cfg (source scenario_items) (replicate 13 0%nat)
             (init cfg PageData.fresh) in
  all_done s = true
  ∧ next_page s = 3
  ∧ PageData.no_more_pages (page_data s) = true
  ∧ PageData.download_queue (page_data s) = ["a"; "b"; "c"]
  ∧ (3 ∉ PageData.processed_pages (page_data s))
  ∧ PageData.processed_pages (page_data s) ≠ {[1; 2; 3]}.
Proof.
  intros cfg s.
  assert (all_done s = true ∧ next_page s = 3
          ∧ page_data s
            = PageData.mk [] {[1; 2]} ["a"; "b"; "c"] ∅ 2 true false)
    as (Hdone & Hcursor & Hdata).
  { vm_compute. split_and!; reflexivity. }
  clearbody s. rewrite Hdata. simpl.
  split_and!; [done|done|done|done|set_solver|].
  intros Heq. assert (3 ∈ ({[1; 2]} : gset Z)) as Hin.
  { rewrite Heq. set_solver. }
  set_solver.
Qed.

(** ** What a run never undoes and never touches *)

Section Frame.
Context (cfg : Config) (client_get : PageTask.t → fetch_outcome).

(** The frontier after a move: the queue has grown at its end, and the
    fields the parser only reads are as they were. *)
Lemma move_frame (w : Z) (data data' : PageData.t) (np np' : Z) (stop : bool)
    (ws ws' : worker_state) :
  worker_move cfg client_get w data np stop ws ws' data' np' →
  PageData.download_queue data `prefix_of` PageData.download_queue data'
  ∧ PageData.downloaded data' = PageData.downloaded data
  ∧ PageData.has_error data' = PageData.has_error data
  ∧ (∀ item, item ∈ PageData.download_queue data' →
       item ∈ PageData.download_queue data
       ∨ ((item ∉ PageData.downloaded data)
          ∧ ∃ task rest status_code items,
              ws = AwaitingResponse task rest
              ∧ client_get task = Response status_code items
              ∧ item ∈ items)).
Proof.
  intros Hmove.
  destruct Hmove
    as [| | | | | | | |task rest task' data' Hfail _ Hdata _ _|task rest Hget|
        task rest item items Hget|]; simpl; try (split_and!; by auto).
  - destruct Hdata as [->| ->]; simpl; split_and!; by auto.
  - unfold mark_exhausted; simpl. case_bool_decide; simpl; split_and!; by auto.
  - split_and!; [by apply prefix_app_r|done|done|].
    intros x [?|[[_ ?] Hx]%list_elem_of_filter]%elem_of_app; [by left|].
    right. split; [done|]. eauto 10.
Qed.

Lemma run_download_queue (sched : list nat) (s : state) :
  PageData.download_queue (page_data s)
  `prefix_of`
  PageData.download_queue (page_data (run_workers cfg client_get sched s)).
Proof.
  revert s. induction sched as [|w sched IH]; intros s; simpl; [done|].
  etrans; [|apply IH].
  destruct (step_move cfg client_get w s)
    as [[_ ->]|(ws & ws' & data' & np' & _ & Hmove & ->)]; [done|].
  by apply move_frame in Hmove as [? _].
Qed.

Lemma run_processed_pages (sched : list nat) (s : state) :
  PageData.processed_pages (page_data s)
  ⊆ PageData.processed_pages (page_data (run_workers cfg client_get sched s)).
Proof.
  revert s. induction sched as [|w sched IH]; intros s; simpl; [done|].
  etrans; [apply (step_processed_pages cfg client_get w)|apply IH].
Qed.

Lemma run_max_page_found (sched : list nat) (s : state) :
  PageData.max_page_found (page_data s)
  ≤ PageData.max_page_found (page_data (run_workers cfg client_get sched s)).
Proof.
  revert s. induction sched as [|w sched IH]; intros s; simpl; [done|].
  etrans; [apply (step_max_page_found cfg client_get w)|apply IH].
Qed.

Lemma run_untouched (sched : list nat) (s : state) :
  let s' := run_workers cfg client_get sched s in
  PageData.downloaded (page_data s') = PageData.downloaded (page_data s)
  ∧ PageData.has_error (page_data s') = PageData.has_error (page_data s)
  ∧ stop_event s' = stop_event s
  ∧ length (workers s') = length (workers s).
Proof.
  revert s. induction sched as [|w sched IH]; intros s; simpl; [done|].
  destruct (IH (step cfg client_get w s)) as (-> & -> & -> & ->).
  rewrite step_stop_event, step_workers_length.
  destruct (step_move cfg client_get w s)
    as [[_ ->]|(ws & ws' & data' & np' & _ & Hmove & ->)]; [done|].
  simpl. by apply move_frame in Hmove as (_ & -> & -> & _).
Qed.

Lemma run_queue_not_downloaded (sched : list nat) (s : state) (item : string) :
  item ∈ PageData.download_queue
           (page_data (run_workers cfg client_get sched s)) →
  item ∈ PageData.download_queue (page_data s)
  ∨ item ∉ PageData.downloaded (page_data s).
Proof.
  revert s. induction sched as [|w sched IH]; intros s; simpl; [by left|].
  intros [Hin|Hout]%IH.
  - destruct (step_move cfg client_get w s)
      as [[_ Hs]|(ws & ws' & data' & np' & _ & Hmove & Hs)];
      rewrite Hs in Hin; [by left|].
    apply move_frame in Hmove as (_ & _ & _ & Hnew).
    destruct (Hnew item Hin) as [?|[? _]]; auto.
  - right. destruct (run_untouched [w] s) as [Heq _]. simpl in Heq.
    by rewrite <- Heq.
Qed.

(** When no answer repeats an item, no move repeats one in the queue. *)
Lemma move_queue_NoDup (w : Z) (data data' : PageData.t) (np np' : Z)
    (stop : bool) (ws ws' : worker_state) :
  (∀ task status_code items,
     client_get task = Response status_code items → NoDup items) →
  worker_move cfg client_get w data np stop ws ws' data' np' →
  NoDup (PageData.download_queue data) →
  NoDup (PageData.download_queue data').
Proof.
  intros Hitems Hmove Hnodup.
  destruct Hmove
    as [| | | | | | | |task rest task' data' Hfail _ Hdata _ _|task rest Hget|
        task rest item items Hget|]; simpl; try done.
  - by destruct Hdata as [->| ->].
  - unfold mark_exhausted; simpl. by case_bool_decide.
  - apply (record_result_NoDup data task (item :: items)); [|done].
    by eapply Hitems.
Qed.

Lemma run_queue_NoDup (sched : list nat) (s : state) :
  (∀ task status_code items,
     client_get task = Response status_code items → NoDup items) →
  NoDup (PageData.download_queue (page_data s)) →
  NoDup (PageData.download_queue
           (page_data (run_workers cfg client_get sched s))).
Proof.
  intros Hitems. revert s.
  induction sched as [|w sched IH]; intros s Hnodup; simpl; [done|].
  apply IH.
  destruct (step_move cfg client_get w s)
    as [[_ ->]|(ws & ws' & data' & np' & _ & Hmove & ->)]; [done|].
  by eapply move_queue_NoDup.
Qed.
End Frame.

(** X1: along every schedule, from every state, the frontier only grows: the
    cursor and [max_page_found] never decrease, no page leaves
    [processed_pages], and [download_queue] is only extended at its end. *)
Theorem frontier_only_grows cfg client_get (sched : list nat) (s : state) :
  let s' := run_workers cfg client_get sched s in
  next_page s ≤ next_page s'
  ∧ PageData.max_page_found (page_data s)
    ≤ PageData.max_page_found (page_data s')
  ∧ PageData.processed_pages (page_data s)
    ⊆ PageData.processed_pages (page_data s')
  ∧ PageData.download_queue (page_data s)
    `prefix_of` PageData.download_queue (page_data s').
Proof.
  split_and!.
  - apply run_next_page.
  - apply run_max_page_found.
  - apply run_processed_pages.
  - apply run_download_queue.
Qed.

(** X2: the workers never write [downloaded], [has_error] or the stop event,
    and the pool keeps its size. *)
Theorem workers_leave_untouched cfg client_get (sched : list nat) (s : state) :
  let s' := run_workers cfg client_get sched s in
  PageData.downloaded (page_data s') = PageData.downloaded (page_data s)
  ∧ PageData.has_error (page_data s') = PageData.has_error (page_data s)
  ∧ stop_event s' = stop_event s
  ∧ length (workers s') = length (workers s).
Proof. apply run_untouched. Qed.

(** X3: an item that is already in [downloaded] is never put in the queue:
    whatever is queued at the end of a run was queued at its start or is not
    downloaded. *)
Theorem downloaded_never_queued cfg client_get (sched : list nat) (s : state)
    (item : string) :
  item ∈ PageData.downloaded (page_data s) →
  item ∈ PageData.download_queue
           (page_data (run_workers cfg client_get sched s)) →
  item ∈ PageData.download_queue (page_data s).
Proof.
  intros Hdownloaded Hin.
  by destruct (run_queue_not_downloaded cfg client_get sched s item Hin).
Qed.

Lemma downloaded_never_queued_witness :
  let cfg := {| request := ParseRequest.mk "q" false; num_workers := 1;
                chunk_size := 1; max_retries := 3 |} in
  let client_get := λ task : PageTask.t,
    if bool_decide (PageTask.page_number task = 1)
    then Response 200 ["a"; "b"] else Response 200 [] in
  let s := init cfg (PageData.mk [] ∅ ["b"] {["a"; "b"]} 0 false false) in
  PageData.download_queue
    (page_data (run_workers cfg client_get (replicate 8 0%nat) s)) = ["b"]
  ∧ "b" ∈ PageData.download_queue (page_data s).
Proof.
  intros cfg client_get s.
  assert (PageData.download_queue
            (page_data (run_workers cfg client_get (replicate 8 0%nat) s))
          = ["b"]) as Hqueue by (vm_compute; reflexivity).
  assert (PageData.downloaded (page_data s) = {["a"; "b"]}) as Hdownloaded
    by reflexivity.
  clearbody s. split; [exact Hqueue|].
  apply (downloaded_never_queued cfg client_get (replicate 8 0%nat) s "b").
  - rewrite Hdownloaded. set_solver.
  - rewrite Hqueue. apply list_elem_of_here.
Defined.

(** X4: when no answer names an item twice, a queue without repetition stays
    without repetition along every schedule, failures and retries included. *)
Theorem queue_stays_NoDup cfg client_get (sched : list nat) (s : state) :
  (∀ task status_code items,
     client_get task = Response status_code items → NoDup items) →
  NoDup (PageData.download_queue (page_data s)) →
  NoDup (PageData.download_queue
           (page_data (run_workers cfg client_get sched s))).
Proof. apply run_queue_NoDup. Qed.

Lemma queue_stays_NoDup_witness :
  let cfg := {| request := ParseRequest.mk "q" false; num_workers := 2;
                chunk_size := 2; max_retries := 3 |} in
  NoDup (PageData.download_queue
           (page_data (run_workers cfg (source scenario_items)
                         [0; 1; 0; 1; 0; 1]%nat (init cfg PageData.fresh)))).
Proof.
  intros cfg. apply queue_stays_NoDup.
  - unfold source. intros task status_code items [= _ <-].
    apply scenario_NoDup.
  - apply NoDup_nil_2.
Defined.

(** ** The chunk handed to a worker *)

Lemma take_pending_from (w count : Z) (tasks pending : list PageTask.t) :
  let n := Nat.min (Z.to_nat (count - Z.of_nat (length tasks)))
             (length pending) in
  take_pending w count tasks pending
  = (tasks ++ (PageTask.set_worker_id w <$> take n pending), drop n pending).
Proof.
  revert tasks. induction pending as [|task pending IH]; intros tasks; simpl.
  - rewrite Nat.min_0_r. simpl. by rewrite app_nil_r.
  - case_bool_decide as Hlen.
    + rewrite IH. rewrite length_app. simpl.
      replace (Z.to_nat (count - Z.of_nat (length tasks)))
        with (S (Z.to_nat (count - Z.of_nat (length tasks + 1)))) by lia.
      simpl. by rewrite <- app_assoc.
    + replace (Z.to_nat (count - Z.of_nat (length tasks))) with 0%nat by lia.
      simpl. by rewrite app_nil_r.
Qed.

(** X5: [take_pending] is first in, first out: it removes the first [min count
    (len pending)] tasks, hands them over in their order with the worker's id
    on them and nothing else changed, and leaves the others in their order;
    with [count ≤ 0] it takes nothing. *)
Theorem take_pending_fifo (w count : Z) (pending : list PageTask.t) :
  let n := Nat.min (Z.to_nat count) (length pending) in
  let out := take_pending w count [] pending in
  out = (PageTask.set_worker_id w <$> take n pending, drop n pending)
  ∧ length out.1 = n
  ∧ (PageTask.page_number <$> out.1) ++ (PageTask.page_number <$> out.2)
    = PageTask.page_number <$> pending
  ∧ (PageTask.attempt_count <$> out.1) ++ (PageTask.attempt_count <$> out.2)
    = PageTask.attempt_count <$> pending
  ∧ Forall (λ task, PageTask.worker_id task = w) out.1
  ∧ (count ≤ 0 → out = ([], pending)).
Proof.
  intros n out.
  assert (out = (PageTask.set_worker_id w <$> take n pending, drop n pending))
    as Hout.
  { subst out n. rewrite take_pending_from. simpl.
    by rewrite Z.sub_0_r. }
  rewrite Hout. simpl. split_and!.
  - done.
  - rewrite length_fmap, length_take. lia.
  - rewrite <- list_fmap_compose, <- fmap_app.
    rewrite <- (take_drop n pending) at 3. rewrite !fmap_app. done.
  - rewrite <- list_fmap_compose, <- fmap_app.
    rewrite <- (take_drop n pending) at 3. rewrite !fmap_app. done.
  - apply Forall_fmap, Forall_forall. done.
  - intros Hcount. subst n. by replace (Z.to_nat count) with 0%nat by lia.
Qed.

Lemma set_pending_tasks_same (data : PageData.t) :
  PageData.set_pending_tasks (PageData.pending_tasks data) data = data.
Proof. by destruct data. Qed.

Lemma set_pending_tasks_nil (data : PageData.t) :
  PageData.pending_tasks data = [] → PageData.set_pending_tasks [] data = data.
Proof. intros <-. apply set_pending_tasks_same. Qed.

Lemma filter_all {A} (P : A → Prop) `{∀ x, Decision (P x)} (l : list A) :
  (∀ x, x ∈ l → P x) → filter P l = l.
Proof.
  induction l as [|x l IH]; intros Hall; [done|].
  rewrite filter_cons_True by (apply Hall; left).
  rewrite IH; [done|]. intros y Hy. apply Hall. by right.
Qed.

Lemma get_next_tasks_unfold req (w count : Z) (data : PageData.t) (np : Z) :
  let n := Nat.min (Z.to_nat count) (length (PageData.pending_tasks data)) in
  let taken := PageTask.set_worker_id w <$>
                 take n (PageData.pending_tasks data) in
  let data' := PageData.set_pending_tasks
                 (drop n (PageData.pending_tasks data)) data in
  _get_next_tasks req w count data np
  = if bool_decide (Z.of_nat n < count)
       && negb (PageData.no_more_pages data)
    then (taken ++ (PageTask.new req w <$>
                      filter (λ page, page ∉ PageData.processed_pages data)
                        (reserved np (count - Z.of_nat n))),
          data', np + (count - Z.of_nat n))
    else (taken, data', np).
Proof.
  intros n taken data'. unfold _get_next_tasks.
  rewrite take_pending_from. cbn [length app]. rewrite Z.sub_0_r. fold n.
  assert (length (PageTask.set_worker_id w <$>
                    take n (PageData.pending_tasks data)) = n) as Hlen.
  { rewrite length_fmap, length_take. lia. }
  rewrite Hlen. cbn [PageData.no_more_pages PageData.set_pending_tasks
                     PageData.processed_pages].
  destruct (_ && _); [|done]. by rewrite allocate_new_spec.
Qed.

(** X6: [_get_next_tasks] never hands out more than [count] tasks; pending
    tasks come first and fresh pages are reserved only when no task is left
    pending; with [count ≤ 0], or with [no_more_pages] up and nothing pending,
    it returns no task and changes nothing; with the flag down, nothing
    pending and no processed page beyond the cursor it returns exactly the
    [count] pages that follow the cursor. *)
Theorem chunk_bounds req (w count : Z) (data : PageData.t) (np : Z) :
  let out := _get_next_tasks req w count data np in
  let tasks := out.1.1 in
  let data' := out.1.2 in
  let np' := out.2 in
  (length tasks ≤ Z.to_nat count)%nat
  ∧ (PageData.pending_tasks data' ≠ [] →
     np' = np
     ∧ tasks = PageTask.set_worker_id w <$>
                 take (Z.to_nat count) (PageData.pending_tasks data))
  ∧ (count ≤ 0 → out = ([], data, np))
  ∧ (PageData.no_more_pages data = true →
     PageData.pending_tasks data = [] → out = ([], data, np))
  ∧ (PageData.no_more_pages data = false →
     PageData.pending_tasks data = [] →
     (∀ p, np < p → p ∉ PageData.processed_pages data) →
     PageTask.page_number <$> tasks = seqZ (np + 1) count
     ∧ np' = np + Z.max 0 count).
Proof.
  intros out tasks data' np'. subst tasks data' np' out.
  rewrite get_next_tasks_unfold.
  set (n := Nat.min (Z.to_nat count) (length (PageData.pending_tasks data))).
  assert (length (PageTask.set_worker_id w <$>
                    take n (PageData.pending_tasks data)) = n) as Hlen.
  { rewrite length_fmap, length_take. lia. }
  assert (Z.of_nat n < count → drop n (PageData.pending_tasks data) = [])
    as Hdrop.
  { intros Hlt. apply drop_ge. lia. }
  assert (PageData.pending_tasks data = [] → n = 0%nat) as Hempty.
  { intros Hpending. subst n. rewrite Hpending. simpl. lia. }
  destruct (bool_decide (Z.of_nat n < count)) eqn:Hguard; simpl.
  - apply bool_decide_eq_true_1 in Hguard. specialize (Hdrop Hguard).
    rewrite Hdrop.
    destruct (PageData.no_more_pages data) eqn:Hflag; simpl.
    + split_and!.
      * rewrite Hlen. lia.
      * done.
      * lia.
      * intros _ Hpending. rewrite set_pending_tasks_nil by done.
        by rewrite Hpending, take_nil.
      * done.
    + split_and!; [|done|lia|done|].
      * rewrite length_app, Hlen, length_fmap.
        etrans; [apply Nat.add_le_mono_l, length_filter|].
        unfold reserved, range. rewrite length_seqZ. lia.
      * intros _ Hpending Hfresh. rewrite Hpending, (Hempty Hpending).
        simpl. rewrite pages_of_new. split; [|lia].
        rewrite filter_all.
        -- unfold reserved, range. f_equal. lia.
        -- intros p Hp%elem_of_reserved. apply Hfresh. lia.
  - apply bool_decide_eq_false_1 in Hguard.
    assert (n = Z.to_nat count) as Hn by lia.
    split_and!.
    + rewrite Hlen. lia.
    + intros _. split; [done|]. by rewrite Hn.
    + intros Hcount. assert (n = 0%nat) as Hn0 by lia.
      by rewrite Hn0, take_0, drop_0, set_pending_tasks_same.
    + intros _ Hpending.
      by rewrite (Hempty Hpending), take_0, drop_0, set_pending_tasks_same.
    + intros _ Hpending _. rewrite (Hempty Hpending), take_0.
      rewrite (Hempty Hpending) in Hguard.
      rewrite seqZ_nil by lia. split; [done|lia].
Qed.

(** ** The pages reserved by a step, exactly *)

Section Reserved.
Context (cfg : Config) (client_get : PageTask.t → fetch_outcome).

(** The step of a worker at the head of its loop: it takes the first
    [taken] pending tasks, and when its chunk is not full and
    [no_more_pages] is down it reserves the [k] numbers that are missing. *)
Lemma allocated_exact (w : nat) (s : state) :
  workers s !! w = Some FetchingTasks →
  stop_event s = false →
  let taken := Nat.min (Z.to_nat (chunk_size cfg))
                 (length (PageData.pending_tasks (page_data s))) in
  let k := if bool_decide (Z.of_nat taken < chunk_size cfg)
              && negb (PageData.no_more_pages (page_data s))
           then chunk_size cfg - Z.of_nat taken else 0 in
  allocated cfg w s
  = filter (λ page, page ∉ PageData.processed_pages (page_data s))
      (seqZ (next_page s + 1) k)
  ∧ next_page (step cfg client_get w s) = next_page s + k
  ∧ ∃ ws',
      workers (step cfg client_get w s) !! w = Some ws'
      ∧ worker_tasks ws'
        = (PageTask.set_worker_id (Z.of_nat w) <$>
             take taken (PageData.pending_tasks (page_data s)))
          ++ (PageTask.new (request cfg) (Z.of_nat w) <$> allocated cfg w s).
Proof.
  intros Hw Hstop taken k.
  pose proof (lookup_lt_Some _ _ _ Hw) as Hlt.
  assert (∀ n, reserved (next_page s) n = seqZ (next_page s + 1) n)
    as Hreserved.
  { intros n. unfold reserved, range. f_equal. lia. }
  assert (length (PageTask.set_worker_id (Z.of_nat w) <$>
                    take taken (PageData.pending_tasks (page_data s)))
          = taken) as Hlen.
  { rewrite length_fmap, length_take. lia. }
  rewrite step_fetching by done. cbv zeta.
  rewrite get_next_tasks_unfold. fold taken.
  unfold allocated. rewrite Hw, Hstop, take_pending_from.
  cbn [length app]. rewrite Z.sub_0_r. fold taken. rewrite Hlen.
  subst k. destruct (_ && _).
  - rewrite allocate_new_pages, Hreserved. cbn [fst snd workers next_page].
    split_and!; [done|done|].
    rewrite list_lookup_insert_eq by done. eexists. split; [done|].
    by rewrite chunk_tasks.
  - cbn [fst snd workers next_page]. split_and!; [done|lia|].
    rewrite list_lookup_insert_eq by done. eexists. split; [done|].
    by rewrite chunk_tasks, app_nil_r.
Qed.
End Reserved.

(** C8: the pages turned into fresh tasks by two allocation steps of a run,
    whoever the workers and whatever happens between them, are disjoint.
    A worker at the head of its loop, with the stop event down, takes the
    first [taken] pending tasks; when its chunk is not full and
    [no_more_pages] is down the allocation is made: it reserves the
    [k = chunk_size - taken > 0] numbers that follow the cursor, moves the
    cursor, which then is strictly greater, to the last of them, and makes
    fresh tasks of exactly those not in [processed_pages].  No other step
    moves the cursor, and the cursor never moves back. *)
Theorem allocations_disjoint cfg client_get (w1 w2 : nat) (sched : list nat)
    (s : state) :
  let s1 := step cfg client_get w1 s in
  let s2 := run_workers cfg client_get sched s1 in
  let taken := Nat.min (Z.to_nat (chunk_size cfg))
                 (length (PageData.pending_tasks (page_data s))) in
  let made :=
    match workers s !! w1 with Some FetchingTasks => true | _ => false end
    && negb (stop_event s)
    && bool_decide (Z.of_nat taken < chunk_size cfg)
    && negb (PageData.no_more_pages (page_data s)) in
  let k := if made then chunk_size cfg - Z.of_nat taken else 0 in
  allocated cfg w1 s ## allocated cfg w2 s2
  ∧ NoDup (allocated cfg w1 s)
  ∧ next_page s1 = next_page s + k
  ∧ (made = true → next_page s < next_page s1)
  ∧ next_page s1 ≤ next_page s2
  ∧ allocated cfg w1 s
    = filter (λ page, page ∉ PageData.processed_pages (page_data s))
        (seqZ (next_page s + 1) k)
  ∧ (∀ p, p ∈ allocated cfg w1 s
          ↔ next_page s < p ≤ next_page s1
            ∧ p ∉ PageData.processed_pages (page_data s))
  ∧ (workers s !! w1 = Some FetchingTasks → stop_event s = false →
     ∃ ws',
       workers s1 !! w1 = Some ws'
       ∧ worker_tasks ws'
         = (PageTask.set_worker_id (Z.of_nat w1) <$>
              take taken (PageData.pending_tasks (page_data s)))
           ++ (PageTask.new (request cfg) (Z.of_nat w1) <$>
                 allocated cfg w1 s))
  ∧ (∀ req (w : Z) (processed : gset Z) (np n : Z),
       allocate_new req w processed np n
       = (PageTask.new req w <$>
            filter (λ page, page ∉ processed) (seqZ (np + 1) n),
          np + n)).
Proof.
  intros s1 s2 taken made k.
  assert (allocated cfg w1 s
          = filter (λ page, page ∉ PageData.processed_pages (page_data s))
              (seqZ (next_page s + 1) k)
          ∧ next_page s1 = next_page s + k
          ∧ 0 ≤ k ∧ (made = true → 0 < k)) as (Hpages & Hcursor & Hk & Hmade).
  { subst k made s1.
    assert (workers s !! w1 = Some FetchingTasks
            ∨ workers s !! w1 ≠ Some FetchingTasks) as [Hw|Hw].
    { destruct (workers s !! w1) as [[| | | |]|]; auto. }
    - destruct (stop_event s) eqn:Hstop.
      + destruct (step_not_fetching cfg client_get w1 s) as [-> ->];
          [by right|].
        rewrite andb_false_r. simpl. split_and!; [done|lia|done|done].
      + destruct (allocated_exact cfg client_get w1 s Hw Hstop)
          as (-> & -> & _).
        rewrite Hw. simpl. fold taken.
        destruct (bool_decide (Z.of_nat taken < chunk_size cfg)) eqn:Hlt;
          simpl; [|split_and!; [done|done|done|done]].
        apply bool_decide_eq_true_1 in Hlt.
        destruct (PageData.no_more_pages (page_data s)); simpl;
          split_and!; try done; lia.
    - destruct (step_not_fetching cfg client_get w1 s) as [-> ->];
        [by left|].
      assert (match workers s !! w1 with
              | Some FetchingTasks => true
              | _ => false
              end = false) as ->
        by (destruct (workers s !! w1) as [[| | | |]|]; done).
      simpl. split_and!; [done|lia|done|done]. }
  assert (∀ p, p ∈ allocated cfg w1 s
               ↔ next_page s < p ≤ next_page s1
                 ∧ p ∉ PageData.processed_pages (page_data s)) as Hmem.
  { intros p. rewrite Hpages, Hcursor, list_elem_of_filter, elem_of_seqZ.
    split; [intros [? ?]|intros [? ?]]; (split; [lia||done|lia||done]). }
  split_and!.
  - intros p Hp1 Hp2. apply Hmem in Hp1 as [[_ Hp1] _].
    apply (allocated_range cfg client_get) in Hp2 as [[Hp2 _] _].
    pose proof (run_next_page cfg client_get sched s1). subst s2. lia.
  - rewrite Hpages. apply NoDup_filter, NoDup_seqZ.
  - done.
  - intros Hyes. specialize (Hmade Hyes). lia.
  - apply run_next_page.
  - done.
  - done.
  - intros Hw Hstop.
    by destruct (allocated_exact cfg client_get w1 s Hw Hstop) as (_ & _ & ?).
  - intros req w processed np n. unfold allocate_new, range.
    f_equal; [|lia]. do 3 f_equal. lia.
Qed.

Lemma allocations_disjoint_witness :
  let cfg := {| request := ParseRequest.mk "q" false; num_workers := 2;
                chunk_size := 2; max_retries := 3 |} in
  let s := init cfg PageData.fresh in
  let s1 := step cfg (source scenario_items) 0 s in
  allocated cfg 0 s = [1; 2]
  ∧ allocated cfg 1 s1 = [3; 4]
  ∧ next_page s1 = 2
  ∧ allocated cfg 0 s ## allocated cfg 1 s1.
Proof.
  intros cfg s s1.
  destruct (allocations_disjoint cfg (source scenario_items) 0 1 [] s)
    as (Hdisjoint & _ & Hcursor & _).
  split_and!; [reflexivity|reflexivity|exact Hcursor|exact Hdisjoint].
Defined.

(** ** Tasks in circulation *)

(** The lists held by the other workers do not move when worker [w] does,
    whatever is listed. *)
Lemma bind_insert_split {A} (f : worker_state → list A)
    (l : list worker_state) (w : nat) (ws : worker_state) :
  l !! w = Some ws →
  l ≫= f ≡ₚ f ws ++ (delete w l ≫= f)
  ∧ ∀ ws', <[w:=ws']> l ≫= f ≡ₚ f ws' ++ (delete w l ≫= f).
Proof.
  intros Hw. split.
  - by rewrite (delete_Permutation l w ws) at 1.
  - intros ws'. rewrite (delete_Permutation (<[w:=ws']> l) w ws').
    + by rewrite bind_cons, list_delete_insert_same.
    + apply list_lookup_insert_eq. by eapply lookup_lt_Some.
Qed.

Section TasksInv.
Context (cfg : Config) (client_get : PageTask.t → fetch_outcome).

Lemma new_task_ok (w p : Z) : task_ok cfg (PageTask.new (request cfg) w p).
Proof. split; simpl; try done; by left. Qed.

Lemma set_worker_id_ok (w : Z) (task : PageTask.t) :
  task_ok cfg task → task_ok cfg (PageTask.set_worker_id w task).
Proof. intros []. by split. Qed.

Lemma failed_ok (e : error) (task : PageTask.t) :
  task_ok cfg task →
  PageTask.attempt_count task + 1 < max_retries cfg →
  task_ok cfg (PageTask.failed e task).
Proof.
  intros [] Hbudget.
  split; simpl; [lia|by right|split; [lia|done]|done..].
Qed.

(** A failed answer that puts the task back puts back the task with one
    more attempt, still below [max_retries]. *)
Lemma requeued_task (data : PageData.t) (task task' : PageTask.t)
    (r : fetch_outcome) :
  is_failure r →
  process_response (max_retries cfg) data task r
  = (PageData.append_pending task' data, task') →
  PageTask.attempt_count task + 1 < max_retries cfg
  ∧ task' = PageTask.failed (error_of r) task.
Proof.
  intros Hfail Hout.
  assert (PageData.append_pending task' data ≠ data) as Hne.
  { intros Heq. apply (f_equal PageData.pending_tasks) in Heq.
    simpl in Heq. apply (f_equal length) in Heq.
    rewrite length_app in Heq. simpl in Heq. lia. }
  destruct (process_response_failure (max_retries cfg) data task r Hfail)
    as [Hretry|Hsame]; [|congruence].
  rewrite Hretry, retry_spec in Hout. case_bool_decide; [|congruence].
  split; [done|congruence].
Qed.

Lemma init_tasks_inv (data : PageData.t) :
  PageData.pending_tasks data = [] → tasks_inv cfg (init cfg data).
Proof.
  intros Hpending. unfold tasks_inv, live_tasks. simpl. rewrite Hpending.
  split; [|done]. simpl.
  induction (Z.to_nat (num_workers cfg)); simpl; done.
Qed.

Lemma step_tasks_inv (w : nat) (s : state) :
  tasks_inv cfg s → tasks_inv cfg (step cfg client_get w s).
Proof.
  intros [Hlive Hpending].
  destruct (step_move cfg client_get w s)
    as [[Hw ->]|(ws & ws' & data' & np' & Hw & Hmove & ->)]; [done|].
  destruct (bind_insert_split worker_tasks (workers s) w ws Hw)
    as [Hold Hnew].
  unfold tasks_inv, live_tasks in *. simpl. rewrite Hnew.
  rewrite Hold in Hlive.
  apply Forall_app in Hlive as (Hpend & [Hws Hothers]%Forall_app).
  assert (∀ task rest,
            Forall (task_ok cfg) rest →
            Forall (task_ok cfg) (worker_tasks (after_task task rest)))
    as Hafter.
  { intros task rest Hrest. unfold after_task.
    by destruct (PageTask.no_more_pages task). }
  destruct Hmove
    as [|n k taken fresh tasks _ -> -> -> _ _ _| | | | | | |
        task rest task' data' Hfail Hout Hdata _ _|
        task rest Hget|task rest item items Hget|];
    cbn [worker_tasks page_data] in *;
    try (rewrite ?Forall_cons in Hws; rewrite !Forall_app, ?Forall_cons;
         by intuition auto).
  - rewrite chunk_tasks.
    rewrite <- (take_drop n (PageData.pending_tasks (page_data s)))
      in Hpend, Hpending.
    apply Forall_app in Hpend as [Htake Hdrop].
    apply Forall_app in Hpending as [_ Hdrop1].
    split; [|done]. rewrite !Forall_app. split_and!; try done.
    + apply Forall_fmap. eapply Forall_impl; [exact Htake|].
      intros task. apply set_worker_id_ok.
    + apply Forall_fmap, Forall_forall. intros p _. apply new_task_ok.
  - apply Forall_cons in Hws as [Htask Hrest].
    destruct Hdata as [->| ->].
    { rewrite !Forall_app. split_and!; auto. }
    destruct (requeued_task _ _ _ _ Hfail Hout) as [Hbudget ->].
    pose proof (failed_ok (error_of (client_get task)) task Htask Hbudget)
      as Hfailed.
    simpl. rewrite !Forall_app. split_and!; auto.
    rewrite Forall_singleton. simpl.
    pose proof (ok_attempts _ _ Htask). lia.
  - unfold mark_exhausted. simpl.
    assert (PageData.pending_tasks
              (if bool_decide (PageTask.page_number task
                               > PageData.max_page_found (page_data s))
               then PageData.set_no_more_pages (page_data s)
               else page_data s)
            = PageData.pending_tasks (page_data s)) as ->
      by (by case_bool_decide).
    rewrite !Forall_app. split_and!; auto.
Qed.

Lemma run_tasks_inv (sched : list nat) (s : state) :
  tasks_inv cfg s → tasks_inv cfg (run_workers cfg client_get sched s).
Proof.
  revert s. induction sched as [|w sched IH]; intros s Hinv; simpl; [done|].
  by apply IH, step_tasks_inv.
Qed.
End TasksInv.

(** X7: in every run started without pending task, a task waiting in
    [pending_tasks] has failed at least once and fewer than [max_retries]
    times and carries its last error; every task alive, pending or held by a
    worker, has never failed or has failed fewer than [max_retries] times, has
    both flags down and no item. So with [max_retries ≤ 1] nothing is ever
    pending: no page is fetched again. *)
Theorem pending_tasks_have_budget cfg client_get (data : PageData.t)
    (sched : list nat) :
  PageData.pending_tasks data = [] →
  let s := run_workers cfg client_get sched (init cfg data) in
  Forall (λ task,
            1 ≤ PageTask.attempt_count task < max_retries cfg
            ∧ PageTask.last_error task ≠ None)
    (PageData.pending_tasks (page_data s))
  ∧ Forall (λ task,
              0 ≤ PageTask.attempt_count task < Z.max 1 (max_retries cfg)
              ∧ PageTask.no_more_pages task = false
              ∧ PageTask.processed task = false
              ∧ PageTask.items task = [])
      (live_tasks s)
  ∧ (max_retries cfg ≤ 1 → PageData.pending_tasks (page_data s) = []).
Proof.
  intros Hpending s.
  destruct (run_tasks_inv cfg client_get sched (init cfg data)
              (init_tasks_inv cfg data Hpending)) as [Hlive Hretried].
  fold s in Hlive, Hretried.
  assert (Forall (λ task,
                    1 ≤ PageTask.attempt_count task < max_retries cfg
                    ∧ PageTask.last_error task ≠ None)
            (PageData.pending_tasks (page_data s))) as Hbudget.
  { unfold live_tasks in Hlive. apply Forall_app in Hlive as [Hlive _].
    rewrite Forall_forall in Hlive, Hretried |- *. intros task Htask.
    specialize (Hlive task Htask). specialize (Hretried task Htask).
    pose proof (ok_budget _ _ Hlive). split; [lia|].
    intros Herror%(ok_error _ _ Hlive). lia. }
  split_and!; [done| |].
  - eapply Forall_impl; [exact Hlive|]. intros task []. split_and!; try done.
    lia.
  - intros Hmax. destruct (PageData.pending_tasks (page_data s)) as [|task l];
      [done|].
    apply Forall_cons in Hbudget as [[? _] _]. lia.
Qed.

Lemma pending_tasks_have_budget_witness :
  let cfg := {| request := ParseRequest.mk "q" false; num_workers := 1;
                chunk_size := 2; max_retries := 1 |} in
  PageData.pending_tasks
    (page_data (run_workers cfg (λ _, TimeoutException) [0; 0; 0; 0; 0]%nat
                  (init cfg PageData.fresh))) = [].
Proof.
  intros cfg.
  destruct (pending_tasks_have_budget cfg (λ _, TimeoutException)
              PageData.fresh [0; 0; 0; 0; 0]%nat eq_refl) as (_ & _ & Hnone).
  apply Hnone. reflexivity.
Defined.

(** ** No page is fetched more often than the retry budget allows *)

Lemma sumZ_nil {A} (f : A → Z) : sumZ f [] = 0.
Proof. done. Qed.

Lemma sumZ_cons {A} (f : A → Z) (x : A) (l : list A) :
  sumZ f (x :: l) = f x + sumZ f l.
Proof. done. Qed.

Lemma sumZ_app {A} (f : A → Z) (l k : list A) :
  sumZ f (l ++ k) = sumZ f l + sumZ f k.
Proof. induction l as [|x l IH]; simpl; lia. Qed.

Lemma sumZ_Permutation {A} (f : A → Z) (l k : list A) :
  l ≡ₚ k → sumZ f l = sumZ f k.
Proof. induction 1; simpl; lia. Qed.

Lemma sumZ_nonneg {A} (f : A → Z) (l : list A) :
  Forall (λ x, 0 ≤ f x) l → 0 ≤ sumZ f l.
Proof. induction 1; simpl; lia. Qed.

Lemma sumZ_fmap {A B} (g : A → B) (f : B → Z) (l : list A) :
  sumZ f (g <$> l) = sumZ (f ∘ g) l.
Proof. induction l as [|x l IH]; simpl; [done|]. f_equal. apply IH. Qed.

Lemma sumZ_ext {A} (f g : A → Z) (l : list A) :
  (∀ x, f x = g x) → sumZ f l = sumZ g l.
Proof.
  intros Heq. induction l as [|x l IH]; simpl; [done|]. by rewrite IH, Heq.
Qed.

Lemma sumZ_zero {A} (f : A → Z) (l : list A) :
  Forall (λ x, f x = 0) l → sumZ f l = 0.
Proof. induction 1; simpl; lia. Qed.

Lemma flights_tasks (ws : worker_state) : (flights ws).*1 = worker_tasks ws.
Proof.
  destruct ws as [| |tasks|task rest|]; simpl; try done.
  - rewrite <- list_fmap_compose. apply list_fmap_id.
  - f_equal. rewrite <- list_fmap_compose. apply list_fmap_id.
Qed.

Lemma all_flights_tasks (s : state) : (all_flights s).*1 = live_tasks s.
Proof.
  unfold all_flights, live_tasks. rewrite fmap_app. f_equal.
  - rewrite <- list_fmap_compose. apply list_fmap_id.
  - induction (workers s) as [|ws l IH]; [done|].
    rewrite !bind_cons, fmap_app, IH. f_equal. apply flights_tasks.
Qed.

Lemma chunk_flights (tasks : list PageTask.t) :
  flights (match tasks with [] => IdleBackoff | _ => Processing tasks end)
  = (λ task, (task, false)) <$> tasks.
Proof. by destruct tasks. Qed.

Section FetchBudget.
Context (cfg : Config) (client_get : PageTask.t → fetch_outcome) (p : Z).

Lemma fetch_limit_positive : 0 < fetch_limit cfg.
Proof. unfold fetch_limit. lia. Qed.

Lemma fetches_left_nonneg (task : PageTask.t) (b : bool) :
  task_ok cfg task → 0 ≤ fetches_left cfg p (task, b).
Proof.
  intros Hok. unfold fetches_left, fetch_limit. simpl.
  pose proof (ok_budget _ _ Hok). pose proof (ok_attempts _ _ Hok).
  case_bool_decide; [|done]. destruct b; lia.
Qed.

Lemma waiting_nonneg (tasks : list PageTask.t) :
  Forall (task_ok cfg) tasks →
  0 ≤ sumZ (fetches_left cfg p) ((λ task, (task, false)) <$> tasks).
Proof.
  intros Hok. apply sumZ_nonneg, Forall_fmap.
  eapply Forall_impl; [exact Hok|]. intros task. apply fetches_left_nonneg.
Qed.

Lemma fetch_budget_nonneg (s : state) :
  tasks_inv cfg s → 0 ≤ fetch_budget cfg p s.
Proof.
  intros [Hlive _]. unfold fetch_budget.
  pose proof fetch_limit_positive.
  assert (0 ≤ sumZ (fetches_left cfg p) (all_flights s)).
  { apply sumZ_nonneg. rewrite <- all_flights_tasks in Hlive.
    rewrite Forall_fmap in Hlive. eapply Forall_impl; [exact Hlive|].
    intros [task b]. apply fetches_left_nonneg. }
  case_bool_decide; lia.
Qed.

Lemma after_task_flights (task : PageTask.t) (rest : list PageTask.t) :
  Forall (task_ok cfg) rest →
  0 ≤ sumZ (fetches_left cfg p) (flights (after_task task rest))
  ≤ sumZ (fetches_left cfg p) ((λ task, (task, false)) <$> rest).
Proof.
  intros Hok. pose proof (waiting_nonneg rest Hok).
  unfold after_task. destruct (PageTask.no_more_pages task); simpl; lia.
Qed.

(** The fresh tasks of a chunk do not cost more than the page had left
    beyond the cursor. *)
Lemma fresh_budget (w : Z) (processed : gset Z) (np k : Z) :
  0 ≤ k →
  (if bool_decide (np + k < p) then fetch_limit cfg else 0)
  + sumZ (fetches_left cfg p)
      ((λ task, (task, false)) <$>
         (PageTask.new (request cfg) w <$>
            filter (λ page, page ∉ processed) (reserved np k)))
  ≤ if bool_decide (np < p) then fetch_limit cfg else 0.
Proof.
  intros Hk. pose proof fetch_limit_positive as Hlimit.
  set (pages := filter _ _).
  assert (NoDup pages) as Hnodup by apply NoDup_filter, NoDup_seqZ.
  assert (∀ q, q ∈ pages → np < q ≤ np + k) as Hrange.
  { intros q [_ Hq]%list_elem_of_filter. by apply elem_of_reserved. }
  rewrite !sumZ_fmap.
  assert (sumZ (fetches_left cfg p ∘ (λ task, (task, false))
                ∘ PageTask.new (request cfg) w) pages
          = if bool_decide (p ∈ pages) then fetch_limit cfg else 0) as ->.
  { clear Hrange. induction pages as [|q pages IH]; [done|].
    apply NoDup_cons in Hnodup as [Hq Hnodup]. simpl. rewrite IH by done.
    unfold fetches_left. simpl.
    destruct (decide (q = p)) as [->|Hne].
    - rewrite bool_decide_eq_true_2 by done.
      rewrite (bool_decide_eq_false_2 (p ∈ pages)) by done.
      rewrite (bool_decide_eq_true_2 (p ∈ p :: pages)) by left. lia.
    - rewrite bool_decide_eq_false_2 by done.
      destruct (decide (p ∈ pages)).
      + rewrite (bool_decide_eq_true_2 (p ∈ pages)) by done.
        rewrite (bool_decide_eq_true_2 (p ∈ q :: pages)) by (by right). lia.
      + rewrite (bool_decide_eq_false_2 (p ∈ pages)) by done.
        rewrite (bool_decide_eq_false_2 (p ∈ q :: pages)); [lia|].
        intros [?|?]%elem_of_cons; [congruence|done]. }
  destruct (decide (p ∈ pages)) as [Hin|Hout].
  - rewrite (bool_decide_eq_true_2 (p ∈ pages)) by done.
    apply Hrange in Hin.
    rewrite (bool_decide_eq_false_2 (np + k < p)) by lia.
    rewrite (bool_decide_eq_true_2 (np < p)) by lia. lia.
  - rewrite (bool_decide_eq_false_2 (p ∈ pages)) by done.
    repeat case_bool_decide; lia.
Qed.

Lemma step_fetch_budget (w : nat) (s : state) :
  tasks_inv cfg s →
  fetch_budget cfg p (step cfg client_get w s)
  + Z.of_nat (count_occ Z.eq_dec (option_list (fetched w s)) p)
  ≤ fetch_budget cfg p s.
Proof.
  intros [Hlive _].
  destruct (step_move cfg client_get w s)
    as [[Hw ->]|(ws & ws' & data' & np' & Hw & Hmove & ->)].
  { unfold fetched. rewrite Hw. simpl. lia. }
  destruct (bind_insert_split worker_tasks (workers s) w ws Hw) as [Hold _].
  destruct (bind_insert_split flights (workers s) w ws Hw) as [Holdf Hnewf].
  unfold live_tasks in Hlive. rewrite Hold in Hlive.
  apply Forall_app in Hlive as (Hpend & [Hws _]%Forall_app).
  unfold fetch_budget, all_flights, fetched. rewrite Hw.
  cbn [page_data next_page workers]. rewrite !sumZ_app.
  rewrite (sumZ_Permutation _ _ _ Holdf), (sumZ_Permutation _ _ _ (Hnewf ws')).
  rewrite !sumZ_app.
  set (others := sumZ (fetches_left cfg p) (delete w (workers s) ≫= flights)).
  pose proof fetch_limit_positive as Hlimit.
  destruct Hmove
    as [|n k taken fresh tasks Hstop -> -> -> Hk _ _| | | |task rest Hstop|
        task rest Hstop Hin|task rest Hstop Hin|
        task rest task' data' Hfail Hout Hdata _ _|
        task rest Hget|task rest item items Hget|];
    try rewrite chunk_flights;
    cbn [flights worker_tasks option_list count_occ] in *.
  - simpl. lia.
  - (* tasks taken and pages reserved *)
    pose proof (fresh_budget (Z.of_nat w)
                  (PageData.processed_pages (page_data s)) (next_page s) k Hk)
      as Hfresh.
    cbn [PageData.pending_tasks PageData.set_pending_tasks].
    rewrite fmap_app, sumZ_app.
    rewrite <- (take_drop n (PageData.pending_tasks (page_data s))) at 3.
    rewrite fmap_app, sumZ_app.
    assert (sumZ (fetches_left cfg p)
              ((λ task, (task, false)) <$>
                 (PageTask.set_worker_id (Z.of_nat w) <$>
                    take n (PageData.pending_tasks (page_data s))))
            = sumZ (fetches_left cfg p)
                ((λ task, (task, false)) <$>
                   take n (PageData.pending_tasks (page_data s)))) as ->.
    { rewrite !sumZ_fmap. by apply sumZ_ext. }
    simpl (sumZ _ []). simpl (Z.of_nat _). lia.
  - simpl. lia.
  - simpl. lia.
  - simpl. lia.
  - (* the loop is left on the stop event *)
    rewrite Hstop. pose proof (waiting_nonneg _ Hws). rewrite ?fmap_cons, ?sumZ_cons, ?sumZ_nil in *. simpl (Z.of_nat _). lia.
  - (* a page already processed *)
    rewrite Hstop, (bool_decide_eq_true_2 (_ ∈ _)) by done.
    apply Forall_cons in Hws as [Htask Hrest].
    pose proof (after_task_flights (PageTask.set_processed task) rest Hrest).
    pose proof (fetches_left_nonneg task false Htask). rewrite ?fmap_cons, ?sumZ_cons, ?sumZ_nil in *. simpl (Z.of_nat _). lia.
  - (* the fetch starts *)
    rewrite Hstop, (bool_decide_eq_false_2 (_ ∈ _)) by done.
    assert (fetches_left cfg p (task, true)
            + Z.of_nat (count_occ Z.eq_dec [PageTask.page_number task] p)
            ≤ fetches_left cfg p (task, false)) as Hterm.
    { unfold fetches_left. simpl.
      destruct (Z.eq_dec _ _);
        [rewrite bool_decide_eq_true_2 by done
        |rewrite bool_decide_eq_false_2 by done]; lia. }
    rewrite ?fmap_cons, ?sumZ_cons. simpl (option_list _). lia.
  - (* a failed answer *)
    apply Forall_cons in Hws as [Htask Hrest].
    pose proof (fetches_left_nonneg task true Htask) as Hnonneg.
    destruct Hdata as [->| ->].
    + pose proof (after_task_flights task' rest Hrest). rewrite ?fmap_cons, ?sumZ_cons, ?sumZ_nil in *. simpl (Z.of_nat _). lia.
    + destruct (requeued_task cfg _ _ _ _ Hfail Hout) as [_ ->].
      pose proof (after_task_flights
                    (PageTask.failed (error_of (client_get task)) task)
                    rest Hrest).
      cbn [PageData.pending_tasks PageData.append_pending
           PageData.set_pending_tasks].
      rewrite fmap_app, sumZ_app. simpl in *.
      unfold fetches_left in *. simpl in *. case_bool_decide; lia.
  - (* an empty page *)
    apply Forall_cons in Hws as [Htask Hrest].
    pose proof (fetches_left_nonneg task true Htask).
    pose proof (waiting_nonneg _ Hrest).
    assert (PageData.pending_tasks (mark_exhausted (page_data s) task).1
            = PageData.pending_tasks (page_data s)) as ->.
    { unfold mark_exhausted. simpl. by case_bool_decide. }
    rewrite ?fmap_cons, ?sumZ_cons, ?sumZ_nil in *. simpl (Z.of_nat _). lia.
  - (* a page with items *)
    apply Forall_cons in Hws as [Htask Hrest].
    pose proof (fetches_left_nonneg task true Htask).
    pose proof (after_task_flights task rest Hrest).
    simpl (PageData.pending_tasks _).
    rewrite ?fmap_cons, ?sumZ_cons, ?sumZ_nil in *. simpl (Z.of_nat _). lia.
  - simpl. lia.
Qed.

Lemma run_fetch_budget (sched : list nat) (s : state) :
  tasks_inv cfg s →
  Z.of_nat (count_occ Z.eq_dec (fetches cfg client_get sched s) p)
  ≤ fetch_budget cfg p s.
Proof.
  revert s. induction sched as [|w sched IH]; intros s Hinv.
  { simpl. by apply fetch_budget_nonneg. }
  cbn [fetches]. rewrite count_occ_app, Nat2Z.inj_add.
  pose proof (step_fetch_budget w s Hinv).
  specialize (IH _ (step_tasks_inv cfg client_get w s Hinv)). lia.
Qed.
End FetchBudget.

(** X8: in every run started without pending task, whatever the schedule and
    whatever the answers, no page is fetched more than [max 1 max_retries]
    times. *)
Theorem fetches_per_page_bounded cfg client_get (data : PageData.t)
    (sched : list nat) (p : Z) :
  PageData.pending_tasks data = [] →
  Z.of_nat (count_occ Z.eq_dec
              (fetches cfg client_get sched (init cfg data)) p)
  ≤ Z.max 1 (max_retries cfg).
Proof.
  intros Hpending.
  etrans; [apply run_fetch_budget, init_tasks_inv, Hpending|].
  unfold fetch_budget, all_flights, init. simpl. rewrite Hpending. simpl.
  assert (sumZ (fetches_left cfg p)
            (replicate (Z.to_nat (num_workers cfg)) FetchingTasks ≫= flights)
          = 0) as ->.
  { induction (Z.to_nat (num_workers cfg)); simpl; done. }
  unfold fetch_limit. case_bool_decide; lia.
Qed.

Lemma fetches_per_page_bounded_witness :
  let cfg := {| request := ParseRequest.mk "q" false; num_workers := 2;
                chunk_size := 1; max_retries := 2 |} in
  Z.of_nat (count_occ Z.eq_dec
              (fetches cfg (λ _, ReadError)
                 [0; 0; 1; 1; 0; 0; 1; 1; 0; 0; 0; 1; 1; 1; 0; 0]%nat
                 (init cfg PageData.fresh)) 1) ≤ 2.
Proof.
  intros cfg.
  apply (fetches_per_page_bounded cfg (λ _, ReadError) PageData.fresh
           [0; 0; 1; 1; 0; 0; 1; 1; 0; 0; 0; 1; 1; 1; 0; 0]%nat 1 eq_refl).
Defined.

(** X9: in every run started without pending task, no page number is held by
    two tasks at once (pending, in a chunk or being fetched), every page held
    was reserved from the cursor (it lies in [1 .. next_page]), and a page
    being fetched is not in [processed_pages]. *)
Theorem no_page_held_twice cfg client_get (data : PageData.t)
    (sched : list nat) :
  PageData.pending_tasks data = [] →
  let s := run_workers cfg client_get sched (init cfg data) in
  NoDup (live_pages s)
  ∧ (∀ p, p ∈ live_pages s → 1 ≤ p ≤ next_page s)
  ∧ (∀ w task rest,
       workers s !! w = Some (AwaitingResponse task rest) →
       PageTask.page_number task ∉ PageData.processed_pages (page_data s)).
Proof.
  intros Hpending s.
  destruct (run_one_task_per_page cfg client_get sched (init cfg data)
              (init_one_task_per_page cfg data Hpending)) as [_ ? ? ?].
  done.
Qed.

Lemma no_page_held_twice_witness :
  let cfg := {| request := ParseRequest.mk "q" false; num_workers := 2;
                chunk_size := 2; max_retries := 3 |} in
  NoDup (live_pages (run_workers cfg (λ _, ReadError) [0; 1; 0; 0; 1; 1; 0]%nat
                       (init cfg PageData.fresh))).
Proof.
  intros cfg.
  apply (no_page_held_twice cfg (λ _, ReadError) PageData.fresh
           [0; 1; 0; 0; 1; 1; 0]%nat eq_refl).
Defined.

(** ** The high-water mark *)

Lemma step_high_water cfg client_get (w : nat) (s : state) (mark : Z) :
  (∀ p, p ∈ PageData.processed_pages (page_data s) →
        p ≤ PageData.max_page_found (page_data s)) →
  PageData.max_page_found (page_data s) = mark
  ∨ PageData.max_page_found (page_data s)
    ∈ PageData.processed_pages (page_data s) →
  let s' := step cfg client_get w s in
  (∀ p, p ∈ PageData.processed_pages (page_data s') →
        p ≤ PageData.max_page_found (page_data s'))
  ∧ (PageData.max_page_found (page_data s') = mark
     ∨ PageData.max_page_found (page_data s')
       ∈ PageData.processed_pages (page_data s')).
Proof.
  intros Hle Hmark.
  destruct (step_move cfg client_get w s)
    as [[Hw ->]|(ws & ws' & data' & np' & Hw & Hmove & ->)]; [done|].
  destruct Hmove
    as [| | | | | | | |task rest task' data' Hfail _ Hdata _ _|task rest Hget|
        task rest item items Hget|]; simpl; try done.
  - by destruct Hdata as [->| ->].
  - unfold mark_exhausted; simpl. by case_bool_decide.
  - split.
    + intros p [->%elem_of_singleton|Hp%Hle]%elem_of_union; lia.
    + destruct (Z.max_spec (PageData.max_page_found (page_data s))
                  (PageTask.page_number task)) as [[_ ->]|[_ ->]].
      * right. set_solver.
      * destruct Hmark as [?|?]; [by left|right; set_solver].
Qed.

Lemma run_high_water cfg client_get (sched : list nat) (s : state) (mark : Z) :
  (∀ p, p ∈ PageData.processed_pages (page_data s) →
        p ≤ PageData.max_page_found (page_data s)) →
  PageData.max_page_found (page_data s) = mark
  ∨ PageData.max_page_found (page_data s)
    ∈ PageData.processed_pages (page_data s) →
  let s' := run_workers cfg client_get sched s in
  (∀ p, p ∈ PageData.processed_pages (page_data s') →
        p ≤ PageData.max_page_found (page_data s'))
  ∧ (PageData.max_page_found (page_data s') = mark
     ∨ PageData.max_page_found (page_data s')
       ∈ PageData.processed_pages (page_data s')).
Proof.
  revert s. induction sched as [|w sched IH]; intros s Hle Hmark; simpl;
    [done|].
  destruct (step_high_water cfg client_get w s mark Hle Hmark).
  by apply IH.
Qed.

(** X10: [max_page_found] is the high-water mark of the processed pages: from
    a state where it bounds them it bounds them after every schedule, and it
    is then either unchanged or itself a processed page. From a fresh frontier
    it is the largest processed page, or 0 when there is none. *)
Theorem high_water_mark cfg client_get (sched : list nat) (s : state) :
  (∀ p, p ∈ PageData.processed_pages (page_data s) →
        p ≤ PageData.max_page_found (page_data s)) →
  let s' := run_workers cfg client_get sched s in
  (∀ p, p ∈ PageData.processed_pages (page_data s') →
        p ≤ PageData.max_page_found (page_data s'))
  ∧ (PageData.max_page_found (page_data s')
     = PageData.max_page_found (page_data s)
     ∨ PageData.max_page_found (page_data s')
       ∈ PageData.processed_pages (page_data s')).
Proof. intros Hle. apply run_high_water; [done|by left]. Qed.

Lemma high_water_mark_witness :
  let cfg := {| request := ParseRequest.mk "q" false; num_workers := 1;
                chunk_size := 2; max_retries := 3 |} in
  let s := run_workers cfg (source scenario_items) (replicate 6 0%nat)
             (init cfg PageData.fresh) in
  (∀ p, p ∈ PageData.processed_pages (page_data s) →
        p ≤ PageData.max_page_found (page_data s))
  ∧ (PageData.max_page_found (page_data s) = 0
     ∨ PageData.max_page_found (page_data s)
       ∈ PageData.processed_pages (page_data s)).
Proof.
  intros cfg s.
  apply (high_water_mark cfg (source scenario_items) (replicate 6 0%nat)
           (init cfg PageData.fresh)).
  intros p Hp. by apply elem_of_empty in Hp.
Defined.

(** ** The stop event *)

Section Stop.
Context (cfg : Config) (client_get : PageTask.t → fetch_outcome).

Lemma step_other_worker (w w' : nat) (s : state) :
  w ≠ w' → workers (step cfg client_get w s) !! w' = workers s !! w'.
Proof.
  intros Hne. unfold step. destruct (workers s !! w); [|done].
  destruct (worker_step _ _ _ _ _ _ _) as [[??]?]. simpl.
  by apply list_lookup_insert_ne.
Qed.

(** With the stop event set a move fetches nothing, reserves nothing, and
    brings the worker closer to the end of its loop. *)
Lemma step_stopped (w : nat) (s : state) (ws : worker_state) :
  stop_event s = true →
  workers s !! w = Some ws →
  fetched w s = None
  ∧ next_page (step cfg client_get w s) = next_page s
  ∧ ∃ ws', workers (step cfg client_get w s) !! w = Some ws'
           ∧ (stop_rank ws' ≤ Nat.pred (stop_rank ws))%nat.
Proof.
  intros Hstop Hw. pose proof (lookup_lt_Some _ _ _ Hw) as Hlt.
  unfold fetched, step. rewrite Hw, Hstop.
  destruct ws as [| |[|task rest]|task rest|]; simpl;
    try (split_and!; [done|done|];
         rewrite list_lookup_insert_eq by done; eexists; split; [done|];
         simpl; lia).
  - destruct (_ && _); simpl; (split_and!; [done|done|]);
      rewrite list_lookup_insert_eq by done; eexists; (split; [done|]);
      simpl; lia.
  - destruct (process_response _ _ _ _) as [data' task']. simpl.
    split_and!; [done|done|].
    rewrite list_lookup_insert_eq by done. eexists. split; [done|].
    unfold after_task. destruct (PageTask.no_more_pages task'); simpl; lia.
Qed.

(** A late move: the worker takes at most one chunk or fetches the page at
    the head of its chunk, and is then closer to the end of its loop than
    [late_rank] says. *)
Lemma step_late_spec (w : nat) (s : state) :
  stop_event (step_late cfg client_get w s) = stop_event s
  ∧ (∀ w', w ≠ w' →
           workers (step_late cfg client_get w s) !! w' = workers s !! w')
  ∧ next_page s ≤ next_page (step_late cfg client_get w s)
    ≤ next_page s + Z.max 0 (chunk_size cfg)
  ∧ (∀ p, fetched w (set_stop_event false s) = Some p →
          ∃ task rest,
            workers s !! w = Some (Processing (task :: rest))
            ∧ PageTask.page_number task = p)
  ∧ (∀ ws, workers s !! w = Some ws →
           ∃ ws', workers (step_late cfg client_get w s) !! w = Some ws'
                  ∧ (stop_rank ws' ≤ Nat.pred (late_rank ws))%nat).
Proof.
  split; [done|]. split; [|split; [|split]].
  - intros w' Hne. unfold step_late. simpl.
    by rewrite step_other_worker.
  - unfold step_late. simpl.
    destruct (step_move cfg client_get w (set_stop_event false s))
      as [[_ ->]|(ws & ws' & data' & np' & _ & Hmove & ->)]; simpl; [lia|].
    destruct Hmove
      as [|n k taken fresh tasks _ -> _ _ Hk Hcases _| | | | | | | | | |];
      simpl; lia.
  - intros p. unfold fetched. simpl.
    destruct (workers s !! w) as [[| |[|task rest]| |]|]; try done.
    case_bool_decide; [done|]. intros [= <-]. by eexists _, _.
  - intros ws Hw. pose proof (lookup_lt_Some _ _ _ Hw) as Hlt.
    unfold step_late, step. simpl. rewrite Hw.
    destruct ws as [| |[|task rest]|task rest|]; simpl.
    + destruct (_get_next_tasks _ _ _ _ _) as [[tasks data'] np'].
      destruct tasks; simpl; rewrite list_lookup_insert_eq by done;
        eexists; (split; [done|]); simpl; lia.
    + destruct (_ && _); simpl; rewrite list_lookup_insert_eq by done;
        eexists; (split; [done|]); simpl; lia.
    + rewrite list_lookup_insert_eq by done. eexists. split; [done|].
      simpl. lia.
    + case_bool_decide; simpl; rewrite list_lookup_insert_eq by done;
        eexists; (split; [done|]); [|simpl; lia].
      unfold after_task. destruct (PageTask.no_more_pages _); simpl; lia.
    + destruct (process_response _ _ _ _) as [data' task']. simpl.
      rewrite list_lookup_insert_eq by done. eexists. split; [done|].
      unfold after_task. destruct (PageTask.no_more_pages task'); simpl; lia.
    + rewrite list_lookup_insert_eq by done. eexists. split; [done|].
      simpl. lia.
Qed.

Lemma run_stopping_spec (late : gset nat) (sched : list nat) (s : state) :
  stop_event s = true →
  let s' := run_stopping cfg client_get late sched s in
  let fetches := fetches_stopping cfg client_get late sched s in
  (∀ p, p ∈ fetches →
        ∃ w task rest,
          w ∈ late
          ∧ workers s !! w = Some (Processing (task :: rest))
          ∧ PageTask.page_number task = p)
  ∧ (length fetches ≤ size late)%nat
  ∧ next_page s ≤ next_page s'
    ≤ next_page s + Z.max 0 (chunk_size cfg) * Z.of_nat (size late)
  ∧ (∀ w ws,
       workers s !! w = Some ws →
       ∃ ws', workers s' !! w = Some ws'
              ∧ (stop_rank ws' + count_occ Nat.eq_dec sched w
                 ≤ Nat.max (if decide (w ∈ late) then late_rank ws
                            else stop_rank ws)
                     (count_occ Nat.eq_dec sched w))%nat).
Proof.
  revert late s. induction sched as [|w0 sched IH]; intros late s Hstop.
  { simpl. split_and!; [by intros p ?%elem_of_nil|lia|lia|lia|].
    intros w ws Hw. exists ws. split; [done|].
    assert (stop_rank ws ≤ late_rank ws)%nat
      by (destruct ws as [| |[|]| |]; simpl; lia).
    destruct (decide (w ∈ late)); lia. }
  cbn [run_stopping fetches_stopping count_occ].
  destruct (decide (w0 ∈ late)) as [Hlate|Hlate].
  - destruct (step_late_spec w0 s)
      as (Hstop' & Hothers & Hcursor & Hfetched & Hrank).
    rewrite Hstop in Hstop'.
    destruct (IH (late ∖ {[w0]}) _ Hstop')
      as (Horigin & Hlength & Hcursor' & Hranks).
    assert (size late = S (size (late ∖ {[w0]}))) as Hsize.
    { rewrite (union_difference_L {[w0]} late) at 1 by set_solver.
      rewrite size_union by set_solver. by rewrite size_singleton. }
    split_and!.
    + intros p [Hp|Hp]%elem_of_app.
      * destruct (fetched w0 (set_stop_event false s)) as [q|] eqn:Hq;
          [|by apply elem_of_nil in Hp].
        apply list_elem_of_singleton in Hp as ->.
        destruct (Hfetched q eq_refl) as (task & rest & ? & ?).
        by exists w0, task, rest.
      * destruct (Horigin p Hp) as (w & task & rest & Hw & Hws & Hpage).
        exists w, task, rest. split_and!; [set_solver| |done].
        rewrite <- Hws. symmetry. apply Hothers. set_solver.
    + rewrite length_app. destruct (fetched w0 (set_stop_event false s));
        simpl; lia.
    + lia.
    + nia.
    + intros w ws Hw. destruct (Nat.eq_dec w0 w) as [->|Hne].
      * destruct (Hrank ws Hw) as (ws1 & Hw1 & Hle).
        destruct (Hranks w ws1 Hw1) as (ws' & Hw' & Hle').
        exists ws'. split; [done|].
        rewrite decide_True by done.
        rewrite decide_False in Hle' by set_solver. lia.
      * rewrite <- (Hothers w Hne) in Hw.
        destruct (Hranks w ws Hw) as (ws' & Hw' & Hle').
        exists ws'. split; [done|].
        destruct (decide (w ∈ late)).
        -- by rewrite decide_True in Hle' by set_solver.
        -- by rewrite decide_False in Hle' by set_solver.
  - assert (stop_event (step cfg client_get w0 s) = true) as Hstop'
      by by rewrite step_stop_event.
    assert (fetched w0 s = None
            ∧ next_page (step cfg client_get w0 s) = next_page s)
      as [Hfetched Hcursor].
    { destruct (workers s !! w0) as [ws0|] eqn:Hw0.
      - by destruct (step_stopped w0 s ws0 Hstop Hw0) as (? & ? & _).
      - unfold fetched, step. by rewrite Hw0. }
    destruct (IH late _ Hstop') as (Horigin & Hlength & Hcursor' & Hranks).
    rewrite Hfetched, Hcursor in *. simpl.
    split_and!; [|done|lia|lia|].
    + intros p Hp.
      destruct (Horigin p Hp) as (w & task & rest & Hw & Hws & Hpage).
      exists w, task, rest. split_and!; [done| |done].
      rewrite <- Hws. symmetry. apply step_other_worker. set_solver.
    + intros w ws Hw. destruct (Nat.eq_dec w0 w) as [->|Hne].
      * destruct (step_stopped w s ws Hstop Hw)
          as (_ & _ & ws1 & Hw1 & Hle).
        destruct (Hranks w ws1 Hw1) as (ws' & Hw' & Hle').
        exists ws'. split; [done|].
        rewrite decide_False in Hle' |- * by done. lia.
      * rewrite <- (step_other_worker w0 w s Hne) in Hw.
        destruct (Hranks w ws Hw) as (ws' & Hw' & Hle').
        by exists ws'.
Qed.
End Stop.

(** X11: once the stop event is set the parser winds down, but not at once. A
    worker that tested the event before it was set and has waited for the lock
    of the frontier since (a late worker) still does what it was about to do:
    it takes one chunk, or fetches the page at the head of its chunk. Nothing
    else is fetched or reserved: along every schedule, the pages fetched are
    pages that late workers were about to fetch, at most one for each, the
    cursor moves by at most [chunk_size] for each late worker, and a worker
    that is resumed four times has left its loop, whatever it was doing and
    whatever the other workers do. When no worker is late no page is fetched
    and none is reserved. *)
Theorem stop_winds_down cfg client_get (late : gset nat) (sched : list nat)
    (s : state) :
  stop_event s = true →
  let s' := run_stopping cfg client_get late sched s in
  let fetches := fetches_stopping cfg client_get late sched s in
  (∀ p, p ∈ fetches →
        ∃ w task rest,
          w ∈ late
          ∧ workers s !! w = Some (Processing (task :: rest))
          ∧ PageTask.page_number task = p)
  ∧ (length fetches ≤ size late)%nat
  ∧ next_page s ≤ next_page s'
    ≤ next_page s + Z.max 0 (chunk_size cfg) * Z.of_nat (size late)
  ∧ (late = ∅ →
     fetches = [] ∧ next_page s' = next_page s
     ∧ s' = run_workers cfg client_get sched s)
  ∧ (∀ w, (w < length (workers s))%nat →
          (4 ≤ count_occ Nat.eq_dec sched w)%nat →
          workers s' !! w = Some Done).
Proof.
  intros Hstop s' fetches.
  destruct (run_stopping_spec cfg client_get late sched s Hstop)
    as (Horigin & Hlength & Hcursor & Hranks).
  fold s' fetches in Horigin, Hlength, Hcursor, Hranks.
  split_and!; [done|done|lia|lia| |].
  - intros ->. rewrite size_empty in *. split_and!.
    + destruct fetches; [done|simpl in Hlength; lia].
    + lia.
    + subst s'. clear. revert s.
      induction sched as [|w sched IH]; intros s; simpl; [done|].
      rewrite decide_False by set_solver. apply IH.
  - intros w [ws Hw]%lookup_lt_is_Some Hcount.
    destruct (Hranks w ws Hw) as (ws' & Hw' & Hrank). rewrite Hw'.
    assert (late_rank ws ≤ 4 ∧ stop_rank ws ≤ 3)%nat as [? ?].
    { destruct ws as [| |[|]| |]; simpl; lia. }
    assert (stop_rank ws' = 0)%nat as Hzero
      by (destruct (decide (w ∈ late)); lia).
    by destruct ws'.
Qed.

Lemma stop_winds_down_witness :
  let cfg := {| request := ParseRequest.mk "q" false; num_workers := 2;
                chunk_size := 2; max_retries := 3 |} in
  let s := {| page_data := PageData.fresh; next_page := 4; stop_event := true;
              workers := [Processing [PageTask.new (request cfg) 0 1;
                                      PageTask.new (request cfg) 0 2];
                          Processing [PageTask.new (request cfg) 1 3]] |} in
  let sched := [0; 1; 0; 0; 0]%nat in
  fetches_stopping cfg (source scenario_items) {[0%nat]} sched s = [1]
  ∧ next_page (run_stopping cfg (source scenario_items) {[0%nat]} sched s)
    = 4
  ∧ workers (run_stopping cfg (source scenario_items) {[0%nat]} sched s)
      !! 0%nat = Some Done.
Proof.
  intros cfg s sched.
  destruct (stop_winds_down cfg (source scenario_items) {[0%nat]} sched s)
    as (_ & _ & _ & _ & Hdone); [reflexivity|].
  split_and!; [vm_compute; reflexivity|vm_compute; reflexivity|].
  apply Hdone; simpl; lia.
Defined.

(** ** After the end of the catalogue *)

Section Exhausted.
Context (cfg : Config) (client_get : PageTask.t → fetch_outcome).

(** With [no_more_pages] up, a step reserves nothing: the cursor stays, the
    pages alive afterwards were alive before, and so was the page it
    fetches or records. *)
Lemma step_exhausted (w : nat) (s : state) :
  PageData.no_more_pages (page_data s) = true →
  next_page (step cfg client_get w s) = next_page s
  ∧ live_pages (step cfg client_get w s) ⊆+ live_pages s
  ∧ (∀ p, fetched w s = Some p → p ∈ live_pages s)
  ∧ (∀ p, p ∈ PageData.processed_pages
                (page_data (step cfg client_get w s)) →
          p ∈ PageData.processed_pages (page_data s) ∨ p ∈ live_pages s).
Proof.
  intros Hflag.
  assert (∀ p, fetched w s = Some p → p ∈ live_pages s) as Hfetched.
  { intros p. unfold fetched.
    destruct (workers s !! w) as [[| |[|task rest]| |]|] eqn:Hw; try done.
    destruct (stop_event s); [done|]. case_bool_decide; [done|].
    intros [= <-]. unfold live_pages, live_tasks.
    destruct (bind_insert_split worker_tasks (workers s) w _ Hw) as [-> _].
    simpl. rewrite !fmap_app, fmap_cons. set_solver. }
  enough (next_page (step cfg client_get w s) = next_page s
          ∧ live_pages (step cfg client_get w s) ⊆+ live_pages s
          ∧ (∀ p, p ∈ PageData.processed_pages
                        (page_data (step cfg client_get w s)) →
                  p ∈ PageData.processed_pages (page_data s)
                  ∨ p ∈ live_pages s)) as (? & ? & ?) by done.
  clear Hfetched.
  destruct (step_move cfg client_get w s)
    as [[Hw ->]|(ws & ws' & data' & np' & Hw & Hmove & ->)].
  { split_and!; [done|done|by left]. }
  destruct (bind_insert_split worker_tasks (workers s) w ws Hw)
    as [Hold Hnew].
  unfold live_pages, live_tasks in *. simpl. rewrite Hnew, Hold.
  clear Hold Hnew.
  assert (∀ task rest,
            PageTask.page_number <$> worker_tasks (after_task task rest)
            ⊆+ PageTask.page_number <$> rest) as Hafter.
  { intros task rest. apply fmap_submseteq, after_task_tasks. }
  destruct Hmove
    as [|n k taken fresh tasks _ -> -> -> Hk Hcases _| | | | | | |
        task rest task' data' Hfail Hout Hdata Hpage _|
        task rest Hget|task rest item items Hget|];
    cbn [worker_tasks page_data] in *.
  - split_and!; [done|done|by left].
  - assert (k = 0) as -> by (destruct Hcases as [?|(_ & _ & ?)]; congruence).
    rewrite reserved_0, filter_nil, fmap_nil, app_nil_r, chunk_tasks.
    split_and!; [lia| |by left].
    simpl. rewrite !fmap_app, pages_of_taken.
    rewrite <- (take_drop n (PageData.pending_tasks (page_data s))) at 3.
    rewrite !fmap_app, (assoc_L (++)). apply submseteq_app; [|done].
    apply Permutation_submseteq, Permutation_app_comm.
  - split_and!; [done|done|by left].
  - split_and!; [done|done|by left].
  - split_and!; [done|done|by left].
  - split_and!; [done| |by left].
    rewrite !fmap_app, fmap_cons. simpl. apply submseteq_app; [done|].
    by apply submseteq_cons, submseteq_inserts_l.
  - split_and!; [done| |by left].
    rewrite !fmap_app, fmap_cons. simpl. apply submseteq_app; [done|].
    apply submseteq_cons, submseteq_app; [apply Hafter|done].
  - split_and!; [done|done|by left].
  - split_and!; [done| |].
    + destruct Hdata as [->| ->].
      * rewrite !fmap_app, fmap_cons. simpl. apply submseteq_app; [done|].
        apply submseteq_cons, submseteq_app; [apply Hafter|done].
      * cbn [PageData.pending_tasks PageData.append_pending
               PageData.set_pending_tasks].
        rewrite !fmap_app, !fmap_cons, fmap_nil, Hpage.
        rewrite <- !(assoc_L (++)). apply submseteq_app; [done|].
        apply submseteq_skip, submseteq_app; [apply Hafter|done].
    + intros p Hp. left. by destruct Hdata as [->| ->].
  - assert (PageData.pending_tasks (mark_exhausted (page_data s) task).1
            = PageData.pending_tasks (page_data s)
            ∧ PageData.processed_pages (mark_exhausted (page_data s) task).1
              = PageData.processed_pages (page_data s)) as [-> ->]
      by (unfold mark_exhausted; simpl; by case_bool_decide).
    split_and!; [done| |by left].
    rewrite !fmap_app, fmap_cons. simpl. apply submseteq_app; [done|].
    by apply submseteq_cons, submseteq_inserts_l.
  - split_and!; [done| |].
    + simpl (PageData.pending_tasks _). rewrite !fmap_app, fmap_cons.
      apply submseteq_app; [done|].
      apply submseteq_cons, submseteq_app; [apply Hafter|done].
    + intros p Hp. simpl in Hp. rewrite fmap_app, elem_of_app.
      apply elem_of_union in Hp as [->%elem_of_singleton|Hp]; [|by left].
      right. right. apply list_elem_of_fmap. exists task.
      split; [done|]. apply list_elem_of_bind.
      exists (AwaitingResponse task rest).
      split; [by left|by eapply list_elem_of_lookup_2].
  - split_and!; [done|done|by left].
Qed.

Lemma run_exhausted (sched : list nat) (s : state) :
  PageData.no_more_pages (page_data s) = true →
  let s' := run_workers cfg client_get sched s in
  next_page s' = next_page s
  ∧ live_pages s' ⊆+ live_pages s
  ∧ (∀ p, p ∈ fetches cfg client_get sched s → p ∈ live_pages s)
  ∧ (∀ p, p ∈ PageData.processed_pages (page_data s') →
          p ∈ PageData.processed_pages (page_data s) ∨ p ∈ live_pages s).
Proof.
  revert s. induction sched as [|w sched IH]; intros s Hflag; simpl.
  { split_and!; [done|done|by intros p ?%elem_of_nil|by left]. }
  destruct (step_exhausted w s Hflag) as (Hnp & Hlive & Hfetched & Hproc).
  destruct (IH (step cfg client_get w s)) as (Hnp' & Hlive' & Hfetches & Hproc').
  { by apply (run_no_more_pages cfg client_get [w]). }
  split_and!.
  - congruence.
  - by etrans.
  - intros p [Hp|Hp]%elem_of_app.
    + apply Hfetched. by destruct (fetched w s); set_solver.
    + eapply elem_of_submseteq; [|exact Hlive]. by apply Hfetches.
  - intros p [Hp|Hp]%Hproc'; [by apply Hproc|].
    right. by eapply elem_of_submseteq.
Qed.
End Exhausted.

(** X12: once [no_more_pages] is up it stays up and no page is reserved any
    more: the cursor does not move, the pages alive afterwards were alive when
    the flag went up, and only such pages are fetched or added to
    [processed_pages]. *)
Theorem exhaustion_is_final cfg client_get (sched : list nat) (s : state) :
  PageData.no_more_pages (page_data s) = true →
  let s' := run_workers cfg client_get sched s in
  PageData.no_more_pages (page_data s') = true
  ∧ next_page s' = next_page s
  ∧ live_pages s' ⊆+ live_pages s
  ∧ (∀ p, p ∈ fetches cfg client_get sched s → p ∈ live_pages s)
  ∧ (∀ p, p ∈ PageData.processed_pages (page_data s') →
          p ∈ PageData.processed_pages (page_data s) ∨ p ∈ live_pages s).
Proof.
  intros Hflag s'. split; [by apply run_no_more_pages|].
  by apply run_exhausted.
Qed.

Lemma exhaustion_is_final_witness :
  let cfg := {| request := ParseRequest.mk "q" false; num_workers := 1;
                chunk_size := 2; max_retries := 3 |} in
  let s := init cfg (PageData.set_no_more_pages PageData.fresh) in
  PageData.no_more_pages (page_data s) = true
  ∧ next_page (run_workers cfg (source scenario_items) [0; 0]%nat s)
    = next_page s.
Proof.
  intros cfg s. split; [reflexivity|].
  destruct (exhaustion_is_final cfg (source scenario_items) [0; 0]%nat s)
    as (_ & Hcursor & _); [reflexivity|exact Hcursor].
Defined.

(** ** What the queue holds *)

(** X13: on a source that always answers, never repeats an item within a page
    and has no item beyond page [K], at every point of every run from a fresh
    frontier: the queue holds the items of the processed pages and no other,
    each once; a processed page has items, was reserved from the cursor and is
    at most [max_page_found], itself at most [K]; nothing is pending and
    nothing was downloaded. *)
Theorem queue_holds_processed_items cfg (items_of : Z → list string) (K : Z)
    (sched : list nat) :
  0 < chunk_size cfg →
  0 ≤ K →
  (∀ p, K < p → items_of p = []) →
  (∀ p, NoDup (items_of p)) →
  let s := run_workers cfg (source items_of) sched
             (init cfg PageData.fresh) in
  NoDup (PageData.download_queue (page_data s))
  ∧ (∀ item, item ∈ PageData.download_queue (page_data s)
             ↔ ∃ p, p ∈ PageData.processed_pages (page_data s)
                    ∧ item ∈ items_of p)
  ∧ (∀ p, p ∈ PageData.processed_pages (page_data s) →
          items_of p ≠ []
          ∧ 1 ≤ p ≤ next_page s
          ∧ p ≤ PageData.max_page_found (page_data s))
  ∧ 0 ≤ PageData.max_page_found (page_data s) ≤ K
  ∧ PageData.pending_tasks (page_data s) = []
  ∧ PageData.downloaded (page_data s) = ∅.
Proof.
  intros Hchunk HK Hexhausted HNoDup s.
  pose proof (run_finite_inv cfg items_of K Hchunk Hexhausted sched
                (init cfg PageData.fresh) (init_finite_inv cfg items_of K HK))
    as Hfin.
  assert (queue_inv items_of s) as Hqueue.
  { subst s. generalize (init_queue_inv cfg items_of).
    generalize (init cfg PageData.fresh). clear Hfin.
    induction sched as [|w sched IH]; intros s0 Hinv; simpl; [done|].
    apply IH. by apply step_queue_inv. }
  fold s in Hfin.
  split; [by apply (qi_NoDup _ _ Hqueue)|].
  split; [by apply (qi_items _ _ Hqueue)|].
  split; [by intros p (Hp & Hitems & Hle)%(fi_processed _ _ _ Hfin)|].
  split; [by apply (fi_max_page _ _ _ Hfin)|].
  split; [by apply (fi_pending _ _ _ Hfin)|by apply (qi_downloaded _ _ Hqueue)].
Qed.

Lemma queue_holds_processed_items_witness :
  let cfg := {| request := ParseRequest.mk "q" false; num_workers := 2;
                chunk_size := 2; max_retries := 3 |} in
  let s := run_workers cfg (source scenario_items) [0; 1; 0; 0; 1; 1]%nat
             (init cfg PageData.fresh) in
  NoDup (PageData.download_queue (page_data s))
  ∧ PageData.pending_tasks (page_data s) = [].
Proof.
  intros cfg s.
  destruct (queue_holds_processed_items cfg scenario_items 2
              [0; 1; 0; 0; 1; 1]%nat)
    as (Hqueue & _ & _ & _ & Hpending & _);
    [done|done|exact scenario_exhausted|exact scenario_NoDup|].
  split; [exact Hqueue|exact Hpending].
Defined.

(** ** The orchestrator *)

Lemma run_finally_all_completed (s : state) :
  run_finally AllCompleted s = finish s.
Proof. done. Qed.

Lemma all_done_cancelled (l : list worker_state) :
  forallb is_done ((λ _, Done) <$> l) = true.
Proof. by induction l. Qed.

(** A run under a scheduler is the run of the schedule it makes. *)
Lemma run_with_schedule cfg client_get (pick : state → nat) (fuel : nat)
    (s : state) :
  (length (schedule_of cfg client_get pick fuel s) ≤ fuel)%nat
  ∧ run_workers cfg client_get (schedule_of cfg client_get pick fuel s) s
    = run_with cfg client_get pick fuel s.
Proof.
  revert s. induction fuel as [|fuel IH]; intros s; simpl; [done|].
  destruct (all_done s); simpl; [split; [lia|done]|].
  destruct (IH (step cfg client_get (pick s) s)) as [Hlen Heq].
  split; [lia|done].
Qed.

Lemma init_no_workers cfg (data : PageData.t) :
  workers (init cfg data) = [] ↔ num_workers cfg ≤ 0.
Proof.
  simpl. split.
  - intros Hnil. destruct (Z.to_nat (num_workers cfg)) eqn:Hn; [lia|done].
  - intros Hle. by replace (Z.to_nat (num_workers cfg)) with 0%nat by lia.
Qed.

Lemma run_workers_idle cfg client_get (sched : list nat) (s : state) :
  workers s = [] → run_workers cfg client_get sched s = s.
Proof.
  intros Hnil. induction sched as [|w sched IH]; simpl; [done|].
  unfold step. by rewrite Hnil, lookup_nil.
Qed.

(** X14: [run] always leaves the stop event set and every worker done, and the
    number it logs is the size of [processed_pages]; [has_error] is raised
    exactly when the run was cancelled or had no worker to wait for; the rest
    of the frontier is as the workers left it. Without workers nothing is
    fetched. *)
Theorem run_ends_clean cfg client_get (sched : list nat) (cancelled : bool)
    (data : PageData.t) (s' : state) (n : nat) :
  run cfg client_get sched cancelled data = Some (s', n) →
  let s := run_workers cfg client_get sched (init cfg data) in
  stop_event s' = true
  ∧ all_done s' = true
  ∧ n = size (PageData.processed_pages (page_data s'))
  ∧ PageData.has_error (page_data s')
    = PageData.has_error data || cancelled
      || bool_decide (num_workers cfg ≤ 0)
  ∧ (cancelled = false → 0 < num_workers cfg → all_done s = true)
  ∧ next_page s' = next_page s
  ∧ PageData.pending_tasks (page_data s')
    = PageData.pending_tasks (page_data s)
  ∧ PageData.processed_pages (page_data s')
    = PageData.processed_pages (page_data s)
  ∧ PageData.download_queue (page_data s')
    = PageData.download_queue (page_data s)
  ∧ PageData.downloaded (page_data s') = PageData.downloaded data
  ∧ PageData.max_page_found (page_data s')
    = PageData.max_page_found (page_data s)
  ∧ PageData.no_more_pages (page_data s')
    = PageData.no_more_pages (page_data s)
  ∧ (num_workers cfg ≤ 0 →
     s = init cfg data ∧ fetches cfg client_get sched (init cfg data) = []).
Proof.
  intros Hrun s.
  destruct (run_untouched cfg client_get sched (init cfg data))
    as (Hdownloaded & Herror & _ & _).
  fold s in Hdownloaded, Herror. simpl in Hdownloaded, Herror.
  assert (num_workers cfg ≤ 0 →
          s = init cfg data ∧ fetches cfg client_get sched (init cfg data) = [])
    as Hidle.
  { intros Hle%(init_no_workers cfg data). split.
    - by apply run_workers_idle.
    - clear -Hle. induction sched as [|w sched IH]; simpl; [done|].
      unfold fetched at 1, step at 1. by rewrite Hle, lookup_nil. }
  unfold run in Hrun. case_bool_decide as Hworkers.
  - apply init_no_workers in Hworkers as Hle. destruct (Hidle Hle) as [Hs Hfetch].
    injection Hrun as <- <-. simpl. rewrite Hs. simpl.
    rewrite bool_decide_eq_true_2 by done.
    split_and!; try done.
    all: try apply all_done_cancelled; try (by rewrite orb_true_r); try lia.
  - rewrite init_no_workers in Hworkers.
    rewrite (bool_decide_eq_false_2 (num_workers cfg ≤ 0)) by done.
    rewrite orb_false_r. fold s in Hrun. destruct cancelled.
    + injection Hrun as <- <-. simpl.
      split_and!; try done.
      all: try apply all_done_cancelled; try (by rewrite orb_true_r).
    + destruct (all_done s) eqn:Hdone; [|done].
      injection Hrun as <- <-. simpl. rewrite orb_false_r.
      split_and!; done.
Qed.

Lemma run_ends_clean_witness :
  let cfg := {| request := ParseRequest.mk "q" false; num_workers := 1;
                chunk_size := 2; max_retries := 3 |} in
  let s' := (finish (run_workers cfg (source scenario_items)
                       (replicate 12 0%nat) (init cfg PageData.fresh))).1 in
  run cfg (source scenario_items) (replicate 12 0%nat) false PageData.fresh
  = Some (s', 2%nat)
  ∧ stop_event s' = true
  ∧ PageData.has_error (page_data s') = false.
Proof.
  intros cfg s'.
  assert (run cfg (source scenario_items) (replicate 12 0%nat) false
            PageData.fresh = Some (s', 2%nat)) as Hrun
    by (vm_compute; reflexivity).
  clearbody s'. split; [exact Hrun|].
  destruct (run_ends_clean cfg (source scenario_items) (replicate 12 0%nat)
              false PageData.fresh s' 2%nat Hrun)
    as (Hstop & _ & _ & Herror & _).
  split; [exact Hstop|exact Herror].
Defined.

(** X15: on a catalogue whose pages [1..K] all have items and whose later
    pages have none, a run that is not cancelled processes exactly the pages
    [1..K], whatever the schedule: it logs [K] pages, the queue holds the
    items of these pages and no other, each once, and no error is raised.
    Under every scheduler that resumes a worker able to move while one exists,
    [run] returns, and has logged [K] pages, at the end of the schedule that
    the scheduler makes in [step_bound] steps or more. *)
Theorem contiguous_crawl_complete cfg (items_of : Z → list string) (K : Z) :
  0 < chunk_size cfg →
  0 < num_workers cfg →
  0 ≤ K →
  (∀ p, K < p → items_of p = []) →
  (∀ p, 1 ≤ p ≤ K → items_of p ≠ []) →
  (∀ p, NoDup (items_of p)) →
  (∀ (sched : list nat) (s' : state) (n : nat),
     run cfg (source items_of) sched false PageData.fresh = Some (s', n) →
     PageData.processed_pages (page_data s') = list_to_set (seqZ 1 K)
     ∧ n = Z.to_nat K
     ∧ NoDup (PageData.download_queue (page_data s'))
     ∧ (∀ item, item ∈ PageData.download_queue (page_data s')
                ↔ ∃ p, 1 ≤ p ≤ K ∧ item ∈ items_of p)
     ∧ PageData.max_page_found (page_data s') = K
     ∧ PageData.pending_tasks (page_data s') = []
     ∧ PageData.has_error (page_data s') = false)
  ∧ (∀ (pick : state → nat) (fuel : nat),
       (∀ s, all_done s = false → live (pick s) s = true) →
       step_bound cfg K ≤ Z.of_nat fuel →
       let sched := schedule_of cfg (source items_of) pick fuel
                      (init cfg PageData.fresh) in
       (length sched ≤ fuel)%nat
       ∧ ∃ s', run cfg (source items_of) sched false PageData.fresh
               = Some (s', Z.to_nat K)).
Proof.
  intros Hchunk Hworkers HK Hexhausted Hpopulated HNoDup.
  assert (workers (init cfg PageData.fresh) ≠ []) as Hnonempty
    by by apply init_workers_nonempty.
  assert (∀ (sched : list nat) (s' : state) (n : nat),
            run cfg (source items_of) sched false PageData.fresh
            = Some (s', n) →
            PageData.processed_pages (page_data s')
            = list_to_set (seqZ 1 K)
            ∧ n = Z.to_nat K
            ∧ NoDup (PageData.download_queue (page_data s'))
            ∧ (∀ item, item ∈ PageData.download_queue (page_data s')
                       ↔ ∃ p, 1 ≤ p ≤ K ∧ item ∈ items_of p)
            ∧ PageData.max_page_found (page_data s') = K
            ∧ PageData.pending_tasks (page_data s') = []
            ∧ PageData.has_error (page_data s') = false) as Hend.
  { intros sched s' n Hrun. unfold run in Hrun.
    rewrite bool_decide_eq_false_2 in Hrun by done.
    destruct (all_done _) eqn:Hdone; [|done].
    injection Hrun as <- <-. simpl.
    destruct (contiguous_end_state cfg items_of K Hchunk Hworkers HK
                Hexhausted Hpopulated HNoDup sched Hdone)
      as (Hprocessed & Hqueue & Hitems & _ & Hpending & Hmax).
    destruct (run_untouched cfg (source items_of) sched
                (init cfg PageData.fresh)) as (_ & Herror & _).
    assert (PageData.processed_pages
              (page_data (run_workers cfg (source items_of) sched
                            (init cfg PageData.fresh)))
            = list_to_set (seqZ 1 K)) as Hset.
    { apply set_eq. intros p.
      rewrite Hprocessed, elem_of_list_to_set, elem_of_seqZ. lia. }
    split_and!; try done.
    rewrite Hset, size_list_to_set by apply NoDup_seqZ.
    by rewrite length_seqZ. }
  split; [exact Hend|].
  intros pick fuel Hpick Hfuel sched.
  destruct (run_with_schedule cfg (source items_of) pick fuel
              (init cfg PageData.fresh)) as [Hlen Heq].
  fold sched in Hlen, Heq. split; [done|].
  assert (is_Some (run cfg (source items_of) sched false PageData.fresh))
    as [[s' n] Hrun].
  { unfold run. rewrite bool_decide_eq_false_2 by done. rewrite Heq.
    rewrite (run_with_done cfg items_of K Hchunk Hexhausted); [done|done| |].
    - by apply init_finite_inv.
    - by rewrite (potential_init cfg K HK). }
  exists s'. destruct (Hend sched s' n Hrun) as (_ & -> & _). done.
Qed.

Lemma contiguous_crawl_complete_witness :
  let cfg := {| request := ParseRequest.mk "q" false; num_workers := 2;
                chunk_size := 2; max_retries := 3 |} in
  let sched := schedule_of cfg (source scenario_items) first_live 40
                 (init cfg PageData.fresh) in
  (length sched ≤ 40)%nat
  ∧ ∃ s', run cfg (source scenario_items) sched false PageData.fresh
          = Some (s', 2%nat).
Proof.
  intros cfg.
  destruct (contiguous_crawl_complete cfg scenario_items 2) as [_ Hreturns];
    [done|done|done|exact scenario_exhausted|exact scenario_populated|
     exact scenario_NoDup|].
  apply (Hreturns first_live 40%nat first_live_live).
  unfold step_bound, weight. simpl. lia.
Defined.

(** ** The address of a page *)

(** X16: the address tells the pages of a request apart, and a search address
    is never a catalogue address: two tasks with the same address are of the
    same kind of request, and when they carry the same query they are for the
    same page. The address depends on the request and the page number only,
    not on the worker or the attempts made. *)
Theorem url_tells_pages_apart (task1 task2 : PageTask.t) :
  (url task1 = url task2 →
   ParseRequest.is_search (PageTask.request task1)
   = ParseRequest.is_search (PageTask.request task2)
   ∧ (ParseRequest.query (PageTask.request task1)
      = ParseRequest.query (PageTask.request task2) →
      PageTask.page_number task1 = PageTask.page_number task2))
  ∧ (PageTask.request task1 = PageTask.request task2 →
     PageTask.page_number task1 = PageTask.page_number task2 →
     url task1 = url task2).
Proof.
  split.
  - unfold url.
    destruct (ParseRequest.is_search (PageTask.request task1)),
      (ParseRequest.is_search (PageTask.request task2)); intros Heq.
    + split; [done|]. intros Hquery. rewrite Hquery in Heq.
      by do 3 apply (inj (String.app _)) in Heq; apply (inj pretty) in Heq.
    + exfalso. cbv beta iota delta [String.append] in Heq. congruence.
    + exfalso. cbv beta iota delta [String.append] in Heq. congruence.
    + split; [done|]. intros Hquery. rewrite Hquery in Heq.
      by do 3 apply (inj (String.app _)) in Heq; apply (inj pretty) in Heq.
  - unfold url. by intros -> ->.
Qed.

Lemma url_tells_pages_apart_witness :
  let task1 := PageTask.new (ParseRequest.mk "000200_000018" false) 0 7 in
  let task2 := PageTask.new (ParseRequest.mk "000200_000018" false) 1 7 in
  url task1 = "https://rusneb.ru/catalog/000200_000018/?volumes=page-7"
  ∧ PageTask.page_number task1 = PageTask.page_number task2.
Proof.
  intros task1 task2. split; [vm_compute; reflexivity|].
  destruct (url_tells_pages_apart task1 task2) as [Hpage _].
  apply Hpage; reflexivity.
Defined.

(** ** The items of a page *)

Lemma append_nil (s : string) : "" +:+ s = s.
Proof. done. Qed.

Lemma append_cons (c : Ascii.ascii) (s t : string) :
  String c s +:+ t = String c (s +:+ t).
Proof. done. Qed.

Lemma append_assoc (s t u : string) : (s +:+ t) +:+ u = s +:+ t +:+ u.
Proof. induction s as [|c s IH]; [done|]. by rewrite !append_cons, IH. Qed.

Lemma prefix_cons (a b : Ascii.ascii) (sep s : string) :
  String.prefix (String a sep) (String b s)
  = bool_decide (a = b) && String.prefix sep s.
Proof.
  change (String.prefix (String a sep) (String b s))
    with (match Ascii.ascii_dec a b with
          | left _ => String.prefix sep s
          | right _ => false
          end).
  destruct (Ascii.ascii_dec a b).
  - by rewrite bool_decide_eq_true_2.
  - by rewrite bool_decide_eq_false_2.
Qed.

Lemma prefix_nil (s : string) : String.prefix "" s = true.
Proof. by destruct s. Qed.

Lemma prefix_append (sep s t : string) :
  String.prefix sep s = true → String.prefix sep (s +:+ t) = true.
Proof.
  revert s. induction sep as [|a sep IH]; intros s.
  - by destruct (s +:+ t).
  - destruct s as [|b s]; simpl; [done|]. rewrite ?append_cons. simpl.
    destruct (Ascii.ascii_dec a b); [apply IH|done].
Qed.

Lemma prefix_append_same (sep t : string) :
  String.prefix sep (sep +:+ t) = true.
Proof.
  induction sep as [|a sep IH]; [by destruct t|].
  rewrite ?append_cons. simpl. by destruct (Ascii.ascii_dec a a).
Qed.

(** A prefix test only looks at as many characters as [sep] has. *)
Lemma prefix_append_long (sep s t : string) :
  (String.length sep ≤ String.length s)%nat →
  String.prefix sep (s +:+ t) = String.prefix sep s.
Proof.
  revert s. induction sep as [|a sep IH]; intros s Hlen.
  - by destruct (s +:+ t), s.
  - destruct s as [|b s]; simpl in *; [lia|]. rewrite ?append_cons. simpl.
    destruct (Ascii.ascii_dec a b); [apply IH; lia|done].
Qed.

Lemma length_append (s t : string) :
  String.length (s +:+ t) = (String.length s + String.length t)%nat.
Proof. induction s as [|c s IH]; [done|]. rewrite ?append_cons. simpl. lia. Qed.

Lemma contains_cons (sep : string) (c : Ascii.ascii) (s : string) :
  contains sep (String c s)
  = String.prefix sep (String c s) || contains sep s.
Proof. done. Qed.

Lemma contains_prefix (sep s : string) :
  String.prefix sep s = true → contains sep s = true.
Proof.
  intros Hprefix. destruct s as [|c s].
  - change (String.prefix sep "" || false = true). by rewrite Hprefix.
  - by rewrite contains_cons, Hprefix.
Qed.

Lemma contains_append (sep s t : string) :
  contains sep (s +:+ sep +:+ t) = true.
Proof.
  induction s as [|c s IH].
  - rewrite append_nil. apply contains_prefix, prefix_append_same.
  - rewrite append_cons, contains_cons, IH. apply orb_true_r.
Qed.

Lemma split_from_cons (sep : string) (c : Ascii.ascii) (s : string) :
  split_from sep 0 (String c s)
  = if String.prefix sep (String c s)
    then "" :: split_from sep (String.length sep - 1) s
    else match split_from sep 0 s with
         | piece :: pieces => String c piece :: pieces
         | [] => [String c ""]
         end.
Proof. done. Qed.

Lemma split_from_nonempty (sep : string) (skip : nat) (s : string) :
  split_from sep skip s ≠ [].
Proof.
  revert skip. induction s as [|c s IH]; intros skip; [done|].
  destruct skip as [|skip]; [|apply IH]. rewrite split_from_cons.
  destruct (String.prefix sep (String c s)); [done|].
  by destruct (split_from sep 0 s).
Qed.

(** The characters of an occurrence of [sep] are passed over. *)
Lemma split_from_skip (sep s t : string) :
  split_from sep (String.length s) (s +:+ t) = split_from sep 0 t.
Proof. induction s as [|c s IH]; [done|]. by rewrite append_cons. Qed.

(** The first piece is a prefix of the string. *)
Lemma split_from_head (sep s : string) :
  ∃ piece pieces rest,
    split_from sep 0 s = piece :: pieces ∧ s = piece +:+ rest.
Proof.
  induction s as [|c s (piece & pieces & rest & Hsplit & Heq)].
  { by exists "", [], "". }
  rewrite split_from_cons. destruct (String.prefix sep (String c s)).
  - by eexists "", _, (String c s).
  - rewrite Hsplit. exists (String c piece), pieces, rest.
    by rewrite append_cons, <- Heq.
Qed.

(** No piece holds an occurrence of [sep]. *)
Lemma split_from_free (a : Ascii.ascii) (sep : string) (skip : nat)
    (s piece : string) :
  piece ∈ split_from (String a sep) skip s →
  contains (String a sep) piece = false.
Proof.
  revert skip piece.
  induction s as [|c s IH]; intros skip piece Hin.
  - by apply list_elem_of_singleton in Hin as ->.
  - destruct skip as [|skip]; [|by apply (IH skip)].
    rewrite split_from_cons in Hin.
    destruct (String.prefix (String a sep) (String c s)) eqn:Hprefix.
    + apply elem_of_cons in Hin as [->|Hin]; [done|by eapply IH].
    + destruct (split_from_head (String a sep) s)
        as (piece' & pieces & rest & Hsplit & Heq).
      rewrite Hsplit in Hin.
      apply elem_of_cons in Hin as [->|Hin].
      * rewrite contains_cons.
        rewrite (IH 0%nat piece') by (rewrite Hsplit; by left).
        rewrite orb_false_r.
        destruct (String.prefix (String a sep) (String c piece')) eqn:Hp;
          [|done].
        apply prefix_append with (t := rest) in Hp.
        rewrite append_cons, <- Heq in Hp. congruence.
      * apply (IH 0%nat). rewrite Hsplit. by right.
Qed.

Lemma prefix_split (sep s : string) :
  String.prefix sep s = true → ∃ t, s = sep +:+ t.
Proof.
  revert s. induction sep as [|a sep IH]; intros s Hprefix.
  - by exists s.
  - destruct s as [|b s]; [done|]. rewrite prefix_cons in Hprefix.
    apply andb_prop in Hprefix as [<-%bool_decide_eq_true Hprefix].
    destruct (IH s Hprefix) as [t ->]. by exists t.
Qed.

Lemma concat_cons (sep : string) (c : Ascii.ascii) (piece : string)
    (pieces : list string) :
  String.concat sep (String c piece :: pieces)
  = String c (String.concat sep (piece :: pieces)).
Proof. by destruct pieces. Qed.

(** Joining the pieces with [sep] gives the string back. *)
Lemma split_join (a : Ascii.ascii) (sep s : string) :
  String.concat (String a sep) (split (String a sep) s) = s.
Proof.
  unfold split. remember (String.length s) as n eqn:Hn.
  assert (String.length s ≤ n)%nat as Hlen by lia. clear Hn.
  revert s Hlen. induction n as [|n IH]; intros [|c s] Hlen; simpl in Hlen;
    [done|lia|done|].
  rewrite split_from_cons.
  destruct (String.prefix (String a sep) (String c s)) eqn:Hprefix.
  - apply prefix_split in Hprefix as [t Heq].
    rewrite append_cons in Heq. injection Heq as <- ->.
    replace (String.length (String c sep) - 1)%nat
      with (String.length sep) by (simpl; lia).
    rewrite split_from_skip. rewrite length_append in Hlen.
    pose proof (IH t ltac:(lia)) as Ht.
    destruct (split_from (String c sep) 0 t) as [|piece pieces] eqn:Hsplit;
      [by apply split_from_nonempty in Hsplit|].
    change (String.concat (String c sep) ("" :: piece :: pieces))
      with (String c sep +:+ String.concat (String c sep) (piece :: pieces)).
    by rewrite Ht.
  - pose proof (IH s ltac:(lia)) as Hs.
    destruct (split_from (String a sep) 0 s) as [|piece pieces] eqn:Hsplit;
      [by apply split_from_nonempty in Hsplit|].
    by rewrite concat_cons, Hs.
Qed.

(** A string that holds [sep] splits into two pieces at least. *)
Lemma split_from_contains (a : Ascii.ascii) (sep s : string) :
  contains (String a sep) s = true →
  ∃ piece piece' pieces,
    split_from (String a sep) 0 s = piece :: piece' :: pieces.
Proof.
  induction s as [|c s IH]; [done|].
  rewrite contains_cons, split_from_cons.
  destruct (String.prefix (String a sep) (String c s)); simpl.
  - intros _.
    destruct (split_from (String a sep) (String.length sep - 0) s)
      as [|piece' pieces] eqn:Hsplit; [by apply split_from_nonempty in Hsplit|].
    by eexists _, _, _.
  - intros (piece & piece' & pieces & ->)%IH. by eexists _, _, _.
Qed.

(** A string that does not hold [sep] is its own single piece. *)
Lemma split_from_whole (sep s : string) :
  contains sep s = false → split_from sep 0 s = [s].
Proof.
  induction s as [|c s IH]; [done|].
  rewrite contains_cons, split_from_cons.
  intros [-> Hs]%orb_false_elim. by rewrite (IH Hs).
Qed.

(** The first piece ends where [sep] first occurs: here after [s], when no
    occurrence starts within [s]. *)
Lemma split_from_first (sep front : string) (c : Ascii.ascii)
    (s t : string) :
  sep = front +:+ String c "" →
  contains sep (s +:+ front) = false →
  split_from sep 0 (s +:+ sep +:+ t) = s :: split_from sep 0 t.
Proof.
  intros Hsep. induction s as [|b s IH]; intros Hfree.
  - rewrite append_nil.
    assert (∃ a sep', sep = String a sep') as (a & sep' & Heq).
    { rewrite Hsep. destruct front; by eexists _, _. }
    clear Hsep Hfree. subst sep.
    rewrite append_cons, split_from_cons, <- append_cons.
    rewrite prefix_append_same. f_equal.
    replace (String.length (String a sep') - 1)%nat
      with (String.length sep') by (simpl; lia).
    apply split_from_skip.
  - rewrite append_cons, contains_cons in Hfree.
    apply orb_false_elim in Hfree as [Hprefix Hfree].
    rewrite append_cons, split_from_cons.
    assert (String.prefix sep (String b (s +:+ sep +:+ t)) = false) as ->.
    { replace (String b (s +:+ sep +:+ t))
        with (String b (s +:+ front) +:+ String c t).
      - rewrite prefix_append_long; [done|].
        rewrite Hsep. simpl. rewrite !length_append. simpl. lia.
      - rewrite Hsep, append_cons, !append_assoc. done. }
    by rewrite (IH Hfree).
Qed.

Lemma split_head (sep s : string) :
  ∃ piece, split sep s !! 0%nat = Some piece.
Proof.
  unfold split. destruct (split_from sep 0 s) eqn:Hsplit;
    [by apply split_from_nonempty in Hsplit|by eexists].
Qed.

(** The text before the first ["/"]. *)
Lemma split_slash_head (id rest : string) :
  contains "/" id = false →
  rest = "" ∨ String.prefix "/" rest = true →
  split "/" (id +:+ rest) !! 0%nat = Some id.
Proof.
  intros Hid Hrest. unfold split. induction id as [|c id IH].
  - rewrite append_nil. destruct Hrest as [->|Hrest]; [done|].
    destruct rest as [|b rest]; [done|].
    by rewrite split_from_cons, Hrest.
  - rewrite contains_cons in Hid.
    apply orb_false_elim in Hid as [Hprefix Hid].
    rewrite append_cons, split_from_cons.
    assert (String.prefix "/" (String c (id +:+ rest)) = false) as ->.
    { rewrite <- append_cons, prefix_append_long; [done|simpl; lia]. }
    specialize (IH Hid).
    destruct (split_from "/" 0 (id +:+ rest)) as [|piece pieces]; [done|].
    by injection IH as ->.
Qed.

(** The first piece of an identifier followed by a path: the identifier,
    and what follows it starts a new path segment. *)
Lemma split_catalog_head (id rest : string) :
  contains "/" id = false →
  rest = "" ∨ String.prefix "/" rest = true →
  ∃ rest',
    split "/catalog/" (id +:+ rest) !! 0%nat = Some (id +:+ rest')
    ∧ (rest' = "" ∨ String.prefix "/" rest' = true).
Proof.
  intros Hid Hrest. unfold split. induction id as [|c id IH].
  - rewrite append_nil.
    destruct Hrest as [->|Hrest]; [exists ""; split; [done|by left]|].
    destruct rest as [|b rest]; [exists ""; split; [done|by left]|].
    rewrite prefix_cons in Hrest.
    apply andb_prop in Hrest as [Hb%bool_decide_eq_true _].
    rewrite split_from_cons.
    destruct (String.prefix "/catalog/" (String b rest));
      [exists ""; split; [done|by left]|].
    destruct (split_from "/catalog/" 0 rest) as [|piece pieces].
    + exists (String b ""). split; [done|]. right.
      by rewrite prefix_cons, prefix_nil, bool_decide_eq_true_2.
    + exists (String b piece). split; [done|]. right.
      by rewrite prefix_cons, prefix_nil, bool_decide_eq_true_2.
  - rewrite contains_cons in Hid.
    apply orb_false_elim in Hid as [Hprefix Hid].
    rewrite append_cons, split_from_cons.
    assert (String.prefix "/catalog/" (String c (id +:+ rest)) = false) as ->.
    { rewrite prefix_cons, prefix_nil, andb_true_r in Hprefix.
      by rewrite prefix_cons, Hprefix. }
    destruct (IH Hid) as (rest' & Hsplit & Hrest').
    destruct (split_from "/catalog/" 0 (id +:+ rest)) as [|piece pieces];
      [done|].
    injection Hsplit as ->. by exists rest'.
Qed.

(** The guard of the parsers and the first split, in one step. *)
Lemma guarded_split (href : string) :
  bool_decide (href ≠ "") && contains "/catalog/" href = true →
  ∃ item id,
    split "/catalog/" href !! 1%nat = Some item
    ∧ split "/" item !! 0%nat = Some id
    ∧ contains "/catalog/" item = false
    ∧ contains "/" id = false.
Proof.
  intros [_ Hcontains]%andb_prop.
  destruct (split_from_contains _ _ _ Hcontains)
    as (piece & item & pieces & Hsplit).
  destruct (split_head "/" item) as [id Hid].
  exists item, id. unfold split in *. rewrite Hsplit.
  split_and!; [done|done| |].
  - apply (split_from_free _ _ 0%nat href). rewrite Hsplit.
    apply elem_of_cons. right. by left.
  - apply (split_from_free _ _ 0%nat item).
    by eapply list_elem_of_lookup_2.
Qed.

Lemma kept_hrefs_cons (c : card) (cards : list card) :
  kept_hrefs (c :: cards)
  = match c with
    | Some link =>
        if bool_decide (get_href link ≠ "")
           && contains "/catalog/" (get_href link)
        then get_href link :: kept_hrefs cards
        else kept_hrefs cards
    | None => kept_hrefs cards
    end.
Proof.
  destruct c as [link|]; [|done]. unfold kept_hrefs. simpl.
  case_bool_decide as Hne; simpl.
  - destruct (contains "/catalog/" (get_href link)) eqn:Hcontains.
    + by rewrite filter_cons_True.
    + rewrite filter_cons_False; [done|]. intros [_ ?]. congruence.
  - rewrite filter_cons_False; [done|]. by intros [? _].
Qed.

(** X17: the parsers never fail on an index: whatever the cards, both return a
    list, of exactly one item for each card whose link has a non-empty [href]
    that holds ["/catalog/"], in document order, and of nothing else. The item
    of the catalogue parser is the second piece of the [href] split at
    ["/catalog/"], and the identifier of the search parser is the text before
    the first ["/"] of that item. *)
Theorem parsers_never_fail (cards : list card) :
  ∃ items ids,
    _parse_catalog_page cards = Some items
    ∧ _parse_search_page cards = Some ids
    ∧ Forall2 (λ href item, split "/catalog/" href !! 1%nat = Some item)
        (kept_hrefs cards) items
    ∧ Forall2 (λ id item, split "/" item !! 0%nat = Some id) ids items
    ∧ length items = length (kept_hrefs cards)
    ∧ length ids = length (kept_hrefs cards)
    ∧ (length (kept_hrefs cards) ≤ length cards)%nat
    ∧ (Forall (λ c, ∀ href, c = Some (Some href) →
                            href = "" ∨ contains "/catalog/" href = false)
         cards →
       items = [] ∧ ids = []).
Proof.
  assert (∃ items ids,
            _parse_catalog_page cards = Some items
            ∧ _parse_search_page cards = Some ids
            ∧ Forall2 (λ href item,
                         split "/catalog/" href !! 1%nat = Some item)
                (kept_hrefs cards) items
            ∧ Forall2 (λ id item, split "/" item !! 0%nat = Some id)
                ids items
            ∧ (length (kept_hrefs cards) ≤ length cards)%nat)
    as (items & ids & Hcat & Hsearch & Hkept & Hids & Hlen).
  { induction cards
      as [|[link|] cards (items & ids & Hcat & Hsearch & Hkept & Hids & Hlen)].
    - exists [], []. split_and!; [done|done|constructor|constructor|done].
    - rewrite kept_hrefs_cons.
      cbn [_parse_catalog_page _parse_search_page].
      destruct (bool_decide (get_href link ≠ "")
                && contains "/catalog/" (get_href link)) eqn:Hguard.
      + destruct (guarded_split _ Hguard) as (item & id & Hitem & Hid & _).
        rewrite Hitem, Hcat, Hsearch. simpl. rewrite Hid. simpl.
        exists (item :: items), (id :: ids).
        split_and!; [done|done|by constructor|by constructor|simpl; lia].
      + exists items, ids. split_and!; [done|done|done|done|simpl; lia].
    - rewrite kept_hrefs_cons. exists items, ids.
      split_and!; [done|done|done|done|simpl; lia]. }
  exists items, ids.
  pose proof (Forall2_length _ _ _ Hkept) as Hlen1.
  pose proof (Forall2_length _ _ _ Hids) as Hlen2.
  split_and!; [done|done|done|done|done|lia|done|].
  intros Hnone.
  assert (kept_hrefs cards = []) as Hnil.
  { clear -Hnone. induction cards as [|c cards IH]; [done|].
    apply Forall_cons in Hnone as [Hc Hnone].
    rewrite kept_hrefs_cons. destruct c as [[href|]|]; [| |by apply IH].
    - destruct (Hc href eq_refl) as [->|Hcontains].
      + simpl. by apply IH.
      + cbn [get_href default from_option id]. simpl.
        rewrite Hcontains, andb_false_r. by apply IH.
    - simpl. by apply IH. }
  rewrite Hnil in Hlen1. destruct items; [|done].
  by destruct ids.
Qed.

(** X18: the items hold no separator: an item of the catalogue parser has no
    ["/catalog/"] in it, an identifier of the search parser no ["/"]. *)
Theorem items_hold_no_separator (cards : list card) :
  (∀ items, _parse_catalog_page cards = Some items →
            Forall (λ item, contains "/catalog/" item = false) items)
  ∧ (∀ ids, _parse_search_page cards = Some ids →
            Forall (λ id, contains "/" id = false) ids).
Proof.
  induction cards as [|[link|] cards [IHcat IHsearch]]; [|  |done].
  - split; by intros ? [= <-].
  - cbn [_parse_catalog_page _parse_search_page].
    destruct (bool_decide (get_href link ≠ "")
              && contains "/catalog/" (get_href link)) eqn:Hguard; [|done].
    destruct (guarded_split _ Hguard) as (item & id & -> & Hid & Hitem & Hfree).
    simpl. rewrite Hid. simpl. split.
    + destruct (_parse_catalog_page cards) as [items|]; [|done].
      intros ? [= <-]. constructor; [done|by apply IHcat].
    + destruct (_parse_search_page cards) as [ids|]; [|done].
      intros ? [= <-]. constructor; [done|by apply IHsearch].
Qed.

(** X19: a link to [.../catalog/<id><rest>], where the identifier has no ["/"]
    and what follows it is empty or starts a new path segment: the search
    parser returns the identifier, and the catalogue parser returns the
    identifier with what follows it. *)
Theorem link_round_trip (pre id rest : string) (cards : list card) :
  contains "/catalog/" (pre +:+ "/catalog") = false →
  contains "/" id = false →
  rest = "" ∨ String.prefix "/" rest = true →
  let card := Some (Some (pre +:+ "/catalog/" +:+ id +:+ rest)) in
  _parse_search_page (card :: cards)
  = (id ::.) <$> _parse_search_page cards
  ∧ (contains "/catalog/" (id +:+ rest) = false →
     _parse_catalog_page (card :: cards)
     = ((id +:+ rest) ::.) <$> _parse_catalog_page cards).
Proof.
  intros Hpre Hid Hrest card. subst card.
  cbn [_parse_catalog_page _parse_search_page].
  change (get_href (Some ?h)) with h.
  set (href := pre +:+ "/catalog/" +:+ id +:+ rest).
  assert (bool_decide (href ≠ "") && contains "/catalog/" href = true)
    as ->.
  { apply andb_true_intro. split; [|apply contains_append].
    apply bool_decide_eq_true_2. subst href. by destruct pre. }
  assert (split "/catalog/" href
          = pre :: split "/catalog/" (id +:+ rest)) as Hsplit.
  { unfold split, href.
    eapply (split_from_first "/catalog/" "/catalog"); [reflexivity|done]. }
  rewrite Hsplit. simpl (_ !! _).
  destruct (split_catalog_head id rest Hid Hrest)
    as (rest' & Hhead & Hrest').
  rewrite Hhead. split.
  - simpl. by rewrite (split_slash_head id rest' Hid Hrest').
  - intros Hfree. unfold split in Hhead.
    rewrite (split_from_whole _ _ Hfree) in Hhead.
    by injection Hhead as <-.
Qed.

Lemma link_round_trip_witness :
  _parse_search_page
    [Some (Some "https://rusneb.ru/catalog/000199_000009_002816547/")]
  = Some ["000199_000009_002816547"].
Proof.
  destruct (link_round_trip "https://rusneb.ru" "000199_000009_002816547"
              "/" []) as [Hsearch _];
    [vm_compute; reflexivity|vm_compute; reflexivity|
     right; vm_compute; reflexivity|].
  exact Hsearch.
Defined.

(** ** Sources without an empty page *)

Section NoEnd.
Context (cfg : Config) (client_get : PageTask.t → fetch_outcome).
Hypothesis never_empty : ∀ task, client_get task ≠ Response 200 [].

Lemma step_no_end (w : nat) (s : state) :
  PageData.no_more_pages (page_data s) = false →
  stop_event s = false →
  Forall (λ ws, ws ≠ Done) (workers s) →
  PageData.no_more_pages (page_data (step cfg client_get w s)) = false
  ∧ Forall (λ ws, ws ≠ Done) (workers (step cfg client_get w s)).
Proof.
  intros Hflag Hstop Hworkers. split.
  - apply not_true_is_false.
    intros [?|(task & _ & _ & Hget & _)]%step_no_more_pages; [congruence|].
    by apply (never_empty task).
  - destruct (step_move cfg client_get w s)
      as [[_ ->]|(ws & ws' & data' & np' & Hw & Hmove & ->)]; [done|].
    simpl. apply Forall_insert; [done|].
    assert (∀ task rest, after_task task rest ≠ Done) as Hafter.
    { intros task rest. unfold after_task.
      by destruct (PageTask.no_more_pages task). }
    destruct Hmove
      as [|n k taken fresh tasks| | | | | | | | | |]; try done; try congruence.
    + by destruct tasks.
    + rewrite Forall_forall in Hworkers.
      apply (Hworkers Done). by eapply list_elem_of_lookup_2.
Qed.

Lemma run_no_end (sched : list nat) (s : state) :
  PageData.no_more_pages (page_data s) = false →
  stop_event s = false →
  Forall (λ ws, ws ≠ Done) (workers s) →
  PageData.no_more_pages
    (page_data (run_workers cfg client_get sched s)) = false
  ∧ Forall (λ ws, ws ≠ Done) (workers (run_workers cfg client_get sched s)).
Proof.
  revert s. induction sched as [|w sched IH]; intros s Hflag Hstop Hworkers;
    simpl; [done|].
  destruct (step_no_end w s Hflag Hstop Hworkers) as [Hflag' Hworkers'].
  apply IH; [done| |done]. by rewrite step_stop_event.
Qed.
End NoEnd.

(** X20: the crawl ends on an empty page only: when the source never answers
    with status 200 and no item (it has items on every page, or it keeps
    failing), [no_more_pages] is never raised and no worker ever leaves its
    loop, whatever the schedule, so that [run] does not return unless it is
    cancelled. *)
Theorem no_end_without_empty_page cfg client_get (sched : list nat)
    (data : PageData.t) :
  (∀ task, client_get task ≠ Response 200 []) →
  PageData.no_more_pages data = false →
  0 < num_workers cfg →
  let s := run_workers cfg client_get sched (init cfg data) in
  PageData.no_more_pages (page_data s) = false
  ∧ Forall (λ ws, ws ≠ Done) (workers s)
  ∧ run cfg client_get sched false data = None.
Proof.
  intros Hget Hflag Hworkers s.
  destruct (run_no_end cfg client_get Hget sched (init cfg data))
    as [Hflag' Hlive]; [done|done| |].
  { simpl. by apply Forall_replicate. }
  fold s in Hflag', Hlive. split_and!; [done|done|].
  unfold run. rewrite bool_decide_eq_false_2
    by by apply init_workers_nonempty.
  fold s.
  assert (workers s ≠ []) as Hnonempty
    by by apply run_workers_nonempty, init_workers_nonempty.
  assert (all_done s = false) as ->; [|done].
  unfold all_done. destruct (workers s) as [|ws l]; [done|].
  apply Forall_cons in Hlive as [Hws _]. simpl. by destruct ws.
Qed.

Lemma no_end_without_empty_page_witness :
  let cfg := {| request := ParseRequest.mk "q" false; num_workers := 1;
                chunk_size := 1; max_retries := 2 |} in
  run cfg (λ _, Response 503 []) (replicate 20 0%nat) false PageData.fresh
  = None.
Proof.
  intros cfg.
  by destruct (no_end_without_empty_page cfg (λ _, Response 503 [])
                 (replicate 20 0%nat) PageData.fresh) as (_ & _ & Hrun).
Defined.

(** ** One worker *)

Section Solo.
Context (cfg : Config) (items_of : Z → list string) (e : Z).
Hypothesis one_worker : num_workers cfg = 1.
Hypothesis chunk_positive : 0 < chunk_size cfg.
Hypothesis first_empty : items_of e = [].
Hypothesis populated : ∀ p, 1 ≤ p < e → items_of p ≠ [].
Hypothesis e_positive : 1 ≤ e.

Lemma init_solo_inv : solo_inv items_of e (init cfg PageData.fresh).
Proof.
  split; simpl; try done; try lia.
  exists FetchingTasks. by rewrite one_worker.
Qed.

Lemma step_solo_inv (w : nat) (s : state) :
  solo_inv items_of e s →
  solo_inv items_of e (step cfg (source items_of) w s)
  ∧ (∀ p, fetched w s = Some p →
          p = PageData.max_page_found (page_data s) + 1)
  ∧ (∀ task rest, workers s !! w = Some (AwaitingResponse task rest) →
                  PageTask.page_number task
                  = PageData.max_page_found (page_data s) + 1).
Proof.
  intros [Hstop Hpending Hdownloaded Hmark Hcursor Hprocessed Hqueue Hflag
          (ws0 & Hworkers & Hholds)].
  set (m := PageData.max_page_found (page_data s)) in *.
  assert (∀ task rest,
            ws0 = Processing (task :: rest)
            ∨ ws0 = AwaitingResponse task rest →
            PageTask.page_number task = m + 1
            ∧ m < next_page s
            ∧ PageData.no_more_pages (page_data s) = false
            ∧ PageTask.no_more_pages task = false
            ∧ PageTask.page_number <$> rest = seqZ (m + 2) (next_page s - m - 1)
            ∧ Forall (λ task, PageTask.no_more_pages task = false) rest)
    as Hhead.
  { intros task rest Hws.
    assert (PageData.no_more_pages (page_data s) = false
            ∧ PageTask.page_number <$> task :: rest
              = seqZ (m + 1) (next_page s - m)
            ∧ Forall (λ task, PageTask.no_more_pages task = false)
                (task :: rest)) as (Hdown & Hpages & Hflags).
    { by destruct Hws as [-> | ->]. }
    apply Forall_cons in Hflags as [Htask Hrest].
    destruct (decide (next_page s - m ≤ 0)) as [Hle|Hlt].
    { by rewrite seqZ_nil in Hpages by done. }
    rewrite seqZ_cons, fmap_cons in Hpages by lia.
    injection Hpages as Hpage Hpages.
    split_and!; [done|lia|done|done| |done].
    rewrite Hpages. f_equal; lia. }
  split_and!.
  2:{ intros p. unfold fetched. rewrite Hworkers.
      destruct w as [|w]; [|done]. simpl.
      destruct ws0 as [| |[|task rest]| |]; try done.
      destruct (stop_event s); [done|]. case_bool_decide; [done|].
      intros [= <-]. by destruct (Hhead task rest) as [? _]; [left|]. }
  2:{ intros task rest. rewrite Hworkers. destruct w as [|w]; [|done].
      intros [= ->]. by destruct (Hhead task rest) as [? _]; [right|]. }
  destruct (step_move cfg (source items_of) w s)
    as [[_ ->]|(ws & ws' & data' & np' & Hw & Hmove & ->)].
  { split; try done. by exists ws0. }
  rewrite Hworkers in Hw |- *. destruct w as [|w]; [|done].
  injection Hw as ->. simpl (<[_:=_]> _).
  destruct Hmove
    as [Hstopped|n k taken fresh tasks _ -> -> -> Hk Hcases Hzero|
        Hup _|Hsleep| |task rest Hstopped|task rest _ Hin|task rest _ Hnotin|
        task rest task' data' Hfail|
        task rest Hget|task rest item items Hget|];
    try congruence.
  - (* tasks are taken: nothing is pending, pages are reserved *)
    rewrite Hpending, take_nil, fmap_nil, app_nil_l, drop_nil in *.
    destruct (PageData.no_more_pages (page_data s)) eqn:Hdown.
    + assert (k = 0) as -> by (destruct Hcases as [?|(_ & _ & ?)]; [done|congruence]).
      rewrite reserved_0, filter_nil, fmap_nil. rewrite Z.add_0_r.
      split; simpl; rewrite ?Hdown; try done.
      by exists IdleBackoff.
    + assert (k = chunk_size cfg) as ->.
      { destruct Hcases as [->|(-> & _)]; [|simpl; lia].
        destruct Hzero as [_ ?]; [done|simpl; lia|congruence]. }
      assert (m = next_page s) as Hm by by apply Hholds.
      assert (filter (λ page, page ∉ PageData.processed_pages (page_data s))
                (reserved (next_page s) (chunk_size cfg))
              = seqZ (m + 1) (next_page s + chunk_size cfg - m)) as ->.
      { rewrite filter_all.
        - unfold reserved, range. f_equal; lia.
        - intros p Hp%elem_of_reserved.
          rewrite Hprocessed, elem_of_list_to_set, elem_of_seqZ.
          fold m. lia. }
      split; simpl; rewrite ?Hdown; fold m; try done; try lia.
      destruct (seqZ (m + 1) (next_page s + chunk_size cfg - m))
        as [|page pages] eqn:Hpages.
      { rewrite seqZ_cons in Hpages by lia. done. }
      exists (Processing (PageTask.new (request cfg) (Z.of_nat 0)
                            <$> page :: pages)).
      split; [done|]. unfold solo_holds, worker_tasks.
      split_and!; [done|by rewrite pages_of_new|].
      apply Forall_fmap, Forall_forall. done.
  - (* the worker leaves *)
    split; try done. by exists Done.
  - (* the worker cannot be idle with the flag down *)
    simpl in Hholds. destruct Hsleep as [?|?]; congruence.
  - (* the chunk is over *)
    destruct Hholds as (Hdown & Hpages & _). simpl in Hpages.
    split; try done. exists FetchingTasks. split; [done|]. simpl. intros _.
    destruct (decide (next_page s - m ≤ 0)); [fold m; lia|].
    by rewrite seqZ_cons in Hpages by lia.
  - (* the next page is not processed yet *)
    destruct (Hhead task rest) as (Hpage & _); [by left|].
    rewrite Hprocessed, elem_of_list_to_set, elem_of_seqZ in Hin.
    fold m in Hin. lia.
  - (* the next page is fetched *)
    split; try done. by exists (AwaitingResponse task rest).
  - (* the page has no item: it is page [e] *)
    destruct (Hhead task rest) as (Hpage & Hlt & Hdown & _); [by right|].
    unfold source in Hget. rewrite Hpage in Hget.
    assert (m + 1 = e) as He.
    { destruct (decide (m + 1 = e)) as [|Hne]; [done|].
      destruct (populated (m + 1)); [fold m in Hmark; lia|congruence]. }
    unfold mark_exhausted. simpl.
    rewrite bool_decide_eq_true_2 by (fold m; lia).
    split; simpl; try done; [fold m; lia|].
    exists FetchingTasks. split; [done|]. simpl. done.
  - (* the page has items: it is recorded *)
    destruct (Hhead task rest)
      as (Hpage & Hlt & Hdown & Htask & Hpages & Hflags); [by right|].
    unfold source in Hget. rewrite Hpage in Hget.
    assert (m + 1 < e) as He.
    { destruct (decide (m + 1 = e)) as [Heq|Hne]; [|fold m in Hmark; lia].
      rewrite Heq, first_empty in Hget. congruence. }
    assert (Z.max m (m + 1) = m + 1) as Hmax by lia.
    split; simpl; fold m; rewrite ?Hpage, ?Hmax; try done; try lia.
    + rewrite Hprocessed. fold m. apply set_eq. intros p.
      rewrite elem_of_union, elem_of_singleton, !elem_of_list_to_set,
        !elem_of_seqZ. lia.
    + replace (Z.to_nat (m + 1)) with (S (Z.to_nat m)) by lia.
      cbn [sequential_queue]. rewrite <- Hqueue.
      replace (Z.of_nat (S (Z.to_nat m))) with (m + 1) by lia.
      injection Hget as <-. f_equal. apply list_filter_iff.
      intros x. rewrite Hdownloaded. set_solver.
    + intros Hup. congruence.
    + unfold after_task. rewrite Htask.
      exists (Processing rest). split; [done|]. simpl.
      split_and!; [done| |done].
      rewrite Hpages. f_equal; lia.
  - (* the worker has left *)
    split; try done. by exists Done.
Qed.

Lemma run_solo_inv (sched : list nat) (s : state) :
  solo_inv items_of e s →
  solo_inv items_of e (run_workers cfg (source items_of) sched s)
  ∧ (∀ p, p ∈ fetches cfg (source items_of) sched s → 1 ≤ p ≤ e).
Proof.
  revert s. induction sched as [|w sched IH]; intros s Hinv; simpl.
  { split; [done|]. by intros p ?%elem_of_nil. }
  destruct (step_solo_inv w s Hinv) as (Hinv' & Hfetched & _).
  destruct (IH _ Hinv') as [Hend Hfetches]. split; [done|].
  intros p [Hp|Hp]%elem_of_app; [|by apply Hfetches].
  destruct (fetched w s) as [q|] eqn:Hq; [|by apply elem_of_nil in Hp].
  apply list_elem_of_singleton in Hp as ->. rewrite (Hfetched q eq_refl).
  pose proof (solo_mark _ _ _ Hinv). lia.
Qed.

(** The worker never asks for a page beyond [e], so that it cannot tell
    the source from the source cut after [e]. *)
Lemma step_cut_after (w : nat) (s : state) :
  solo_inv items_of e s →
  step cfg (source (cut_after e items_of)) w s
  = step cfg (source items_of) w s.
Proof.
  intros Hinv. destruct (step_solo_inv w s Hinv) as (_ & _ & Hawaiting).
  unfold step. destruct (workers s !! w) as [ws|] eqn:Hw; [|done].
  destruct ws as [| |tasks|task rest|]; try done.
  unfold worker_step, source, cut_after.
  rewrite (Hawaiting task rest eq_refl).
  rewrite bool_decide_eq_true_2; [done|].
  pose proof (solo_mark _ _ _ Hinv). lia.
Qed.

Lemma run_with_cut_after (pick : state → nat) (fuel : nat) (s : state) :
  solo_inv items_of e s →
  run_with cfg (source (cut_after e items_of)) pick fuel s
  = run_with cfg (source items_of) pick fuel s.
Proof.
  revert s. induction fuel as [|fuel IH]; intros s Hinv; simpl; [done|].
  destruct (all_done s); [done|]. rewrite step_cut_after by done.
  apply IH. by apply step_solo_inv.
Qed.

Lemma cut_after_exhausted (p : Z) : e - 1 < p → cut_after e items_of p = [].
Proof.
  intros Hp. unfold cut_after. case_bool_decide; [|done].
  by replace p with e by lia.
Qed.
End Solo.

(** X21: with one worker, on a source that always answers, the crawl is the
    sequential one and stops at the first page without item, [e]: at every
    point of every run the pages recorded are [1..m] with [m < e], the queue
    is the one obtained by recording these pages one after the other, nothing
    is pending and no page beyond [e] was ever fetched, whatever the pages
    beyond [e] hold; when the worker is done every page before [e] is
    recorded. Under a scheduler that resumes the worker while it can move, the
    worker is done within [step_bound] steps. *)
Theorem single_worker_sequential cfg (items_of : Z → list string) (e : Z) :
  num_workers cfg = 1 →
  0 < chunk_size cfg →
  1 ≤ e →
  items_of e = [] →
  (∀ p, 1 ≤ p < e → items_of p ≠ []) →
  (∀ sched : list nat,
     let s := run_workers cfg (source items_of) sched
                (init cfg PageData.fresh) in
     let m := PageData.max_page_found (page_data s) in
     0 ≤ m < e
     ∧ PageData.processed_pages (page_data s) = list_to_set (seqZ 1 m)
     ∧ PageData.download_queue (page_data s)
       = sequential_queue items_of (Z.to_nat m)
     ∧ PageData.pending_tasks (page_data s) = []
     ∧ (∀ p, p ∈ fetches cfg (source items_of) sched
                   (init cfg PageData.fresh) → 1 ≤ p ≤ e)
     ∧ (all_done s = true →
        m = e - 1 ∧ PageData.no_more_pages (page_data s) = true))
  ∧ (∀ (pick : state → nat) (fuel : nat),
       (∀ s, all_done s = false → live (pick s) s = true) →
       step_bound cfg (e - 1) ≤ Z.of_nat fuel →
       all_done (run_with cfg (source items_of) pick fuel
                   (init cfg PageData.fresh)) = true).
Proof.
  intros Hone Hchunk He Hempty Hpopulated.
  pose proof (init_solo_inv cfg items_of e Hone He) as Hinit.
  split.
  - intros sched s m.
    destruct (run_solo_inv cfg items_of e Hone Hchunk Hempty Hpopulated He
                sched _ Hinit) as [Hinv Hfetches].
    fold s in Hinv.
    destruct Hinv as [_ Hpending _ Hmark _ Hprocessed Hqueue Hflag
                      (ws & Hworkers & Hholds)].
    fold m in Hmark, Hprocessed, Hqueue, Hflag, Hholds.
    split; [done|]. split; [done|]. split; [done|]. split; [done|].
    split; [done|]. intros Hdone. unfold all_done in Hdone.
    rewrite Hworkers in Hdone. simpl in Hdone.
    destruct ws; try done. simpl in Hholds. split; [by apply Hflag|done].
  - intros pick fuel Hpick Hfuel.
    rewrite <- (run_with_cut_after cfg items_of e Hone Hchunk Hempty
                  Hpopulated He) by done.
    apply (run_with_done cfg (cut_after e items_of) (e - 1) Hchunk);
      [by apply (cut_after_exhausted items_of e Hempty)|done| |].
    + apply init_finite_inv. lia.
    + rewrite potential_init by lia. done.
Qed.

Lemma single_worker_sequential_witness :
  let cfg := {| request := ParseRequest.mk "q" false; num_workers := 1;
                chunk_size := 2; max_retries := 3 |} in
  let items_of := λ p : Z, if bool_decide (p = 2) then [] else ["a"; "b"] in
  let s := run_workers cfg (source items_of) (replicate 12 0%nat)
             (init cfg PageData.fresh) in
  PageData.max_page_found (page_data s) = 1
  ∧ PageData.download_queue (page_data s) = ["a"; "b"]
  ∧ (PageData.processed_pages (page_data s)
     = list_to_set (seqZ 1 (PageData.max_page_found (page_data s)))).
Proof.
  intros cfg items_of s.
  assert (PageData.max_page_found (page_data s) = 1
          ∧ PageData.download_queue (page_data s) = ["a"; "b"]) as [Hm Hq]
    by (vm_compute; split; reflexivity).
  destruct (single_worker_sequential cfg items_of 2) as [Hrun _];
    [reflexivity|reflexivity|lia|reflexivity| |].
  { intros p Hp. replace p with 1 by lia. done. }
  destruct (Hrun (replicate 12 0%nat)) as (_ & Hprocessed & _).
  split; [exact Hm|]. split; [exact Hq|exact Hprocessed].
Defined.
